(** * Odds normalizer of the prop-comparison table

    A shallow embedding of the data transformations of
    [src/components/prop-comparison/game-selector.tsx] (the [GameSelector]
    and [PropComparisonTable] components): the merge of standard and
    alternate markets at fetch time, the regrouping of a [GameOdds] payload
    into [PlayerProp] rows, the search filter and the two sort modes, the
    best price per line of the table view, and the automatic selection of
    the first event.

    Conventions of the embedding.
    - JavaScript numbers ([point], [price], timestamps) are only compared
      ([===], the sign of a difference, [Math.max]) by the code modelled
      here, so they are integers [Z]; a line such as 25.5 is read in a fixed
      unit (half points, say).  [-Infinity] is the extra element of [Num].
    - Strings are [string].  The case mapping of the host is a parameter
      of the search filter; where a lowered text is only compared with a
      constant of ASCII letters, its ASCII part [Js.toLowerCase] stands for
      it.
    - Arrays are lists; [Array.prototype.sort] with a consistent comparator
      is a stable sort, modelled by a stable insertion sort.
    - A [Map] is an association list in insertion order, which is the order
      [Map.prototype.forEach] visits it in.
    - An optional field or argument ([description], a [null] state, the
      third argument of [getMarketApiKey]) is an [option].
    - A state read inside an effect is the constant of the rendering that
      started the effect: the event selector keeps it apart from the state
      that the answer of a request meets. *)

From Stdlib Require Import List ZArith Lia Bool String Ascii.
From Stdlib Require Import Sorted Permutation.
Import ListNotations.

Set Default Proof Using "Type".

Local Open Scope string_scope.
Local Open Scope list_scope.
Local Open Scope Z_scope.

(** ** JavaScript built-ins used by the component *)

Module Js.

(** [s.slice(n)] on a string. *)
Fixpoint drop (n : nat) (s : string) : string :=
  match n, s with
  | O, _ => s
  | S _, EmptyString => EmptyString
  | S n', String _ s' => drop n' s'
  end.

(** [s.includes(sub)]: [sub] occurs in [s] at some position. *)
Fixpoint includes (s sub : string) : bool :=
  String.prefix sub s
  || match s with
     | EmptyString => false
     | String _ s' => includes s' sub
     end.

(** [s.replace(pat, rep)] with a string pattern: only the first occurrence
    of [pat] is replaced. *)
Fixpoint replace (s pat rep : string) : string :=
  if String.prefix pat s then String.append rep (drop (String.length pat) s)
  else match s with
       | EmptyString => EmptyString
       | String c s' => String c (replace s' pat rep)
       end.

Definition lower_char (c : ascii) : ascii :=
  let n := nat_of_ascii c in
  if (Nat.leb 65 n && Nat.leb n 90)%bool then ascii_of_nat (n + 32) else c.

(** [s.toLowerCase()] on text of ASCII characters: the letters A to Z
    become a to z.  On other text it stands for the host function only
    where the result is compared with a constant made of ASCII letters
    other than k, the one such letter that a character outside ASCII is
    lowered to. *)
Fixpoint toLowerCase (s : string) : string :=
  match s with
  | EmptyString => EmptyString
  | String c s' => String (lower_char c) (toLowerCase s')
  end.


(** A string is falsy exactly when it is empty. *)
Definition truthy (s : string) : bool := negb (String.eqb s "").

(** Numbers extended with [-Infinity]. *)
Inductive Num : Type :=
  | NegInfinity : Num
  | Fin : Z -> Num.

(** [Math.max(a, x)] for a finite [x]. *)
Definition max (a : Num) (x : Z) : Num :=
  match a with
  | NegInfinity => Fin x
  | Fin y => Fin (Z.max y x)
  end.

Definition le (a b : Num) : Prop :=
  match a, b with
  | NegInfinity, _ => True
  | Fin _, NegInfinity => False
  | Fin x, Fin y => x <= y
  end.

(** [x || 0] on an optional number. *)
Definition or_zero (x : option Z) : Z :=
  match x with
  | Some z => if z =? 0 then 0 else z
  | None => 0
  end.

Section Sort.
Context {A : Type}.
(** The comparator: negative, zero or positive, as [compareFn]. *)
Variable cmp : A -> A -> Z.

(** [x] goes before the first element it does not exceed, so that equal
    elements keep their order. *)
Fixpoint insert (x : A) (l : list A) : list A :=
  match l with
  | [] => [x]
  | y :: l' => if cmp x y <=? 0 then x :: y :: l' else y :: insert x l'
  end.

(** [l.sort(cmp)]. *)
Fixpoint sort (l : list A) : list A :=
  match l with
  | [] => []
  | x :: l' => insert x (sort l')
  end.
End Sort.

(** An insertion-ordered [Map<string, V>]. *)
Definition Map (V : Type) : Type := list (string * V).

Fixpoint get {V : Type} (m : Map V) (k : string) : option V :=
  match m with
  | [] => None
  | (k', v) :: m' => if String.eqb k' k then Some v else get m' k
  end.

(** [m.set(k, v)]: an existing key keeps its place. *)
Fixpoint set {V : Type} (m : Map V) (k : string) (v : V) : Map V :=
  match m with
  | [] => [(k, v)]
  | (k', v') :: m' =>
      if String.eqb k' k then (k, v) :: m' else (k', v') :: set m' k v
  end.

Definition keys {V : Type} (m : Map V) : list string := List.map fst m.

End Js.

(** ** Data model *)

Module Outcome.
Record t : Type := mk {
  name : string;
  point : Z;
  price : Z;
  description : option string
  }.
End Outcome.

Module Market.
Record t : Type := mk {
  key : string;
  outcomes : list Outcome.t
  }.
End Market.

Module Bookmaker.
Record t : Type := mk {
  key : string;
  title : string;
  last_update : string;
  markets : list Market.t
  }.
End Bookmaker.

Module GameOdds.
Record t : Type := mk {
  home_team : string;
  away_team : string;
  bookmakers : list Bookmaker.t
  }.
End GameOdds.

Module PlayerProp.
Record t : Type := mk {
  player : string;
  team : string;
  statType : string;
  line : Z;
  bookmakers : list Bookmaker.t
  }.
End PlayerProp.

Module Event.
(** [commence_time] is the value of [new Date(commence_time).getTime()]. *)
Record t : Type := mk {
  id : string;
  home_team : string;
  away_team : string;
  commence_time : Z
  }.
End Event.

Module BestOdds.
(** What [findBestOdds] returns, as the component reads it. *)
Record t : Type := mk {
  bookmaker : string;
  line : Z;
  odds : Z
}.
End BestOdds.

Module BestPerLine.
(** A value of the table view's [bestOddsPerLine] map. *)
Record t : Type := mk {
  over : Js.Num;
  under : Js.Num
}.
End BestPerLine.

(** The [sortBy] state: ["name"] or ["best-odds"]. *)
Inductive SortBy : Type :=
| SortByName : SortBy
| SortByBestOdds : SortBy.

(** ** The event selector ([GameSelector], [fetchEvents]) *)

Module GameSelector.

Record State : Type := mkState {
  events : list Event.t;
  selectedEventId : option string;
  (** the argument of the last [onGameSelect] call, if any *)
  onGameSelect : option string
}.

Definition byCommenceTime (a b : Event.t) : Z :=
  Event.commence_time a - Event.commence_time b.

(** [!selectedEventId]: [null] or the empty string. *)
Definition noneSelected (selectedEventId : option string) : bool :=
  match selectedEventId with
  | None => true
  | Some s => negb (Js.truthy s)
  end.

(** The effect "Reset selection when sport changes":
    [setSelectedEventId(null); onGameSelect("")]. *)
Definition resetSelection (st : State) : State :=
  mkState (events st) None (Some "").

(** The success path of [fetchEvents], once [data] has arrived.  The test
    [!selectedEventId] reads the constant of the rendering that started the
    effect, [captured], and not the state [st] the answer meets; where the
    test fails the selection in [st] is left alone. *)
Definition fetchEvents (captured : option string) (data : list Event.t)
    (st : State) : State :=
  let sortedEvents := Js.sort byCommenceTime data in
  match sortedEvents with
  | firstEvent :: _ =>
      if noneSelected captured
      then mkState sortedEvents (Some (Event.id firstEvent))
                   (Some (Event.id firstEvent))
      else mkState sortedEvents (selectedEventId st) (onGameSelect st)
  | [] => mkState sortedEvents (selectedEventId st) (onGameSelect st)
  end.

(** The state of a component just mounted. *)
Definition mounted : State := mkState [] None None.

(** What the mounting and every change of [sport] run: the two effects of
    one rendering, in the order of the source.  The request is started with
    the [selectedEventId] of that rendering; the reset does not start the
    effects again, [selectedEventId] being none of their dependencies, so
    that the answer [data] meets the state the reset has left. *)
Definition sportEffects (data : list Event.t) (st : State) : State :=
  fetchEvents (selectedEventId st) data (resetSelection st).

(** [events.find((e) => e.id === selectedEventId)]: with [null] selected no
    event is found, the ids being strings. *)
Definition selectedEvent (st : State) : option Event.t :=
  match selectedEventId st with
  | Some id => find (fun e => String.eqb (Event.id e) id) (events st)
  | None => None
  end.

(** [handleGameSelect]. *)
Definition handleGameSelect (eventId : string) (st : State) : State :=
  mkState (events st) (Some eventId) (Some eventId).

Section Grouping.

(** [new Date(t).toDateString()], a day such as ["Sat Mar 01 2025"]: never
    the name of an inherited property nor an array index, so that the object
    [groups] enumerates its keys in insertion order. *)
Variable toDateString : Z -> string.

(** One turn of [events.reduce]: [if (!groups[date]) groups[date] = [];
    groups[date].push(event)]. *)
Definition groupStep (groups : Js.Map (list Event.t)) (event : Event.t)
    : Js.Map (list Event.t) :=
  let date := toDateString (Event.commence_time event) in
  let groups' :=
    match Js.get groups date with
    | Some _ => groups
    | None => Js.set groups date []
    end in
  match Js.get groups' date with
  | Some dateEvents => Js.set groups' date (dateEvents ++ [event])
  | None => groups'
  end.

Definition groupedEvents (events : list Event.t) : Js.Map (list Event.t) :=
  fold_left groupStep events [].

End Grouping.

End GameSelector.

(** ** The sport layout ([SportLayout]) *)

Module SportLayout.

Definition validSports : list string := ["nba"; "nfl"; "mlb"; "nhl"; "ncaab"].

(** [!sport || !validSports.includes(sport.toLowerCase())]: the page is
    answered by [notFound()]. *)
Definition isNotFound (sport : string) : bool :=
  negb (Js.truthy sport)
  || negb (existsb (String.eqb (Js.toLowerCase sport)) validSports).

End SportLayout.

(** ** The market options of a sport *)

Module MarketOption.
(** An entry of [getMarketsForSport(sport)], as the component reads it; the
    two flags are read for their truth only. *)
Record t : Type := mk {
  value : string;
  label : string;
  apiKey : string;
  hasAlternates : bool;
  alwaysFetchAlternate : bool
}.
End MarketOption.

(** The [playerType] state: ["batter"] or ["pitcher"]. *)
Inductive PlayerType : Type :=
| Batter : PlayerType
| Pitcher : PlayerType.

(** ** Sample data

    The payload of the examples: three bookmakers on one game.  Lines are in
    half points, so that 51 stands for 25.5. *)

Module Sample.

Definition sport : string := "basketball_nba".

Definition statType : string := "player_points".

(** A market-key vocabulary in which the value of a stat type is its
    standard key and the alternate key appends ["_alternate"]. *)
Definition getMarketApiKey (sport statType : string)
    (alternate : option bool) : string :=
  match alternate with
  | Some true => String.append statType "_alternate"
  | _ => statType
  end.

(** A collation: the order of [String.compare]. *)
Definition localeCompare (a b : string) : Z :=
  match String.compare a b with
  | Lt => -1
  | Eq => 0
  | Gt => 1
  end.

(** A case mapping: the one of the host on ASCII text. *)
Definition toLowerCase (s : string) : string := Js.toLowerCase s.

Definition over (point price : Z) (player : string) : Outcome.t :=
  Outcome.mk "Over" point price (Some player).

Definition under (point price : Z) (player : string) : Outcome.t :=
  Outcome.mk "Under" point price (Some player).

Definition bookA : Bookmaker.t :=
  Bookmaker.mk "booka" "Book A" "2025-03-01T00:00:00Z"
    [ Market.mk "player_points"
        [ over 51 120 "X"; under 51 (-140) "X"; over 45 (-105) "Y";
          Outcome.mk "Over" 30 100 None ];
      Market.mk "player_points_alternate"
        [ over 61 300 "X"; over 51 120 "X"; over 41 (-250) "X" ];
      Market.mk "player_assists_alternate" [ over 9 150 "X" ] ].

Definition bookB : Bookmaker.t :=
  Bookmaker.mk "bookb" "Book B" "2025-03-01T00:05:00Z"
    [ Market.mk "player_points"
        [ over 51 (-110) "X"; under 51 (-110) "X" ] ].

(** A market whose key holds ["_alternate"] twice, and its bookmaker. *)
Definition oddMarket : Market.t :=
  Market.mk "h1_alternate_points_alternate" [over 61 300 "X"].

Definition oddBook : Bookmaker.t :=
  Bookmaker.mk "bookd" "Book D" "2025-03-01T00:09:00Z" [oddMarket].

(** A bookmaker with two alternate markets of one key. *)
Definition twinBook : Bookmaker.t :=
  Bookmaker.mk "booke" "Book E" "2025-03-01T00:11:00Z"
    [ Market.mk "player_points" [ over 51 120 "X" ];
      Market.mk "player_points_alternate" [ over 61 300 "X" ];
      Market.mk "player_points_alternate" [ over 71 500 "X" ] ].

(** A bookmaker with alternate markets only. *)
Definition bookC : Bookmaker.t :=
  Bookmaker.mk "bookc" "Book C" "2025-03-01T00:07:00Z"
    [ Market.mk "player_points_alternate"
        [ over 55 200 "Y"; over 47 (-120) "Y" ] ].

Definition responseData : GameOdds.t :=
  GameOdds.mk "Lakers" "Celtics" [bookA; bookB; bookC].

(** The props of [responseData] for [statType]. *)
Definition propX : PlayerProp.t :=
  PlayerProp.mk "X" "Lakers" "player_points" 41
    [ Bookmaker.mk "booka" "Book A" "2025-03-01T00:00:00Z"
        [ Market.mk "player_points"
            [ over 41 (-250) "X"; over 51 120 "X"; under 51 (-140) "X";
              over 61 300 "X" ] ];
      Bookmaker.mk "bookb" "Book B" "2025-03-01T00:05:00Z"
        [ Market.mk "player_points"
            [ over 51 (-110) "X"; under 51 (-110) "X" ] ] ].

Definition propY : PlayerProp.t :=
  PlayerProp.mk "Y" "Lakers" "player_points" 45
    [ Bookmaker.mk "booka" "Book A" "2025-03-01T00:00:00Z"
        [ Market.mk "player_points" [ over 45 (-105) "Y" ] ];
      Bookmaker.mk "bookc" "Book C" "2025-03-01T00:07:00Z"
        [ Market.mk "player_points"
            [ over 47 (-120) "Y"; over 55 200 "Y" ] ] ].

(** Modelled from the spec: [findBestOdds] of [@/lib/odds-api], which is not
    among the sources.  "Scan every bookmaker attached to that player's
    prop, find the outcome matching that side, and return the one with the
    maximum price, carrying along its bookmaker id and point"; "first-seen
    wins under a strict > comparison". *)
Definition findBestOdds (prop : PlayerProp.t) (marketKey side : string)
    : option BestOdds.t :=
  fold_left
    (fun best bookmaker =>
       match find (fun m => String.eqb (Market.key m) marketKey)
               (Bookmaker.markets bookmaker) with
       | Some market =>
           match find (fun o => String.eqb (Outcome.name o) side)
                   (Market.outcomes market) with
           | Some o =>
               let found :=
                 BestOdds.mk (Bookmaker.key bookmaker) (Outcome.point o)
                   (Outcome.price o) in
               match best with
               | Some b =>
                   if BestOdds.odds b <? Outcome.price o then Some found
                   else best
               | None => Some found
               end
           | None => best
           end
       | None => best
       end)
    (PlayerProp.bookmakers prop) None.

Definition events : list Event.t :=
  [ Event.mk "e2" "Lakers" "Celtics" 1740873600000;
    Event.mk "e1" "Heat" "Bulls" 1740787200000;
    Event.mk "e3" "Suns" "Nets" 1740787200000 ].

(** The markets of a sport: two batter markets and a pitcher market for
    baseball, the points market otherwise. *)
Definition getMarketsForSport (sport : string) : list MarketOption.t :=
  if String.eqb sport "baseball_mlb"
  then [ MarketOption.mk "hits" "Hits" "batter_hits" true false;
         MarketOption.mk "strikeouts" "Strikeouts" "pitcher_strikeouts"
           true false;
         MarketOption.mk "home_runs" "Home Runs" "Batter_Home_Runs"
           false false ]
  else [ MarketOption.mk "player_points" "Points" "player_points" true false ].

(** The events of the sport chosen next. *)
Definition nextEvents : list Event.t :=
  [ Event.mk "f2" "Reds" "Rays" 1740877200000;
    Event.mk "f1" "Mets" "Cubs" 1740790800000 ].

End Sample.

(** ** The comparison table ([PropComparisonTable]) *)

Section PropComparisonTable.

(** [getMarketApiKey(sport, statType, alternate?)] comes from
    [@/lib/constants/markets], which is not among the sources: it is a
    parameter.  Its third argument is optional. *)
Variable getMarketApiKey : string -> string -> option bool -> string.

(** [a.localeCompare(b)], the collation of the host. *)
Variable localeCompare : string -> string -> Z.

(** [s.toLowerCase()], the case mapping of the host, for the texts of the
    search: players, teams and the query are free text. *)
Variable toLowerCase : string -> string.

(** [findBestOdds(prop, marketKey, side)] comes from [@/lib/odds-api], which
    is not among the sources: it is a parameter. *)
Variable findBestOdds : PlayerProp.t -> string -> string -> option BestOdds.t.

(** [getMarketsForSport(sport)] comes from [@/lib/constants/markets], which
    is not among the sources: it is a parameter. *)
Variable getMarketsForSport : string -> list MarketOption.t.

(** The [sport] property and the [statType] state of the component. *)
Variables sport statType : string.

(** [tauto] takes the whole context along: the parameters a goal does not
    mention are put aside first. *)
Ltac params_tauto :=
  try clear getMarketsForSport;
  try clear localeCompare; try clear toLowerCase; try clear findBestOdds;
  try clear statType;
  try clear sport; try clear getMarketApiKey; tauto.

Definition standardMarketKey : string :=
  getMarketApiKey sport statType (Some false).

Definition alternateMarketKey : string :=
  getMarketApiKey sport statType (Some true).

(** [a === b] on a [description], which may be [undefined]. *)
Definition sameDescription (a b : option string) : bool :=
  match a, b with
  | Some x, Some y => String.eqb x y
  | None, None => true
  | _, _ => false
  end.

(** The duplicate test of both the fetch and the regrouping:
    [o.name === a.name && o.point === a.point &&
     o.description === a.description]. *)
Definition sameOutcome (o a : Outcome.t) : bool :=
  String.eqb (Outcome.name o) (Outcome.name a)
  && (Outcome.point o =? Outcome.point a)
  && sameDescription (Outcome.description o) (Outcome.description a).

(** The comparator [(a, b) => a.point - b.point]. *)
Definition byPoint (a b : Outcome.t) : Z :=
  Outcome.point a - Outcome.point b.

(** *** Combining the markets of a bookmaker ([fetchPlayerProps]) *)

(** One turn of [alternateMarket.outcomes.forEach]. *)
Definition pushIfNew (allOutcomes : list Outcome.t)
    (alternateOutcome : Outcome.t) : list Outcome.t :=
  let isDuplicate :=
    existsb (fun o => sameOutcome o alternateOutcome) allOutcomes in
  if isDuplicate then allOutcomes else allOutcomes ++ [alternateOutcome].

Definition mergeOutcomes (standard alternate : list Outcome.t)
    : list Outcome.t :=
  Js.sort byPoint (fold_left pushIfNew alternate standard).

(** [m.key.includes('alternate')]. *)
Definition isAlternate (m : Market.t) : bool :=
  Js.includes (Market.key m) "alternate".

(** [m.key.replace('_alternate', '')]. *)
Definition standardKeyOf (m : Market.t) : string :=
  Js.replace (Market.key m) "_alternate" "".

Definition standardMarkets (book : Bookmaker.t) : list Market.t :=
  filter (fun m => negb (isAlternate m)) (Bookmaker.markets book).

Definition alternateMarkets (book : Bookmaker.t) : list Market.t :=
  filter isAlternate (Bookmaker.markets book).

(** [{...alternateMarket, key: alternateMarket.key.replace(...)}]. *)
Definition promote (alternateMarket : Market.t) : Market.t :=
  Market.mk (standardKeyOf alternateMarket) (Market.outcomes alternateMarket).

Definition findAlternate (alternates : list Market.t)
    (standardMarket : Market.t) : option Market.t :=
  find (fun m => String.eqb (standardKeyOf m) (Market.key standardMarket))
       alternates.

Definition mergeMarket (alternates : list Market.t)
    (standardMarket : Market.t) : Market.t :=
  match findAlternate alternates standardMarket with
  | None => standardMarket
  | Some alternateMarket =>
      Market.mk (Market.key standardMarket)
        (mergeOutcomes (Market.outcomes standardMarket)
                       (Market.outcomes alternateMarket))
  end.

(** The body of [responseData.bookmakers.map]. *)
Definition combineMarkets (book : Bookmaker.t) : Bookmaker.t :=
  let standards := standardMarkets book in
  let alternates := alternateMarkets book in
  if (Nat.eqb (List.length standards) 0
      && Nat.ltb 0 (List.length alternates))%bool
  then Bookmaker.mk (Bookmaker.key book) (Bookmaker.title book)
         (Bookmaker.last_update book) (List.map promote alternates)
  else Bookmaker.mk (Bookmaker.key book) (Bookmaker.title book)
         (Bookmaker.last_update book)
         (List.map (mergeMarket alternates) standards).

(** [data = {...responseData, bookmakers: ...}]. *)
Definition combineResponse (responseData : GameOdds.t) : GameOdds.t :=
  GameOdds.mk (GameOdds.home_team responseData)
    (GameOdds.away_team responseData)
    (List.map combineMarkets (GameOdds.bookmakers responseData)).

(** *** Regrouping by player ([playerProps]) *)

Definition findMarket (k : string) (ms : list Market.t) : option Market.t :=
  find (fun m => String.eqb (Market.key m) k) ms.

(** [market?.outcomes || []]. *)
Definition outcomesOrNone (market : option Market.t) : list Outcome.t :=
  match market with
  | Some m => Market.outcomes m
  | None => []
  end.

(** The outcomes a bookmaker brings in, or [None] where the callback returns
    early because neither market is there. *)
Definition allOutcomes (bookmaker : Bookmaker.t) : option (list Outcome.t) :=
  let standardMarket :=
    findMarket standardMarketKey (Bookmaker.markets bookmaker) in
  let alternateMarket :=
    findMarket alternateMarketKey (Bookmaker.markets bookmaker) in
  match standardMarket, alternateMarket with
  | None, None => None
  | _, _ =>
      Some (outcomesOrNone standardMarket ++ outcomesOrNone alternateMarket)
  end.

(** One turn of [allOutcomes.forEach] filling [playerOutcomes]. *)
Definition groupOutcome (playerOutcomes : Js.Map (list Outcome.t))
    (outcome : Outcome.t) : Js.Map (list Outcome.t) :=
  match Outcome.description outcome with
  | None => playerOutcomes
  | Some description =>
      if Js.truthy description then
        let outcomes :=
          match Js.get playerOutcomes description with
          | Some os => os
          | None => []
          end in
        let isDuplicate :=
          existsb (fun o => sameOutcome o outcome) outcomes in
        Js.set playerOutcomes description
          (if isDuplicate then outcomes else outcomes ++ [outcome])
      else playerOutcomes
  end.

Definition groupByPlayer (outcomes : list Outcome.t)
    : Js.Map (list Outcome.t) :=
  fold_left groupOutcome outcomes [].

(** The bookmaker entry attached to a prop. *)
Definition entry (bookmaker : Bookmaker.t) (outcomes : list Outcome.t)
    : Bookmaker.t :=
  Bookmaker.mk (Bookmaker.key bookmaker) (Bookmaker.title bookmaker)
    (Bookmaker.last_update bookmaker)
    [Market.mk standardMarketKey outcomes].

(** [existingProp.bookmakers.push(e)] on the first prop of that player. *)
Fixpoint pushBookmaker (player : string) (e : Bookmaker.t)
    (props : list PlayerProp.t) : list PlayerProp.t :=
  match props with
  | [] => []
  | p :: props' =>
      if String.eqb (PlayerProp.player p) player
      then PlayerProp.mk (PlayerProp.player p) (PlayerProp.team p)
             (PlayerProp.statType p) (PlayerProp.line p)
             (PlayerProp.bookmakers p ++ [e]) :: props'
      else p :: pushBookmaker player e props'
  end.

Definition isOver (o : Outcome.t) : bool := String.eqb (Outcome.name o) "Over".

(** [overOutcome?.point || 0]. *)
Definition lineOf (sorted : list Outcome.t) : Z :=
  Js.or_zero (option_map Outcome.point (find isOver sorted)).

(** One turn of [playerOutcomes.forEach]. *)
Definition addPlayer (gameData : GameOdds.t) (bookmaker : Bookmaker.t)
    (props : list PlayerProp.t) (kv : string * list Outcome.t)
    : list PlayerProp.t :=
  let player := fst kv in
  let outcomes := Js.sort byPoint (snd kv) in
  let existingProp :=
    find (fun p => String.eqb (PlayerProp.player p) player) props in
  match existingProp with
  | Some _ => pushBookmaker player (entry bookmaker outcomes) props
  | None =>
      props ++ [PlayerProp.mk player (GameOdds.home_team gameData) statType
                  (lineOf outcomes) [entry bookmaker outcomes]]
  end.

(** One turn of [gameData.bookmakers.forEach]. *)
Definition addBookmaker (gameData : GameOdds.t) (props : list PlayerProp.t)
    (bookmaker : Bookmaker.t) : list PlayerProp.t :=
  match allOutcomes bookmaker with
  | None => props
  | Some [] => props
  | Some outcomes =>
      fold_left (addPlayer gameData bookmaker) (groupByPlayer outcomes) props
  end.

Definition playerProps (gameData : option GameOdds.t) : list PlayerProp.t :=
  match gameData with
  | None => []
  | Some g => fold_left (addBookmaker g) (GameOdds.bookmakers g) []
  end.

(** *** Search and sort ([filteredProps]) *)

(** The market key of the two-argument calls [getMarketApiKey(sport, s)]. *)
Definition marketKeyOf (s : string) : string := getMarketApiKey sport s None.

Definition matchesQuery (query : string) (prop : PlayerProp.t) : bool :=
  Js.includes (toLowerCase (PlayerProp.player prop)) query
  || (Js.truthy (PlayerProp.team prop)
      && Js.includes (toLowerCase (PlayerProp.team prop)) query).

Definition byName (a b : PlayerProp.t) : Z :=
  localeCompare (PlayerProp.player a) (PlayerProp.player b).

(** [findBestOdds(p, marketKey, "Over")?.odds || 0]. *)
Definition bestOverOdds (p : PlayerProp.t) : Z :=
  Js.or_zero
    (option_map BestOdds.odds (findBestOdds p (marketKeyOf statType) "Over")).

Definition byBestOdds (a b : PlayerProp.t) : Z :=
  bestOverOdds b - bestOverOdds a.

Definition filteredProps (props : list PlayerProp.t) (searchQuery : string)
    (sortBy : SortBy) : list PlayerProp.t :=
  let filtered :=
    if Js.truthy searchQuery
    then filter (matchesQuery (toLowerCase searchQuery)) props
    else props in
  match sortBy with
  | SortByName => Js.sort byName filtered
  | SortByBestOdds => Js.sort byBestOdds filtered
  end.

(** *** Best price per line ([renderTableView]) *)

(** [allLines.add(x)] on a [Set] kept in insertion order. *)
Definition addLine (allLines : list Z) (x : Z) : list Z :=
  if existsb (Z.eqb x) allLines then allLines else allLines ++ [x].

Definition allLines (prop : PlayerProp.t) : list Z :=
  fold_left
    (fun lines bookmaker =>
       match findMarket (marketKeyOf (PlayerProp.statType prop))
               (Bookmaker.markets bookmaker) with
       | Some market =>
           fold_left addLine
             (List.map Outcome.point (Market.outcomes market)) lines
       | None => lines
       end)
    (PlayerProp.bookmakers prop) [].

Definition sortedLines (prop : PlayerProp.t) : list Z :=
  Js.sort Z.sub (allLines prop).

(** [o.name === side && o.point === line]. *)
Definition atLine (side : string) (line : Z) (o : Outcome.t) : bool :=
  String.eqb (Outcome.name o) side && (Outcome.point o =? line).

(** One turn of the inner [prop.bookmakers.forEach]. *)
Definition bestStep (marketKey : string) (line : Z) (best : BestPerLine.t)
    (bookmaker : Bookmaker.t) : BestPerLine.t :=
  match findMarket marketKey (Bookmaker.markets bookmaker) with
  | Some market =>
      let over := find (atLine "Over" line) (Market.outcomes market) in
      let under := find (atLine "Under" line) (Market.outcomes market) in
      BestPerLine.mk
        match over with
        | Some o => Js.max (BestPerLine.over best) (Outcome.price o)
        | None => BestPerLine.over best
        end
        match under with
        | Some o => Js.max (BestPerLine.under best) (Outcome.price o)
        | None => BestPerLine.under best
        end
  | None => best
  end.

Definition bestForLine (prop : PlayerProp.t) (line : Z) : BestPerLine.t :=
  fold_left (bestStep (marketKeyOf (PlayerProp.statType prop)) line)
    (PlayerProp.bookmakers prop)
    (BestPerLine.mk Js.NegInfinity Js.NegInfinity).

Definition bestOddsPerLine (prop : PlayerProp.t) : list (Z * BestPerLine.t) :=
  List.map (fun line => (line, bestForLine prop line)) (sortedLines prop).

(** *** Stat types, navigation and highlights *)

(** [s.startsWith(p)]. *)
Definition startsWith (s p : string) : bool := String.prefix p s.

(** The [statTypes] memo. *)
Definition statTypes (playerType : PlayerType) : list MarketOption.t :=
  let markets := getMarketsForSport sport in
  if String.eqb sport "baseball_mlb"
  then filter
         (fun market =>
            let apiKey := Js.toLowerCase (MarketOption.apiKey market) in
            match playerType with
            | Pitcher => startsWith apiKey "pitcher_"
            | Batter => startsWith apiKey "batter_"
            end)
         markets
  else markets.

(** The [currentMarket] memo, for a stat type [st]. *)
Definition currentMarket (st : string) : option MarketOption.t :=
  find (fun m => String.eqb (MarketOption.value m) st)
    (getMarketsForSport sport).

(** [currentMarket?.hasAlternates || false]. *)
Definition hasAlternateLines (st : string) : bool :=
  match currentMarket st with
  | Some m => MarketOption.hasAlternates m
  | None => false
  end.

(** The effect that follows [playerType]: the stat type it leaves in the
    state, [st] being the one before. *)
Definition updateStatType (playerType : PlayerType) (st : string) : string :=
  if String.eqb sport "baseball_mlb"
  then match find (fun market => String.eqb (MarketOption.value market) st)
               (statTypes playerType) with
       | Some _ => st
       | None =>
           match statTypes playerType with
           | first :: _ => MarketOption.value first
           | [] => st
           end
       end
  else st.

(** [nextPlayer], on the index and the list shown. *)
Definition nextPlayer (shown : list PlayerProp.t) (activePlayerIndex : Z)
    : Z :=
  if activePlayerIndex <? Z.of_nat (List.length shown) - 1
  then activePlayerIndex + 1
  else activePlayerIndex.

(** [prevPlayer]. *)
Definition prevPlayer (activePlayerIndex : Z) : Z :=
  if 0 <? activePlayerIndex then activePlayerIndex - 1
  else activePlayerIndex.

(** [filteredProps[activePlayerIndex]], [None] for [undefined]. *)
Definition currentPlayer (shown : list PlayerProp.t) (activePlayerIndex : Z)
    : option PlayerProp.t :=
  if activePlayerIndex <? 0 then None
  else nth_error shown (Z.to_nat activePlayerIndex).

(** [bestOddsPerLine.get(line)]. *)
Definition bestOddsAt (prop : PlayerProp.t) (line : Z)
    : option BestPerLine.t :=
  option_map snd
    (find (fun kv => fst kv =? line) (bestOddsPerLine prop)).

(** [a === b] on numbers that may be [-Infinity]. *)
Definition sameNum (a b : Js.Num) : bool :=
  match a, b with
  | Js.NegInfinity, Js.NegInfinity => true
  | Js.Fin x, Js.Fin y => x =? y
  | _, _ => false
  end.

(** The outcome a cell of the table shows: [bookmakerMarket?.outcomes.find]
    for the bookmaker id of the column. *)
Definition cellOutcome (prop : PlayerProp.t) (bookmaker side : string)
    (line : Z) : option Outcome.t :=
  let bookmakerData :=
    find (fun b => String.eqb (Bookmaker.key b) bookmaker)
      (PlayerProp.bookmakers prop) in
  match bookmakerData with
  | Some data =>
      match findMarket (marketKeyOf (PlayerProp.statType prop))
              (Bookmaker.markets data) with
      | Some bookmakerMarket =>
          find (atLine side line) (Market.outcomes bookmakerMarket)
      | None => None
      end
  | None => None
  end.

(** [overOutcome && bestOdds && overOutcome.price === bestOdds.over], read
    for its truth. *)
Definition isOverBest (prop : PlayerProp.t) (bookmaker : string) (line : Z)
    : bool :=
  match cellOutcome prop bookmaker "Over" line, bestOddsAt prop line with
  | Some o, Some bestOdds =>
      sameNum (Js.Fin (Outcome.price o)) (BestPerLine.over bestOdds)
  | _, _ => false
  end.

(** [underOutcome && bestOdds && underOutcome.price === bestOdds.under]. *)
Definition isUnderBest (prop : PlayerProp.t) (bookmaker : string) (line : Z)
    : bool :=
  match cellOutcome prop bookmaker "Under" line, bestOddsAt prop line with
  | Some o, Some bestOdds =>
      sameNum (Js.Fin (Outcome.price o)) (BestPerLine.under bestOdds)
  | _, _ => false
  end.

(** The first occurrences of a list, in order. *)
Definition firsts (l : list string) : list string :=
  fold_left
    (fun seen x => if existsb (String.eqb x) seen then seen else seen ++ [x])
    l [].

(** *** Vocabulary of the statements *)

(** The identity of an outcome for deduplication. *)
Definition triple (o : Outcome.t) : string * Z * option string :=
  (Outcome.name o, Outcome.point o, Outcome.description o).

Definition NoDupTriple (l : list Outcome.t) : Prop := NoDup (List.map triple l).

Definition SortedByPoint (l : list Outcome.t) : Prop :=
  Sorted (fun a b => Outcome.point a <= Outcome.point b) l.

(** The outcomes of the selected standard and alternate market of a
    bookmaker. *)
Definition selectedOutcomes (bookmaker : Bookmaker.t) : list Outcome.t :=
  match allOutcomes bookmaker with
  | Some l => l
  | None => []
  end.

(** The player an outcome is attributed to: its [description], unless that is
    missing ([undefined] or empty, which is what [!outcome.description]
    tests). *)
Definition attributed (o : Outcome.t) : option string :=
  match Outcome.description o with
  | Some d => if Js.truthy d then Some d else None
  | None => None
  end.

Definition playersOf (l : list Outcome.t) : list string :=
  flat_map (fun o => match attributed o with Some d => [d] | None => [] end) l.

(** Every attributable [description] of the payload, with repetitions. *)
Definition descriptions (g : GameOdds.t) : list string :=
  flat_map (fun b => playersOf (selectedOutcomes b)) (GameOdds.bookmakers g).

(** The bookmaker has data for the player. *)
Definition hasPlayer (player : string) (bookmaker : Bookmaker.t) : bool :=
  existsb (String.eqb player) (playersOf (selectedOutcomes bookmaker)).

(** The outcomes of a prop: every market of every attached bookmaker. *)
Definition outcomesOfProp (prop : PlayerProp.t) : list Outcome.t :=
  flat_map (fun b => flat_map Market.outcomes (Bookmaker.markets b))
    (PlayerProp.bookmakers prop).

(** The prices on offer for a side at a line, over all attached
    bookmakers. *)
Definition pricesAt (prop : PlayerProp.t) (side : string) (line : Z)
    : list Z :=
  List.map Outcome.price (filter (atLine side line) (outcomesOfProp prop)).

(** The greatest element of a list, [-Infinity] for the empty list. *)
Definition maximum (l : list Z) : Js.Num :=
  fold_left Js.max l Js.NegInfinity.

(** Both texts lowered by the host, then [includes]. *)
Definition ciIncludes (query s : string) : bool :=
  Js.includes (toLowerCase s) (toLowerCase query).




(** The initial value of the [sortBy] state. *)
Definition defaultSortBy : SortBy := SortByName.

(** What the regrouping keeps true of [playerOutcomes] while it runs over the
    outcomes [l] of a bookmaker. *)
Definition GroupOk (l : list Outcome.t) (m : Js.Map (list Outcome.t))
    : Prop :=
  NoDup (Js.keys m)
  /\ (forall k, In k (Js.keys m) <-> In k (playersOf l))
  /\ (forall k os, In (k, os) m ->
        NoDupTriple os
        /\ (forall o, In o os -> In o l /\ attributed o = Some k)
        /\ (forall o, In o l -> attributed o = Some k ->
              In (triple o) (List.map triple os))).

(** One turn of the two nested loops of [playerProps]: a bookmaker with one
    entry of its [playerOutcomes] map. *)
Definition Turn : Type := (Bookmaker.t * (string * list Outcome.t))%type.

Definition turnsOf (bookmaker : Bookmaker.t) : list Turn :=
  List.map (pair bookmaker) (groupByPlayer (selectedOutcomes bookmaker)).

Definition turns (g : GameOdds.t) : list Turn :=
  flat_map turnsOf (GameOdds.bookmakers g).

Definition turnPlayer (t : Turn) : string := fst (snd t).

Definition turnEntry (t : Turn) : Bookmaker.t :=
  entry (fst t) (Js.sort byPoint (snd (snd t))).

Definition ofPlayer (player : string) (t : Turn) : bool :=
  String.eqb (turnPlayer t) player.

Definition step (g : GameOdds.t) (props : list PlayerProp.t) (t : Turn)
    : list PlayerProp.t :=
  addPlayer g (fst t) props (snd t).

(** What holds of a prop once the turns [ts] are done. *)
Definition PropOk (g : GameOdds.t) (ts : list Turn) (p : PlayerProp.t)
    : Prop :=
  PlayerProp.team p = GameOdds.home_team g
  /\ PlayerProp.statType p = statType
  /\ PlayerProp.bookmakers p
     = List.map turnEntry (filter (ofPlayer (PlayerProp.player p)) ts)
  /\ exists t rest,
       filter (ofPlayer (PlayerProp.player p)) ts = t :: rest
       /\ PlayerProp.line p = lineOf (Js.sort byPoint (snd (snd t))).

Definition PropsOk (g : GameOdds.t) (ts : list Turn)
    (props : list PlayerProp.t) : Prop :=
  NoDup (List.map PlayerProp.player props)
  /\ (forall t, In t ts ->
        In (turnPlayer t) (List.map PlayerProp.player props))
  /\ (forall p, In p props -> PropOk g ts p).

(** [best] is the greatest of the prices [l], or [-Infinity] when there is
    none. *)
Definition IsMaximum (best : Js.Num) (l : list Z) : Prop :=
  (forall x, In x l -> Js.le (Js.Fin x) best)
  /\ ((l = [] /\ best = Js.NegInfinity)
      \/ exists x, In x l /\ best = Js.Fin x).

(** What the response holds for a bookmaker: the two markets asked for. *)
Definition AskedFor (b : Bookmaker.t) : Prop :=
  forall m, In m (Bookmaker.markets b) ->
    Market.key m = standardMarketKey \/ Market.key m = alternateMarketKey.

(** The payload, read without the component's own functions.

    [m] is the first market of [ms] under the key [k]: the one
    [ms.find(m => m.key === k)] answers. *)
Definition FirstUnder (k : string) (ms : list Market.t) (m : Market.t)
    : Prop :=
  exists before after,
    ms = before ++ m :: after
    /\ Market.key m = k
    /\ forall m', In m' before -> Market.key m' <> k.

(** The bookmaker offers the outcome for the stat type: it is an outcome of
    its first market under the standard key or of its first market under
    the alternate key. *)
Definition Offers (b : Bookmaker.t) (o : Outcome.t) : Prop :=
  exists m,
    (FirstUnder standardMarketKey (Bookmaker.markets b) m
     \/ FirstUnder alternateMarketKey (Bookmaker.markets b) m)
    /\ In o (Market.outcomes m).

(** The outcome names the player [d]: its [description] is there and is not
    empty. *)
Definition Names (o : Outcome.t) (d : string) : Prop :=
  Outcome.description o = Some d /\ d <> "".

(** The bookmaker has data for the player [d]. *)
Definition HasData (d : string) (b : Bookmaker.t) : Prop :=
  exists o, Offers b o /\ Names o d.

(** Some bookmaker of the payload has data for the player [d]. *)
Definition Named (g : GameOdds.t) (d : string) : Prop :=
  exists b, In b (GameOdds.bookmakers g) /\ HasData d b.

(** [l'] is [l] with the elements that are not [P] left out. *)
Inductive Kept {A : Type} (P : A -> Prop) : list A -> list A -> Prop :=
| Kept_nil : Kept P [] []
| Kept_keep x l l' : P x -> Kept P l l' -> Kept P (x :: l) (x :: l')
| Kept_skip x l l' : ~ P x -> Kept P l l' -> Kept P (x :: l) l'.

(** What an entry of a prop takes over from its bookmaker. *)
Definition ident (b : Bookmaker.t) : string * string * string :=
  (Bookmaker.key b, Bookmaker.title b, Bookmaker.last_update b).

(** The text [k] holds [sub] somewhere, which is what [k.includes(sub)]
    tests. *)
Definition Holds (sub k : string) : Prop :=
  exists pre post, k = String.append pre (String.append sub post).

(** [k'] is [k] without its first ["_alternate"], and [k] itself when [k]
    holds none. *)
Definition WithoutAlternate (k k' : string) : Prop :=
  (~ Holds "_alternate" k /\ k' = k)
  \/ exists pre post,
       k = String.append pre (String.append "_alternate" post)
       /\ k' = String.append pre post
       /\ forall pre' post',
            k = String.append pre' (String.append "_alternate" post') ->
            (String.length pre <= String.length pre')%nat.

(** A market of the response is an alternate market when its key holds
    ["alternate"], a standard market otherwise. *)
Definition Alternate (m : Market.t) : Prop := Holds "alternate" (Market.key m).

(** [am] answers to the standard market [sm]: it is an alternate market
    whose key without its first ["_alternate"] is the key of [sm]. *)
Definition AnswersTo (sm am : Market.t) : Prop :=
  Alternate am /\ WithoutAlternate (Market.key am) (Market.key sm).

(** [am] is the first market of [ms] that answers to [sm]. *)
Definition FirstAnswer (ms : list Market.t) (sm am : Market.t) : Prop :=
  exists before after,
    ms = before ++ am :: after
    /\ AnswersTo sm am
    /\ forall x, In x before -> ~ AnswersTo sm x.

(** [merged] is [standard] with the outcomes of [alternate] taken in: in
    ascending order of [point], the standard outcomes and, once each, the
    alternate outcomes whose triple no standard outcome has, so that every
    alternate outcome has its triple in the list. *)
Definition MergeOf (standard alternate merged : list Outcome.t) : Prop :=
  SortedByPoint merged
  /\ exists added,
       Permutation merged (standard ++ added)
       /\ incl added alternate
       /\ (forall o, In o added ->
             ~ In (triple o) (List.map triple standard))
       /\ NoDupTriple added
       /\ (forall a, In a alternate ->
             In (triple a) (List.map triple merged)).

(** [cm] is what the standard market [sm] becomes among the markets [ms]:
    itself where no market answers to it, and otherwise the market of its
    key with the outcomes of the first answer taken in. *)
Definition CombinedFrom (ms : list Market.t) (sm cm : Market.t) : Prop :=
  Market.key cm = Market.key sm
  /\ (((forall x, In x ms -> ~ AnswersTo sm x) /\ cm = sm)
      \/ exists am,
           FirstAnswer ms sm am
           /\ MergeOf (Market.outcomes sm) (Market.outcomes am)
                (Market.outcomes cm)).

(** The promotion as the specification words it: a market whose key ends in
    ["_alternate"] comes out under the key without that suffix, with its
    outcomes. *)
Definition PromotedBySuffix (book : Bookmaker.t) : Prop :=
  forall am base,
    In am (Bookmaker.markets book) ->
    Market.key am = String.append base "_alternate" ->
    In (Market.mk base (Market.outcomes am))
       (Bookmaker.markets (combineMarkets book)).

(** The merge as the specification words it: every outcome of an alternate
    market has its triple in the combined market of the standard market its
    key answers to. *)
Definition EveryAlternateMerged (book : Bookmaker.t) : Prop :=
  forall sm am o,
    In sm (Bookmaker.markets book) -> ~ Alternate sm ->
    In am (Bookmaker.markets book) ->
    Market.key am = String.append (Market.key sm) "_alternate" ->
    In o (Market.outcomes am) ->
    exists cm,
      In cm (Bookmaker.markets (combineMarkets book))
      /\ Market.key cm = Market.key sm
      /\ In (triple o) (List.map triple (Market.outcomes cm)).

(** ** Facts about the built-ins *)

Section SortFacts.
Context {A : Type}.
Variable cmp : A -> A -> Z.

Lemma insert_perm (x : A) (l : list A) :
  Permutation (Js.insert cmp x l) (x :: l).
Proof.
  induction l as [|y l IH]; simpl.
  - apply Permutation_refl.
  - destruct (cmp x y <=? 0).
    + apply Permutation_refl.
    + eapply perm_trans; [apply perm_skip, IH | apply perm_swap].
Qed.

Lemma sort_perm (l : list A) : Permutation (Js.sort cmp l) l.
Proof.
  induction l as [|x l IH]; simpl.
  - apply perm_nil.
  - eapply perm_trans; [apply insert_perm | apply perm_skip, IH].
Qed.

Lemma sort_In (l : list A) (x : A) : In x (Js.sort cmp l) <-> In x l.
Proof.
  split; apply Permutation_in;
    [apply sort_perm | apply Permutation_sym, sort_perm].
Qed.

Lemma sort_length (l : list A) : List.length (Js.sort cmp l) = List.length l.
Proof. apply Permutation_length, sort_perm. Qed.

(** A comparator is total when one of two elements is always before or equal
    to the other. *)
Hypothesis cmp_total : forall a b, cmp a b <= 0 \/ cmp b a <= 0.

Lemma insert_sorted (x : A) (l : list A) :
  Sorted (fun a b => cmp a b <= 0) l ->
  Sorted (fun a b => cmp a b <= 0) (Js.insert cmp x l).
Proof using cmp_total.
  induction 1 as [|y l Hs IH Hd]; simpl.
  - repeat constructor.
  - destruct (Z.leb_spec (cmp x y) 0) as [Hle|Hgt].
    + repeat constructor; assumption.
    + constructor; [exact IH|].
      destruct Hd as [|z l Hyz]; simpl.
      * constructor. destruct (cmp_total y x); [assumption|lia].
      * destruct (cmp x z <=? 0); constructor;
          [destruct (cmp_total y x); [assumption|lia] | assumption].
Qed.

Lemma sort_sorted (l : list A) :
  Sorted (fun a b => cmp a b <= 0) (Js.sort cmp l).
Proof using cmp_total.
  induction l as [|x l IH]; simpl.
  - constructor.
  - apply insert_sorted, IH.
Qed.

End SortFacts.

Lemma Sorted_weaken {A : Type} (R S : A -> A -> Prop) (l : list A) :
  (forall a b, R a b -> S a b) -> Sorted R l -> Sorted S l.
Proof.
  intros HRS. induction 1 as [|x l Hs IH Hd]; constructor.
  - exact IH.
  - destruct Hd; constructor; auto.
Qed.

Lemma StronglySorted_weaken {A : Type} (R S : A -> A -> Prop) (l : list A) :
  (forall a b, R a b -> S a b) -> StronglySorted R l -> StronglySorted S l.
Proof.
  intros HRS. induction 1 as [|x l Hs IH Hall]; constructor.
  - exact IH.
  - rewrite Forall_forall in *. auto.
Qed.

(** Sorting on a numeric key, ascending: the comparator is a difference of
    keys. *)
Lemma sort_by_key {A : Type} (f : A -> Z) (cmp : A -> A -> Z) (l : list A) :
  (forall a b, cmp a b = f a - f b) ->
  StronglySorted (fun a b => f a <= f b) (Js.sort cmp l).
Proof.
  intros Hcmp. apply Sorted_StronglySorted.
  - intros a b c; lia.
  - apply Sorted_weaken with (R := fun a b => cmp a b <= 0).
    + intros a b; rewrite Hcmp; lia.
    + apply sort_sorted. intros a b; rewrite !Hcmp; lia.
Qed.

Lemma prefix_iff (sub s : string) :
  String.prefix sub s = true <-> exists post, s = String.append sub post.
Proof.
  revert s. induction sub as [|a sub IH]; intros s; simpl.
  - destruct s; simpl; split; eauto.
  - destruct s as [|b s]; simpl.
    + split; [discriminate | intros [post H]; discriminate].
    + destruct (ascii_dec a b) as [->|Hne].
      * rewrite IH. split; intros [post H]; exists post.
        -- now rewrite H.
        -- now injection H.
      * split; [discriminate | intros [post H]; injection H; congruence].
Qed.

Lemma includes_iff (s sub : string) :
  Js.includes s sub = true <->
  exists pre post, s = String.append pre (String.append sub post).
Proof.
  induction s as [|c s IH]; cbn [Js.includes].
  - rewrite orb_false_r, prefix_iff. split.
    + intros [post H]. exists EmptyString, post. exact H.
    + intros [pre [post H]]. destruct pre; simpl in H; [eauto | discriminate].
  - rewrite orb_true_iff, prefix_iff, IH. split.
    + intros [[post H] | [pre [post H]]].
      * exists EmptyString, post. exact H.
      * exists (String c pre), post. simpl. now rewrite H.
    + intros [pre [post H]]. destruct pre as [|c' pre]; simpl in H.
      * left. eauto.
      * right. injection H as _ H. eauto.
Qed.

Lemma includes_empty (s : string) : Js.includes s "" = true.
Proof. destruct s; reflexivity. Qed.

Lemma toLowerCase_empty (s : string) :
  Js.toLowerCase s = "" <-> s = "".
Proof. destruct s; simpl; split; congruence. Qed.

Lemma truthy_false (s : string) : Js.truthy s = false <-> s = "".
Proof.
  unfold Js.truthy. rewrite negb_false_iff. apply String.eqb_eq.
Qed.

Lemma truthy_true (s : string) : Js.truthy s = true <-> s <> "".
Proof.
  unfold Js.truthy. rewrite negb_true_iff. apply String.eqb_neq.
Qed.

Lemma append_empty_r (s : string) : String.append s "" = s.
Proof. induction s; simpl; congruence. Qed.

Lemma prefix_cons (a b : ascii) (s1 s2 : string) :
  String.prefix (String a s1) (String b s2)
  = (Ascii.eqb a b && String.prefix s1 s2)%bool.
Proof.
  cbn [String.prefix]. destruct (ascii_dec a b) as [->|Hne].
  - now rewrite Ascii.eqb_refl.
  - apply Ascii.eqb_neq in Hne. now rewrite Hne.
Qed.

(** ["_alternate"] does not overlap itself: where it starts a text that ends
    with it, either the text is the pattern or the pattern is already in
    front. *)
Lemma alternate_no_border (x : string) :
  String.prefix "_alternate" (String.append x "_alternate") = true ->
  x = "" \/ String.prefix "_alternate" x = true.
Proof.
  intros H.
  destruct x as [|c x]; [now left|right].
  cbn [String.append] in H. rewrite prefix_cons in *.
  apply andb_true_iff in H. destruct H as [Hc H]. rewrite Hc. cbn [andb].
  clear Hc.
  do 9 (destruct x as [|? x]; [vm_compute in H; discriminate|];
        cbn [String.append] in H; rewrite prefix_cons in *;
        apply andb_true_iff in H; destruct H as [Hc H]; rewrite Hc;
        cbn [andb]; clear Hc).
  destruct x; reflexivity.
Qed.

Lemma replace_alternate_suffix (base : string) :
  Js.includes base "_alternate" = false ->
  Js.replace (String.append base "_alternate") "_alternate" "" = base.
Proof.
  induction base as [|c base IH]; intros Hno.
  - reflexivity.
  - cbn [Js.includes] in Hno. apply orb_false_iff in Hno.
    destruct Hno as [Hp Hrest].
    cbn [String.append Js.replace].
    destruct (String.prefix "_alternate"
                (String c (String.append base "_alternate"))) eqn:E.
    + apply (alternate_no_border (String c base)) in E.
      destruct E as [E|E]; [discriminate | congruence].
    + now rewrite IH.
Qed.

(** What [replace] does for the pattern ["_alternate"] and the empty
    replacement: the first occurrence goes, and a text without one stays. *)
Lemma Holds_includes (sub k : string) :
  Holds sub k <-> Js.includes k sub = true.
Proof. unfold Holds. symmetry. apply includes_iff. Qed.

Lemma drop_append (pat post : string) :
  Js.drop (String.length pat) (String.append pat post) = post.
Proof. induction pat as [|c pat IH]; [reflexivity | exact IH]. Qed.

Lemma replace_head (k pat : string) :
  String.prefix pat k = true ->
  Js.replace k pat "" = Js.drop (String.length pat) k.
Proof.
  intros H. destruct k; cbn [Js.replace]; rewrite H; reflexivity.
Qed.

Lemma replace_tail (c : ascii) (k pat : string) :
  String.prefix pat (String c k) = false ->
  Js.replace (String c k) pat "" = String c (Js.replace k pat "").
Proof. intros H. cbn [Js.replace]. now rewrite H. Qed.

Lemma replace_absent (k pat : string) :
  Js.includes k pat = false -> Js.replace k pat "" = k.
Proof.
  induction k as [|c k IH]; cbn [Js.includes]; intros H;
    apply orb_false_iff in H; destruct H as [Hp Hk].
  - cbn [Js.replace]. now rewrite Hp.
  - rewrite (replace_tail _ _ _ Hp). now rewrite IH.
Qed.

Lemma replace_first (pat pre post : string) :
  (forall pre' post',
     String.append pre (String.append pat post)
     = String.append pre' (String.append pat post') ->
     (String.length pre <= String.length pre')%nat) ->
  Js.replace (String.append pre (String.append pat post)) pat ""
  = String.append pre post.
Proof.
  induction pre as [|c pre IH]; intros Hmin.
  - cbn [String.append]. rewrite replace_head.
    + apply drop_append.
    + apply prefix_iff. now exists post.
  - cbn [String.append].
    rewrite replace_tail.
    + f_equal. apply IH. intros pre' post' E.
      specialize (Hmin (String c pre') post'). cbn [String.append] in Hmin.
      rewrite E in Hmin. specialize (Hmin eq_refl). simpl in Hmin. lia.
    + apply not_true_is_false. intros Hp. apply prefix_iff in Hp.
      destruct Hp as [post' E].
      specialize (Hmin "" post'). cbn [String.append] in Hmin.
      specialize (Hmin E). simpl in Hmin. lia.
Qed.

Lemma replace_WithoutAlternate (k : string) :
  WithoutAlternate k (Js.replace k "_alternate" "").
Proof.
  induction k as [|c k IH].
  - left. split; [|reflexivity]. rewrite Holds_includes. discriminate.
  - destruct (String.prefix "_alternate" (String c k)) eqn:Hp.
    + right. rewrite (replace_head _ _ Hp).
      apply prefix_iff in Hp. destruct Hp as [post E].
      exists "", post. rewrite E. rewrite drop_append.
      repeat split. intros; simpl; lia.
    + rewrite (replace_tail _ _ _ Hp).
      destruct IH as [[Hno E]|(pre & post & Ek & Er & Hmin)].
      * left. split; [|now rewrite E].
        rewrite Holds_includes in *. cbn [Js.includes]. rewrite Hp.
        cbn [orb]. exact Hno.
      * right. exists (String c pre), post. cbn [String.append].
        rewrite Er. split; [now rewrite Ek at 1|]. split; [reflexivity|].
        intros pre' post' E. destruct pre' as [|c' pre'].
        -- exfalso. cbn [String.append] in E.
           assert (H : String.prefix "_alternate" (String c k) = true).
           { apply prefix_iff. now exists post'. }
           congruence.
        -- cbn [String.append] in E. injection E as _ E.
           specialize (Hmin pre' post' E). simpl. lia.
Qed.

Lemma WithoutAlternate_replace (k k' : string) :
  WithoutAlternate k k' <-> k' = Js.replace k "_alternate" "".
Proof.
  split.
  - intros [[Hno ->]|(pre & post & -> & -> & Hmin)].
    + symmetry. apply replace_absent. apply not_true_is_false.
      intros Hc. apply Hno. now apply Holds_includes.
    + symmetry. now apply replace_first.
  - intros ->. apply replace_WithoutAlternate.
Qed.

(** ** Facts about the merge of markets *)

Lemma sameDescription_eq (a b : option string) :
  sameDescription a b = true <-> a = b.
Proof.
  destruct a as [x|], b as [y|]; simpl; try (split; congruence).
  rewrite String.eqb_eq. split; congruence.
Qed.

Lemma sameOutcome_triple (o a : Outcome.t) :
  sameOutcome o a = true <-> triple o = triple a.
Proof.
  unfold sameOutcome, triple.
  rewrite !andb_true_iff, String.eqb_eq, Z.eqb_eq, sameDescription_eq.
  split.
  - intros [[-> ->] ->]. reflexivity.
  - intros H. injection H as -> -> ->. auto.
Qed.

Lemma isDuplicate_iff (l : list Outcome.t) (a : Outcome.t) :
  existsb (fun o => sameOutcome o a) l = true
  <-> In (triple a) (List.map triple l).
Proof.
  rewrite existsb_exists, in_map_iff.
  split; intros [o [H1 H2]]; exists o.
  - apply sameOutcome_triple in H2. auto.
  - split; [assumption | now apply sameOutcome_triple].
Qed.

(** What the [forEach] over the alternate outcomes leaves in [allOutcomes]:
    the standard outcomes, then the alternate ones whose triple was not there
    yet, each once. *)
Lemma pushIfNew_fold (alternate standard : list Outcome.t) :
  exists added,
    fold_left pushIfNew alternate standard = standard ++ added
    /\ incl added alternate
    /\ (forall o, In o added -> ~ In (triple o) (List.map triple standard))
    /\ NoDupTriple added
    /\ (forall a, In a alternate ->
          In (triple a) (List.map triple (standard ++ added))).
Proof.
  revert standard.
  induction alternate as [|a alternate IH]; intros standard.
  - exists []. cbn [fold_left]. rewrite app_nil_r.
    repeat split; try easy. constructor.
  - cbn [fold_left]. unfold pushIfNew at 2.
    destruct (existsb (fun o => sameOutcome o a) standard) eqn:E.
    + destruct (IH standard) as (added & Heq & Hin & Hnew & Hnd & Hall).
      exists added. repeat split; auto.
      * intros o Ho. right. auto.
      * intros a' [<-|Ha']; [|auto].
        apply isDuplicate_iff in E. rewrite map_app, in_app_iff. auto.
    + destruct (IH (standard ++ [a]))
        as (added & Heq & Hin & Hnew & Hnd & Hall).
      assert (Hfresh : ~ In (triple a) (List.map triple standard)).
      { intros Hc. apply isDuplicate_iff in Hc. congruence. }
      exists (a :: added). repeat split.
      * rewrite Heq, <- app_assoc. reflexivity.
      * intros o [<-|Ho]; [now left | right; auto].
      * intros o [<-|Ho]; [assumption|].
        intros Hc. apply (Hnew o Ho). rewrite map_app, in_app_iff. auto.
      * unfold NoDupTriple. cbn [List.map]. constructor; [|exact Hnd].
        intros Hc. apply in_map_iff in Hc. destruct Hc as [o [Ht Ho]].
        apply (Hnew o Ho). rewrite Ht, map_app, in_app_iff.
        right. now left.
      * intros a' Ha'.
        replace (standard ++ a :: added) with ((standard ++ [a]) ++ added)
          by (rewrite <- app_assoc; reflexivity).
        destruct Ha' as [<-|Ha']; [|auto].
        rewrite !map_app, !in_app_iff. left. right. now left.
Qed.

Lemma sort_byPoint_sorted (l : list Outcome.t) :
  SortedByPoint (Js.sort byPoint l).
Proof.
  apply StronglySorted_Sorted.
  apply (sort_by_key Outcome.point). reflexivity.
Qed.

Lemma sort_NoDupTriple (l : list Outcome.t) :
  NoDupTriple l -> NoDupTriple (Js.sort byPoint l).
Proof.
  unfold NoDupTriple. apply Permutation_NoDup, Permutation_map.
  apply Permutation_sym, sort_perm.
Qed.

Lemma mergeOutcomes_spec (standard alternate : list Outcome.t) :
  exists added,
    Permutation (mergeOutcomes standard alternate) (standard ++ added)
    /\ incl added alternate
    /\ (forall o, In o added -> ~ In (triple o) (List.map triple standard))
    /\ NoDupTriple added
    /\ (forall a, In a alternate ->
          In (triple a)
             (List.map triple (mergeOutcomes standard alternate))).
Proof.
  destruct (pushIfNew_fold alternate standard)
    as (added & Heq & Hin & Hnew & Hnd & Hall).
  exists added. unfold mergeOutcomes. rewrite Heq.
  repeat split; auto.
  - apply sort_perm.
  - intros a Ha.
    apply (Permutation_in (l := List.map triple (standard ++ added))).
    + apply Permutation_map, Permutation_sym, sort_perm.
    + auto.
Qed.

Lemma mergeOutcomes_NoDupTriple (standard alternate : list Outcome.t) :
  NoDupTriple standard -> NoDupTriple (mergeOutcomes standard alternate).
Proof.
  intros Hs.
  destruct (pushIfNew_fold alternate standard)
    as (added & Heq & Hin & Hnew & Hnd & Hall).
  unfold mergeOutcomes. rewrite Heq. apply sort_NoDupTriple.
  unfold NoDupTriple. rewrite map_app. apply NoDup_app; auto.
  intros t Ht Hc. apply in_map_iff in Hc. destruct Hc as [o [<- Ho]].
  exact (Hnew o Ho Ht).
Qed.

Lemma alternateMarkets_In (book : Bookmaker.t) (m : Market.t) :
  In m (alternateMarkets book)
  <-> In m (Bookmaker.markets book) /\ isAlternate m = true.
Proof. apply filter_In. Qed.

Lemma standardMarkets_In (book : Bookmaker.t) (m : Market.t) :
  In m (standardMarkets book)
  <-> In m (Bookmaker.markets book) /\ isAlternate m = false.
Proof.
  unfold standardMarkets. rewrite filter_In, negb_true_iff. reflexivity.
Qed.

(** The guard of the promotion branch. *)
Lemma promotion_guard (book : Bookmaker.t) :
  (Nat.eqb (List.length (standardMarkets book)) 0
   && Nat.ltb 0 (List.length (alternateMarkets book)))%bool = true
  <-> standardMarkets book = [] /\ alternateMarkets book <> [].
Proof.
  rewrite andb_true_iff, Nat.eqb_eq, Nat.ltb_lt.
  destruct (standardMarkets book), (alternateMarkets book); simpl;
    split; intros [H1 H2]; split; try easy; try lia.
Qed.

Lemma findAlternate_some (alternates : list Market.t) (sm am : Market.t) :
  findAlternate alternates sm = Some am ->
  In am alternates /\ standardKeyOf am = Market.key sm.
Proof.
  intros H. apply find_some in H. now rewrite String.eqb_eq in H.
Qed.

Lemma find_skip {A : Type} (f : A -> bool) (l1 l2 : list A) (a : A) :
  f a = false -> find f (l1 ++ a :: l2) = find f (l1 ++ l2).
Proof.
  intros Ha. induction l1 as [|x l1 IH]; simpl.
  - now rewrite Ha.
  - now rewrite IH.
Qed.

Lemma find_first {A : Type} (f : A -> bool) (l : list A) (x : A) :
  find f l = Some x
  <-> exists before after,
        l = before ++ x :: after /\ f x = true
        /\ forall y, In y before -> f y = false.
Proof.
  induction l as [|a l IH]; cbn [find].
  - split; [discriminate|].
    intros (before & after & E & _). now destruct before.
  - destruct (f a) eqn:Fa.
    + split.
      * intros H. injection H as <-. exists [], l.
        repeat split; [assumption | intros y []].
      * intros (before & after & E & Fx & Hb).
        destruct before as [|y before]; cbn [app] in E.
        -- now injection E as ->.
        -- injection E as <- _.
           rewrite (Hb a (or_introl eq_refl)) in Fa. discriminate.
    + rewrite IH. split.
      * intros (before & after & -> & Fx & Hb).
        exists (a :: before), after. repeat split; [assumption|].
        intros y [<-|Hy]; [assumption | now apply Hb].
      * intros (before & after & E & Fx & Hb).
        destruct before as [|y before]; cbn [app] in E.
        -- injection E as -> _. congruence.
        -- injection E as _ ->. exists before, after.
           repeat split; [assumption|].
           intros z Hz. apply Hb. now right.
Qed.

Lemma find_filter {A : Type} (f g : A -> bool) (l : list A) :
  find f (filter g l) = find (fun x => g x && f x)%bool l.
Proof.
  induction l as [|x l IH]; cbn [filter find]; [reflexivity|].
  destruct (g x); cbn [find andb]; [now rewrite IH | exact IH].
Qed.

Lemma Forall2_map_of {A B : Type} (R : A -> B -> Prop) (f : A -> B)
    (l : list A) :
  (forall x, In x l -> R x (f x)) -> Forall2 R l (List.map f l).
Proof.
  induction l as [|x l IH]; cbn [List.map]; intros H; constructor.
  - apply H. now left.
  - apply IH. intros y Hy. apply H. now right.
Qed.

Lemma Kept_filter {A : Type} (P : A -> Prop) (f : A -> bool) (l : list A) :
  (forall x, f x = true <-> P x) -> Kept P l (filter f l).
Proof.
  intros Hf. induction l as [|x l IH]; cbn [filter]; [constructor|].
  destruct (f x) eqn:E.
  - apply Kept_keep; [now apply Hf | exact IH].
  - apply Kept_skip; [|exact IH].
    intros Hc. apply Hf in Hc. congruence.
Qed.

(** ** Facts about the regrouping by player *)

Lemma get_none {V : Type} (m : Js.Map V) (k : string) :
  Js.get m k = None <-> ~ In k (Js.keys m).
Proof.
  induction m as [|[k' v] m IH]; simpl.
  - params_tauto.
  - destruct (String.eqb_spec k' k) as [->|Hne].
    + split; [discriminate | intros H; exfalso; auto].
    + rewrite IH. params_tauto.
Qed.

Lemma get_some {V : Type} (m : Js.Map V) (k : string) (v : V) :
  NoDup (Js.keys m) -> (Js.get m k = Some v <-> In (k, v) m).
Proof.
  induction m as [|[k' v'] m IH]; simpl; intros Hnd.
  - split; [discriminate | params_tauto].
  - inversion Hnd as [|? ? Hnotin Hnd']; subst.
    destruct (String.eqb_spec k' k) as [->|Hne].
    + split.
      * intros H; injection H as ->. now left.
      * intros [H|H]; [congruence|].
        exfalso. apply Hnotin. apply in_map_iff. now exists (k, v).
    + rewrite (IH Hnd'). split; [params_tauto | intros [H|H]; [congruence|auto]].
Qed.

Lemma keys_set {V : Type} (m : Js.Map V) (k : string) (v : V) :
  Js.keys (Js.set m k v)
  = if existsb (String.eqb k) (Js.keys m) then Js.keys m
    else Js.keys m ++ [k].
Proof.
  unfold Js.keys. induction m as [|[k' v'] m IH]; simpl.
  - reflexivity.
  - rewrite (String.eqb_sym k k').
    destruct (String.eqb_spec k' k) as [->|Hne]; simpl.
    + reflexivity.
    + rewrite IH.
      now destruct (existsb (String.eqb k) (List.map fst m)).
Qed.

Lemma existsb_eqb (k : string) (l : list string) :
  existsb (String.eqb k) l = true <-> In k l.
Proof.
  rewrite existsb_exists. split.
  - intros [x [Hx Hk]]. apply String.eqb_eq in Hk. now subst.
  - intros H. exists k. split; [assumption | apply String.eqb_refl].
Qed.

Lemma keys_set_In {V : Type} (m : Js.Map V) (k k' : string) (v : V) :
  In k' (Js.keys (Js.set m k v)) <-> k' = k \/ In k' (Js.keys m).
Proof.
  rewrite keys_set.
  destruct (existsb (String.eqb k) (Js.keys m)) eqn:E.
  - apply existsb_eqb in E. split; [auto | intros [->|H]; auto].
  - rewrite in_app_iff. simpl. split; intros H; [destruct H as [H|[H|[]]]; auto | destruct H as [H|H]; auto].
Qed.

Lemma keys_set_NoDup {V : Type} (m : Js.Map V) (k : string) (v : V) :
  NoDup (Js.keys m) -> NoDup (Js.keys (Js.set m k v)).
Proof.
  intros Hnd. rewrite keys_set.
  destruct (existsb (String.eqb k) (Js.keys m)) eqn:E; [assumption|].
  apply NoDup_app; [assumption | repeat constructor; easy |].
  intros a Ha [<-|[]]. apply existsb_eqb in Ha. congruence.
Qed.

Lemma set_In {V : Type} (m : Js.Map V) (k k' : string) (v v' : V) :
  NoDup (Js.keys m) ->
  (In (k', v') (Js.set m k v)
   <-> (k' = k /\ v' = v) \/ (k' <> k /\ In (k', v') m)).
Proof.
  induction m as [|[k0 v0] m IH]; simpl; intros Hnd.
  - split.
    + intros [H|[]]. injection H as <- <-. auto.
    + intros [[-> ->]|[_ []]]. now left.
  - inversion Hnd as [|? ? Hnotin Hnd']; subst.
    destruct (String.eqb_spec k0 k) as [->|Hne]; simpl.
    + split.
      * intros [H|H]; [injection H as <- <-; auto|].
        right. split; [|auto]. intros ->. apply Hnotin.
        apply in_map_iff. now exists (k, v').
      * intros [[-> ->]|[Hk [H|H]]]; [now left | congruence | now right].
    + rewrite (IH Hnd'). split.
      * intros [H|[[-> ->]|[Hk H]]]; [|now left|auto].
        injection H as <- <-. right. split; [congruence|now left].
      * intros [[-> ->]|[Hk [H|H]]]; auto.
Qed.

Lemma playersOf_app (l l' : list Outcome.t) :
  playersOf (l ++ l') = playersOf l ++ playersOf l'.
Proof. apply flat_map_app. Qed.

Lemma playersOf_In (l : list Outcome.t) (d : string) :
  In d (playersOf l) <-> exists o, In o l /\ attributed o = Some d.
Proof.
  unfold playersOf. rewrite in_flat_map.
  split; intros [o [Ho H]]; exists o; split; auto.
  - destruct (attributed o); simpl in H; [|params_tauto].
    destruct H as [->|[]]. reflexivity.
  - rewrite H. now left.
Qed.

Lemma attributed_truthy (o : Outcome.t) (d : string) :
  attributed o = Some d -> Outcome.description o = Some d /\ d <> "".
Proof.
  unfold attributed. destruct (Outcome.description o) as [d'|]; [|discriminate].
  destruct (Js.truthy d') eqn:E; [|discriminate].
  intros H; injection H as ->. split; [reflexivity|].
  now apply truthy_true.
Qed.

Lemma groupOutcome_skip (m : Js.Map (list Outcome.t)) (o : Outcome.t) :
  attributed o = None -> groupOutcome m o = m.
Proof.
  unfold attributed, groupOutcome.
  destruct (Outcome.description o) as [d|]; [|reflexivity].
  destruct (Js.truthy d); [discriminate | reflexivity].
Qed.

Lemma groupOutcome_keep (m : Js.Map (list Outcome.t)) (o : Outcome.t)
    (d : string) :
  attributed o = Some d ->
  groupOutcome m o
  = let outcomes :=
      match Js.get m d with Some os => os | None => [] end in
    Js.set m d
      (if existsb (fun o' => sameOutcome o' o) outcomes then outcomes
       else outcomes ++ [o]).
Proof.
  unfold attributed, groupOutcome.
  destruct (Outcome.description o) as [d'|]; [|discriminate].
  destruct (Js.truthy d'); [|discriminate].
  intros H; injection H as ->. reflexivity.
Qed.

Lemma groupOutcome_ok (l : list Outcome.t) (m : Js.Map (list Outcome.t))
    (o : Outcome.t) :
  GroupOk l m -> GroupOk (l ++ [o]) (groupOutcome m o).
Proof.
  intros (Hnd & Hkeys & Hgroups).
  destruct (attributed o) as [d|] eqn:Ho.
  - rewrite (groupOutcome_keep m o d Ho). cbv zeta.
    set (os0 := match Js.get m d with Some os => os | None => [] end).
    assert (H0 : NoDupTriple os0
                 /\ (forall o', In o' os0 -> In o' l /\ attributed o' = Some d)
                 /\ (forall o', In o' l -> attributed o' = Some d ->
                       In (triple o') (List.map triple os0))).
    { unfold os0. destruct (Js.get m d) as [os|] eqn:G.
      - apply get_some in G; [|assumption]. exact (Hgroups d os G).
      - apply get_none in G. repeat split.
        + constructor.
        + destruct H.
        + destruct H.
        + intros o' Ho' Hd. exfalso. apply G. apply Hkeys.
          apply playersOf_In. eauto. }
    destruct H0 as (Hnd0 & Hin0 & Hall0).
    set (os' := if existsb (fun o' => sameOutcome o' o) os0 then os0
                else os0 ++ [o]).
    assert (H' : NoDupTriple os'
                 /\ (forall o', In o' os' ->
                       In o' (l ++ [o]) /\ attributed o' = Some d)
                 /\ (forall o', In o' (l ++ [o]) -> attributed o' = Some d ->
                       In (triple o') (List.map triple os'))).
    { unfold os'.
      destruct (existsb (fun o' => sameOutcome o' o) os0) eqn:E.
      - repeat split; auto.
        + rewrite in_app_iff. left. now apply Hin0.
        + now apply Hin0.
        + intros o' Ho' Hd. apply in_app_iff in Ho'.
          destruct Ho' as [Ho'|[<-|[]]]; [auto|].
          now apply isDuplicate_iff.
      - repeat split.
        + unfold NoDupTriple. rewrite map_app.
          apply NoDup_app; [exact Hnd0 | repeat constructor; easy |].
          intros t Ht [<-|[]]. apply isDuplicate_iff in Ht. congruence.
        + apply in_app_iff in H. rewrite in_app_iff.
          destruct H as [H|[<-|[]]]; [left; now apply Hin0 | right; now left].
        + apply in_app_iff in H.
          destruct H as [H|[<-|[]]]; [now apply Hin0 | assumption].
        + intros o' Ho' Hd. rewrite map_app, in_app_iff.
          apply in_app_iff in Ho'.
          destruct Ho' as [Ho'|[<-|[]]]; [left; auto | right; now left]. }
    split; [now apply keys_set_NoDup|]. split.
    + intros k. rewrite keys_set_In, playersOf_app, in_app_iff, Hkeys.
      split.
      * intros [->|H]; [right|now left].
        apply playersOf_In. exists o. split; [now left | assumption].
      * intros [H|H]; [now right | left].
        apply playersOf_In in H. destruct H as [o' [[<-|[]] Hd]]. congruence.
    + intros k os H. apply set_In in H; [|assumption].
      destruct H as [[-> ->]|[Hne H]]; [exact H'|].
      destruct (Hgroups k os H) as (A & B & C).
      split; [exact A|]. split.
      * intros o' Ho'. rewrite in_app_iff. destruct (B o' Ho'). auto.
      * intros o' Ho' Hd. apply in_app_iff in Ho'.
        destruct Ho' as [Ho'|[<-|[]]]; [auto | congruence].
  - rewrite (groupOutcome_skip m o Ho).
    assert (Hp : playersOf (l ++ [o]) = playersOf l).
    { rewrite playersOf_app. unfold playersOf at 2. simpl. rewrite Ho.
      simpl. apply app_nil_r. }
    split; [assumption|]. split.
    + intros k. rewrite Hp. apply Hkeys.
    + intros k os H. destruct (Hgroups k os H) as (A & B & C).
      split; [exact A|]. split.
      * intros o' Ho'. rewrite in_app_iff. destruct (B o' Ho'). auto.
      * intros o' Ho' Hd. apply in_app_iff in Ho'.
        destruct Ho' as [Ho'|[<-|[]]]; [auto | congruence].
Qed.

Lemma groupByPlayer_ok (l : list Outcome.t) : GroupOk l (groupByPlayer l).
Proof.
  unfold groupByPlayer.
  induction l as [|o l IH] using rev_ind.
  - split; [constructor|]. split; [reflexivity|]. intros k os [].
  - rewrite fold_left_app. cbn [fold_left]. now apply groupOutcome_ok.
Qed.

(** ** Facts about the construction of the props *)

Lemma fold_left_over_map {A B C : Type} (f : A -> C -> A) (h : B -> C)
    (l : list B) (a : A) :
  fold_left f (List.map h l) a = fold_left (fun a x => f a (h x)) l a.
Proof.
  revert a. induction l as [|x l IH]; intros a; simpl; [reflexivity|].
  apply IH.
Qed.

Lemma addBookmaker_turns (g : GameOdds.t) (props : list PlayerProp.t)
    (b : Bookmaker.t) :
  addBookmaker g props b = fold_left (step g) (turnsOf b) props.
Proof.
  unfold addBookmaker, turnsOf, selectedOutcomes.
  destruct (allOutcomes b) as [[|o l]|]; try reflexivity.
  rewrite fold_left_over_map. reflexivity.
Qed.

Lemma playerProps_turns (g : GameOdds.t) :
  playerProps (Some g) = fold_left (step g) (turns g) [].
Proof.
  unfold playerProps, turns. generalize (@nil PlayerProp.t).
  induction (GameOdds.bookmakers g) as [|b bs IH]; intros props; simpl.
  - reflexivity.
  - rewrite fold_left_app, IH, addBookmaker_turns. reflexivity.
Qed.

Lemma pushBookmaker_players (player : string) (e : Bookmaker.t)
    (props : list PlayerProp.t) :
  List.map PlayerProp.player (pushBookmaker player e props)
  = List.map PlayerProp.player props.
Proof.
  induction props as [|p props IH]; simpl; [reflexivity|].
  destruct (String.eqb (PlayerProp.player p) player); simpl; congruence.
Qed.

Lemma pushBookmaker_In (player : string) (e : Bookmaker.t)
    (props : list PlayerProp.t) (p' : PlayerProp.t) :
  NoDup (List.map PlayerProp.player props) ->
  In p' (pushBookmaker player e props) ->
  (In p' props /\ PlayerProp.player p' <> player)
  \/ (exists p, In p props /\ PlayerProp.player p = player
        /\ p' = PlayerProp.mk (PlayerProp.player p) (PlayerProp.team p)
                  (PlayerProp.statType p) (PlayerProp.line p)
                  (PlayerProp.bookmakers p ++ [e])).
Proof.
  induction props as [|p props IH]; simpl; intros Hnd H; [destruct H|].
  inversion Hnd as [|? ? Hnotin Hnd']; subst.
  destruct (String.eqb_spec (PlayerProp.player p) player) as [Heq|Hne].
  - destruct H as [<-|H].
    + right. exists p. auto.
    + left. split; [auto|]. intros Hc. apply Hnotin.
      apply in_map_iff. exists p'. split; [congruence | assumption].
  - destruct H as [<-|H].
    + left. auto.
    + destruct (IH Hnd' H) as [[? ?]|[q [? [? ?]]]]; [left; auto|].
      right. exists q. auto.
Qed.

Lemma filter_ofPlayer_last (player : string) (ts : list Turn) (t : Turn) :
  filter (ofPlayer player) (ts ++ [t])
  = filter (ofPlayer player) ts
    ++ (if String.eqb (turnPlayer t) player then [t] else []).
Proof. rewrite filter_app. reflexivity. Qed.

Lemma step_ok (g : GameOdds.t) (ts : list Turn) (props : list PlayerProp.t)
    (t : Turn) :
  PropsOk g ts props -> PropsOk g (ts ++ [t]) (step g props t).
Proof.
  intros (Hnd & Hts & Hps).
  unfold step, addPlayer.
  destruct (find (fun p => String.eqb (PlayerProp.player p) (fst (snd t)))
              props) as [q|] eqn:F.
  - (* the player has a prop already *)
    apply find_some in F. destruct F as [Hq Hqk].
    apply String.eqb_eq in Hqk.
    split; [now rewrite pushBookmaker_players|]. split.
    + intros t' Ht'. rewrite pushBookmaker_players.
      apply in_app_iff in Ht'. destruct Ht' as [Ht'|[<-|[]]]; [auto|].
      apply in_map_iff. exists q. auto.
    + intros p' Hp'. apply pushBookmaker_In in Hp'; [|assumption].
      destruct Hp' as [[Hp' Hne]|[p [Hp [Hk ->]]]].
      * destruct (Hps p' Hp') as (Ht & Hs & Hb & t0 & rest & Hf & Hl).
        assert (E : String.eqb (turnPlayer t) (PlayerProp.player p') = false).
        { apply String.eqb_neq. unfold turnPlayer. congruence. }
        unfold PropOk. rewrite filter_ofPlayer_last, E, app_nil_r.
        repeat split; auto. exists t0, rest. auto.
      * destruct (Hps p Hp) as (Ht & Hs & Hb & t0 & rest & Hf & Hl).
        assert (E : String.eqb (turnPlayer t) (PlayerProp.player p) = true).
        { apply String.eqb_eq. unfold turnPlayer. congruence. }
        unfold PropOk. cbn [PlayerProp.player PlayerProp.team
          PlayerProp.statType PlayerProp.line PlayerProp.bookmakers].
        rewrite filter_ofPlayer_last, E, map_app, <- Hb.
        repeat split; auto. exists t0, (rest ++ [t]).
        rewrite Hf. auto.
  - (* a new player *)
    assert (Hnew : ~ In (fst (snd t)) (List.map PlayerProp.player props)).
    { intros Hc. apply in_map_iff in Hc. destruct Hc as [p [Hk Hp]].
      apply (find_none _ _ F) in Hp. apply String.eqb_neq in Hp. auto. }
    assert (Hnone : filter (ofPlayer (fst (snd t))) ts = []).
    { destruct (filter (ofPlayer (fst (snd t))) ts) as [|t0 l] eqn:E;
        [reflexivity|].
      assert (H0 : In t0 (filter (ofPlayer (fst (snd t))) ts))
        by (rewrite E; now left).
      apply filter_In in H0. destruct H0 as [H0 H1].
      apply String.eqb_eq in H1. exfalso. apply Hnew.
      rewrite <- H1. now apply Hts. }
    split; [|split].
    + rewrite map_app. cbn [List.map PlayerProp.player].
      apply NoDup_app; [assumption | repeat constructor; easy |].
      intros a Ha [<-|[]]. auto.
    + intros t' Ht'. rewrite map_app, in_app_iff.
      apply in_app_iff in Ht'. destruct Ht' as [Ht'|[<-|[]]]; [auto|].
      right. now left.
    + intros p' Hp'. apply in_app_iff in Hp'.
      destruct Hp' as [Hp'|[<-|[]]].
      * destruct (Hps p' Hp') as (Ht & Hs & Hb & t0 & rest & Hf & Hl).
        assert (E : String.eqb (turnPlayer t) (PlayerProp.player p') = false).
        { apply String.eqb_neq. intros Hc. apply Hnew.
          apply in_map_iff. exists p'. unfold turnPlayer in Hc. auto. }
        unfold PropOk. rewrite filter_ofPlayer_last, E, app_nil_r.
        repeat split; auto. exists t0, rest. auto.
      * unfold PropOk. cbn [PlayerProp.player PlayerProp.team
          PlayerProp.statType PlayerProp.line PlayerProp.bookmakers].
        rewrite filter_ofPlayer_last, Hnone. unfold turnPlayer.
        rewrite String.eqb_refl. cbn [app List.map].
        repeat split; auto. exists t, []. auto.
Qed.

Lemma fold_step_ok (g : GameOdds.t) (ts : list Turn) :
  PropsOk g ts (fold_left (step g) ts []).
Proof.
  induction ts as [|t ts IH] using rev_ind.
  - split; [constructor|]. split; intros ? [].
  - rewrite fold_left_app. cbn [fold_left]. now apply step_ok.
Qed.

Lemma playerProps_ok (g : GameOdds.t) :
  PropsOk g (turns g) (playerProps (Some g)).
Proof. rewrite playerProps_turns. apply fold_step_ok. Qed.

Lemma turns_In (g : GameOdds.t) (t : Turn) :
  In t (turns g)
  <-> In (fst t) (GameOdds.bookmakers g)
      /\ In (snd t) (groupByPlayer (selectedOutcomes (fst t))).
Proof.
  unfold turns, turnsOf. rewrite in_flat_map. split.
  - intros [b [Hb Ht]]. apply in_map_iff in Ht.
    destruct Ht as [kv [<- Hkv]]. auto.
  - intros [Hb Hkv]. exists (fst t). split; [assumption|].
    apply in_map_iff. exists (snd t). split; [now destruct t | assumption].
Qed.

(** Every bookmaker entry of a prop comes from one bookmaker of the payload
    and holds the sorted group of the prop's player there. *)
Lemma prop_entry (g : GameOdds.t) (p : PlayerProp.t) (e : Bookmaker.t) :
  In p (playerProps (Some g)) -> In e (PlayerProp.bookmakers p) ->
  exists b os,
    In b (GameOdds.bookmakers g)
    /\ In (PlayerProp.player p, os) (groupByPlayer (selectedOutcomes b))
    /\ e = entry b (Js.sort byPoint os).
Proof.
  intros Hp He.
  destruct (playerProps_ok g) as (_ & _ & Hps).
  destruct (Hps p Hp) as (_ & _ & Hb & _).
  rewrite Hb in He. apply in_map_iff in He. destruct He as [t [<- Ht]].
  apply filter_In in Ht. destruct Ht as [Ht Hk].
  apply String.eqb_eq in Hk. apply turns_In in Ht.
  destruct t as [b [k os]]. unfold turnPlayer in Hk. simpl in *. subst k.
  exists b, os. repeat split; params_tauto.
Qed.

(** The outcome lists of a prop, one by one. *)
Lemma prop_market (g : GameOdds.t) (p : PlayerProp.t) (e : Bookmaker.t)
    (m : Market.t) :
  In p (playerProps (Some g)) -> In e (PlayerProp.bookmakers p) ->
  In m (Bookmaker.markets e) ->
  exists b os,
    In b (GameOdds.bookmakers g)
    /\ In (PlayerProp.player p, os) (groupByPlayer (selectedOutcomes b))
    /\ e = entry b (Js.sort byPoint os)
    /\ m = Market.mk standardMarketKey (Js.sort byPoint os).
Proof.
  intros Hp He Hm.
  destruct (prop_entry g p e Hp He) as (b & os & Hb & Hos & ->).
  destruct Hm as [<-|[]]. exists b, os. auto.
Qed.

Lemma group_facts (l : list Outcome.t) (k : string) (os : list Outcome.t) :
  In (k, os) (groupByPlayer l) ->
  NoDupTriple os
  /\ (forall o, In o os -> In o l /\ attributed o = Some k)
  /\ (forall o, In o l -> attributed o = Some k ->
        In (triple o) (List.map triple os)).
Proof.
  intros H. destruct (groupByPlayer_ok l) as (_ & _ & Hg). now apply Hg.
Qed.

Lemma filter_all {A : Type} (f : A -> bool) (l : list A) :
  filter (fun x => negb (f x)) l = [] -> filter f l = l.
Proof.
  induction l as [|x l IH]; simpl; [reflexivity|].
  destruct (f x); simpl; [intros H; now rewrite IH | discriminate].
Qed.

Lemma combineMarkets_promote (book : Bookmaker.t) :
  standardMarkets book = [] -> alternateMarkets book <> [] ->
  Bookmaker.markets (combineMarkets book)
  = List.map promote (Bookmaker.markets book).
Proof.
  intros Hs Ha. unfold combineMarkets.
  rewrite (proj2 (promotion_guard book) (conj Hs Ha)).
  cbn [Bookmaker.markets]. unfold alternateMarkets.
  now rewrite (filter_all _ _ Hs).
Qed.

Lemma combineMarkets_merge (book : Bookmaker.t) :
  ~ (standardMarkets book = [] /\ alternateMarkets book <> []) ->
  Bookmaker.markets (combineMarkets book)
  = List.map (mergeMarket (alternateMarkets book)) (standardMarkets book).
Proof.
  intros Hn. unfold combineMarkets.
  destruct (Nat.eqb (List.length (standardMarkets book)) 0
            && Nat.ltb 0 (List.length (alternateMarkets book)))%bool eqn:E.
  - apply promotion_guard in E. contradiction.
  - reflexivity.
Qed.

(** Every market of the combined bookmaker is a promoted market or the merge
    of a standard one. *)
Lemma combineMarkets_In (book : Bookmaker.t) (m : Market.t) :
  In m (Bookmaker.markets (combineMarkets book)) ->
  (exists am, In am (Bookmaker.markets book) /\ m = promote am)
  \/ (exists sm, In sm (standardMarkets book)
        /\ m = mergeMarket (alternateMarkets book) sm).
Proof.
  unfold combineMarkets.
  destruct (Nat.eqb (List.length (standardMarkets book)) 0
            && Nat.ltb 0 (List.length (alternateMarkets book)))%bool;
    cbn [Bookmaker.markets]; rewrite in_map_iff; intros [x [<- Hx]].
  - left. exists x. apply alternateMarkets_In in Hx. params_tauto.
  - right. exists x. auto.
Qed.

Lemma combineMarkets_source (book : Bookmaker.t) (m : Market.t)
    (o : Outcome.t) :
  In m (Bookmaker.markets (combineMarkets book)) ->
  In o (Market.outcomes m) ->
  exists src, In src (Bookmaker.markets book) /\ In o (Market.outcomes src).
Proof.
  intros Hm Ho. destruct (combineMarkets_In book m Hm)
    as [[am [Ham ->]]|[sm [Hsm ->]]].
  - exists am. auto.
  - unfold mergeMarket in Ho.
    destruct (findAlternate (alternateMarkets book) sm) as [am|] eqn:F.
    + cbn [Market.outcomes] in Ho.
      destruct (mergeOutcomes_spec (Market.outcomes sm) (Market.outcomes am))
        as (added & Hperm & Hincl & _).
      apply (Permutation_in _ Hperm) in Ho. apply in_app_iff in Ho.
      destruct Ho as [Ho|Ho].
      * exists sm. apply standardMarkets_In in Hsm. params_tauto.
      * exists am. apply findAlternate_some in F.
        destruct F as [F _]. apply alternateMarkets_In in F.
        split; [params_tauto | auto].
    + exists sm. apply standardMarkets_In in Hsm. params_tauto.
Qed.

(** ** Properties of the combined markets and of the props *)

(** C1.  No outcome list carries two outcomes with the same
    [(name, point, description)]: neither a market of a bookmaker after the
    standard and alternate markets were combined, provided no market of the
    response had such a pair, nor the outcome list attached to a player's
    prop for a bookmaker. *)
Theorem no_duplicate_triples (book : Bookmaker.t)
    (gameData : option GameOdds.t) :
  (forall m, In m (Bookmaker.markets book) ->
     NoDupTriple (Market.outcomes m)) ->
  (forall m, In m (Bookmaker.markets (combineMarkets book)) ->
     NoDupTriple (Market.outcomes m))
  /\ (forall p e m,
        In p (playerProps gameData) -> In e (PlayerProp.bookmakers p) ->
        In m (Bookmaker.markets e) -> NoDupTriple (Market.outcomes m)).
Proof.
  intros Hin. split.
  - intros m Hm. destruct (combineMarkets_In book m Hm)
      as [[am [Ham ->]]|[sm [Hsm ->]]].
    + exact (Hin am Ham).
    + apply standardMarkets_In in Hsm. destruct Hsm as [Hsm _].
      unfold mergeMarket.
      destruct (findAlternate (alternateMarkets book) sm); [|now apply Hin].
      apply mergeOutcomes_NoDupTriple. now apply Hin.
  - intros p e m Hp He Hm. destruct gameData as [g|]; [|destruct Hp].
    destruct (prop_market g p e m Hp He Hm) as (b & os & _ & Hos & _ & ->).
    apply sort_NoDupTriple. now apply (group_facts _ _ _ Hos).
Qed.

(** C2.  Merged outcome lists are in ascending order of [point]: the list
    of a standard market that found its alternate market at fetch time, and
    the outcome list attached to a player's prop for a bookmaker. *)
Theorem merged_lists_sorted (book : Bookmaker.t)
    (gameData : option GameOdds.t) :
  (forall sm am,
     In sm (standardMarkets book) ->
     findAlternate (alternateMarkets book) sm = Some am ->
     In (mergeMarket (alternateMarkets book) sm)
        (Bookmaker.markets (combineMarkets book))
     /\ SortedByPoint
          (Market.outcomes (mergeMarket (alternateMarkets book) sm)))
  /\ (forall p e m,
        In p (playerProps gameData) -> In e (PlayerProp.bookmakers p) ->
        In m (Bookmaker.markets e) -> SortedByPoint (Market.outcomes m)).
Proof.
  split.
  - intros sm am Hsm F. split.
    + rewrite combineMarkets_merge.
      * now apply in_map.
      * intros [Hs _]. rewrite Hs in Hsm. destruct Hsm.
    + unfold mergeMarket. rewrite F. apply sort_byPoint_sorted.
  - intros p e m Hp He Hm. destruct gameData as [g|]; [|destruct Hp].
    destruct (prop_market g p e m Hp He Hm) as (b & os & _ & _ & _ & ->).
    apply sort_byPoint_sorted.
Qed.

Lemma isAlternate_Alternate (m : Market.t) :
  isAlternate m = true <-> Alternate m.
Proof. unfold isAlternate, Alternate. symmetry. apply Holds_includes. Qed.

Lemma answers_iff (sm x : Market.t) :
  (isAlternate x && String.eqb (standardKeyOf x) (Market.key sm))%bool = true
  <-> AnswersTo sm x.
Proof.
  unfold AnswersTo. rewrite andb_true_iff, isAlternate_Alternate,
    String.eqb_eq, WithoutAlternate_replace.
  unfold standardKeyOf. split; intros [H1 H2]; split; congruence.
Qed.

Lemma mergeMarket_CombinedFrom (book : Bookmaker.t) (sm : Market.t) :
  CombinedFrom (Bookmaker.markets book) sm
    (mergeMarket (alternateMarkets book) sm).
Proof.
  unfold CombinedFrom, mergeMarket, findAlternate, alternateMarkets.
  rewrite find_filter.
  destruct (find
              (fun x =>
                 (isAlternate x
                  && String.eqb (standardKeyOf x) (Market.key sm))%bool)
              (Bookmaker.markets book)) as [am|] eqn:F.
  - split; [reflexivity|]. right. exists am. split.
    + apply find_first in F. destruct F as (before & after & E & Ham & Hb).
      exists before, after. split; [exact E|].
      split; [now apply answers_iff|].
      intros x Hx Hc. apply answers_iff in Hc.
      rewrite (Hb x Hx) in Hc. discriminate.
    + cbn [Market.outcomes]. split; [apply sort_byPoint_sorted|].
      apply mergeOutcomes_spec.
  - split; [reflexivity|]. left. split; [|reflexivity].
    intros x Hx Hc. apply answers_iff in Hc.
    rewrite (find_none _ _ F x Hx) in Hc. discriminate.
Qed.

(** C6.  The two cases of the combination of a bookmaker's markets, read
    off the markets of the response.  Where every market is an alternate
    market and there is one, the markets come out one for one, in order,
    each with its outcomes and with its key less the first ["_alternate"];
    a key that is a text without ["_alternate"] followed by ["_alternate"]
    comes out as that text.  Otherwise the markets that come out are the
    standard markets, one for one, in order, each under its key: a standard
    market that no alternate market answers to is unchanged, and any other
    has taken in the outcomes of the first alternate market that answers
    to it, so that its list is in ascending order of [point], keeps the
    standard outcomes, adds alternate outcomes only, none whose triple a
    standard outcome has, none twice, and has the triple of every outcome
    of that alternate market. *)
Theorem combine_markets_cases (book : Bookmaker.t) :
  ((forall m, In m (Bookmaker.markets book) -> Alternate m) ->
   Bookmaker.markets book <> [] ->
   Forall2
     (fun am pm =>
        Market.outcomes pm = Market.outcomes am
        /\ WithoutAlternate (Market.key am) (Market.key pm))
     (Bookmaker.markets book) (Bookmaker.markets (combineMarkets book))
   /\ forall am base,
        In am (Bookmaker.markets book) ->
        Market.key am = String.append base "_alternate" ->
        ~ Holds "_alternate" base ->
        In (Market.mk base (Market.outcomes am))
           (Bookmaker.markets (combineMarkets book)))
  /\ ((exists m, In m (Bookmaker.markets book) /\ ~ Alternate m)
      \/ Bookmaker.markets book = [] ->
      exists standards,
        Kept (fun m => ~ Alternate m) (Bookmaker.markets book) standards
        /\ Forall2 (CombinedFrom (Bookmaker.markets book)) standards
             (Bookmaker.markets (combineMarkets book))).
Proof.
  split.
  - intros Hall Hne.
    assert (Hs : standardMarkets book = []).
    { unfold standardMarkets.
      destruct (filter (fun m => negb (isAlternate m))
                  (Bookmaker.markets book)) as [|m l] eqn:E; [reflexivity|].
      assert (Hm : In m (filter (fun m => negb (isAlternate m))
                           (Bookmaker.markets book)))
        by (rewrite E; now left).
      apply filter_In in Hm. destruct Hm as [Hm Hstd].
      apply Hall, isAlternate_Alternate in Hm. rewrite Hm in Hstd.
      discriminate. }
    assert (Ha : alternateMarkets book <> []).
    { unfold alternateMarkets. now rewrite (filter_all _ _ Hs). }
    rewrite (combineMarkets_promote book Hs Ha). split.
    + apply Forall2_map_of. intros am _. split; [reflexivity|].
      cbn [promote Market.key]. apply replace_WithoutAlternate.
    + intros am base Ham Hkey Hbase. apply in_map_iff. exists am.
      split; [|exact Ham]. unfold promote, standardKeyOf. f_equal.
      rewrite Hkey. apply replace_alternate_suffix.
      apply not_true_is_false. intros Hc. apply Hbase.
      now apply Holds_includes.
  - intros Hcase.
    assert (Hn : ~ (standardMarkets book = [] /\ alternateMarkets book <> [])).
    { intros [Hs Ha]. destruct Hcase as [[m [Hm Hstd]]|Hnil].
      - assert (H : In m (standardMarkets book)).
        { apply standardMarkets_In. split; [exact Hm|].
          apply not_true_is_false. intros Hc. apply Hstd.
          now apply isAlternate_Alternate. }
        rewrite Hs in H. destruct H.
      - apply Ha. unfold alternateMarkets. now rewrite Hnil. }
    rewrite (combineMarkets_merge book Hn).
    exists (standardMarkets book). split.
    + apply Kept_filter. intros m. rewrite negb_true_iff.
      rewrite <- isAlternate_Alternate.
      destruct (isAlternate m); split; congruence.
    + apply Forall2_map_of. intros sm _. apply mergeMarket_CombinedFrom.
Qed.

(** C10.  An alternate market that matches no standard market of a
    bookmaker with at least one standard market is dropped: the combined
    bookmaker is the one obtained without that market, and every outcome of
    its markets is an outcome of one of the other markets. *)
Theorem unmatched_alternate_discarded (k t u : string)
    (before after : list Market.t) (am : Market.t) :
  isAlternate am = true ->
  (exists sm, In sm (before ++ after) /\ isAlternate sm = false) ->
  (forall sm, In sm (before ++ after) -> isAlternate sm = false ->
     standardKeyOf am <> Market.key sm) ->
  combineMarkets (Bookmaker.mk k t u (before ++ am :: after))
  = combineMarkets (Bookmaker.mk k t u (before ++ after))
  /\ forall m o,
       In m (Bookmaker.markets
               (combineMarkets (Bookmaker.mk k t u (before ++ am :: after)))) ->
       In o (Market.outcomes m) ->
       exists src, In src (before ++ after) /\ In o (Market.outcomes src).
Proof.
  intros Halt [sm0 [Hsm0 Hstd0]] Hunmatched.
  assert (Heq : combineMarkets (Bookmaker.mk k t u (before ++ am :: after))
                = combineMarkets (Bookmaker.mk k t u (before ++ after))).
  { unfold combineMarkets, standardMarkets, alternateMarkets.
    cbn [Bookmaker.markets Bookmaker.key Bookmaker.title
         Bookmaker.last_update].
    rewrite !filter_app. cbn [filter]. rewrite Halt. cbn [negb].
    rewrite <- !filter_app.
    assert (Hne : filter (fun m => negb (isAlternate m)) (before ++ after)
                  <> []).
    { intros Hc.
      assert (H : In sm0 (filter (fun m => negb (isAlternate m))
                            (before ++ after))).
      { apply filter_In. split; [assumption | now rewrite Hstd0]. }
      rewrite Hc in H. destruct H. }
    destruct (filter (fun m => negb (isAlternate m)) (before ++ after))
      as [|s0 ss] eqn:Es; [congruence|].
    cbn [List.length Nat.eqb andb]. f_equal.
    rewrite <- Es. apply map_ext_in. intros sm Hsm.
    apply filter_In in Hsm. destruct Hsm as [Hsm Hstd].
    apply negb_true_iff in Hstd.
    unfold mergeMarket, findAlternate. rewrite filter_app.
    rewrite find_skip; [reflexivity|].
    apply String.eqb_neq. now apply Hunmatched. }
  split; [exact Heq|].
  intros m o Hm Ho. rewrite Heq in Hm.
  exact (combineMarkets_source _ m o Hm Ho).
Qed.

Lemma filter_group {V : Type} (m : Js.Map V) (k : string) :
  NoDup (Js.keys m) ->
  filter (fun kv => String.eqb (fst kv) k) m
  = match Js.get m k with
    | Some v => [(k, v)]
    | None => []
    end.
Proof.
  induction m as [|[k0 v0] m IH]; simpl; intros Hnd; [reflexivity|].
  inversion Hnd as [|? ? Hnotin Hnd']; subst.
  destruct (String.eqb_spec k0 k) as [->|Hne].
  - rewrite (IH Hnd'), (proj2 (get_none m k) Hnotin). reflexivity.
  - exact (IH Hnd').
Qed.

Lemma hasPlayer_iff (k : string) (b : Bookmaker.t) :
  hasPlayer k b = true
  <-> In k (Js.keys (groupByPlayer (selectedOutcomes b))).
Proof.
  unfold hasPlayer. rewrite existsb_eqb.
  destruct (groupByPlayer_ok (selectedOutcomes b)) as (_ & Hkeys & _).
  symmetry. apply Hkeys.
Qed.

Lemma hasPlayer_get (k : string) (b : Bookmaker.t) :
  hasPlayer k b
  = match Js.get (groupByPlayer (selectedOutcomes b)) k with
    | Some _ => true
    | None => false
    end.
Proof.
  destruct (Js.get (groupByPlayer (selectedOutcomes b)) k) as [os|] eqn:G.
  - apply hasPlayer_iff.
    destruct (get_none (groupByPlayer (selectedOutcomes b)) k) as [_ H].
    destruct (in_dec string_dec k
                (Js.keys (groupByPlayer (selectedOutcomes b))));
      [assumption|]. rewrite (H n) in G. discriminate.
  - apply not_true_is_false. intros Hc. apply hasPlayer_iff in Hc.
    now apply get_none in G.
Qed.

(** The turns of one bookmaker that concern a player: at most one. *)
Lemma turnsOf_player (k : string) (b : Bookmaker.t) :
  filter (ofPlayer k) (turnsOf b)
  = match Js.get (groupByPlayer (selectedOutcomes b)) k with
    | Some os => [(b, (k, os))]
    | None => []
    end.
Proof.
  unfold turnsOf.
  destruct (groupByPlayer_ok (selectedOutcomes b)) as (Hnd & _).
  assert (E : forall m : Js.Map (list Outcome.t),
            filter (ofPlayer k) (List.map (pair b) m)
            = List.map (pair b)
                (filter (fun kv => String.eqb (fst kv) k) m)).
  { induction m as [|kv m IH]; simpl; [reflexivity|].
    unfold ofPlayer at 1, turnPlayer. simpl.
    destruct (String.eqb (fst kv) k); simpl; now rewrite IH. }
  rewrite E, (filter_group _ k Hnd).
  now destruct (Js.get (groupByPlayer (selectedOutcomes b)) k).
Qed.

Lemma entries_keys (k : string) (bs : list Bookmaker.t) :
  List.map Bookmaker.key
    (List.map turnEntry (filter (ofPlayer k) (flat_map turnsOf bs)))
  = List.map Bookmaker.key (filter (hasPlayer k) bs).
Proof.
  induction bs as [|b bs IH]; simpl; [reflexivity|].
  rewrite filter_app, !map_app, IH, turnsOf_player, hasPlayer_get.
  destruct (Js.get (groupByPlayer (selectedOutcomes b)) k); reflexivity.
Qed.

(** The first turn that concerns a player belongs to the first bookmaker with
    data for that player. *)
Lemma first_turn (k : string) (bs : list Bookmaker.t) (t : Turn)
    (rest : list Turn) :
  filter (ofPlayer k) (flat_map turnsOf bs) = t :: rest ->
  exists b os,
    find (hasPlayer k) bs = Some b
    /\ Js.get (groupByPlayer (selectedOutcomes b)) k = Some os
    /\ t = (b, (k, os)).
Proof.
  revert rest. induction bs as [|b bs IH]; simpl; intros rest H;
    [discriminate|].
  rewrite filter_app, turnsOf_player, hasPlayer_get in *.
  destruct (Js.get (groupByPlayer (selectedOutcomes b)) k) as [os|] eqn:G.
  - injection H as <- _. exists b, os. auto.
  - exact (IH rest H).
Qed.

Lemma selectedOutcomes_In (b : Bookmaker.t) (o : Outcome.t) :
  In o (selectedOutcomes b)
  <-> (exists m, findMarket standardMarketKey (Bookmaker.markets b) = Some m
         /\ In o (Market.outcomes m))
      \/ (exists m, findMarket alternateMarketKey (Bookmaker.markets b)
                    = Some m
            /\ In o (Market.outcomes m)).
Proof.
  unfold selectedOutcomes, allOutcomes.
  destruct (findMarket standardMarketKey (Bookmaker.markets b)) as [s|],
    (findMarket alternateMarketKey (Bookmaker.markets b)) as [a|];
    cbn [outcomesOrNone]; rewrite ?in_app_iff.
  all: split;
    [ intros H;
      repeat match goal with
             | H : _ \/ _ |- _ => destruct H
             | H : In _ [] |- _ => destruct H
             end; eauto
    | intros [[m [E H]]|[m [E H]]]; try discriminate;
      injection E as <-; simpl; auto ].
Qed.

Lemma findMarket_FirstUnder (k : string) (ms : list Market.t)
    (m : Market.t) :
  findMarket k ms = Some m <-> FirstUnder k ms m.
Proof.
  unfold findMarket, FirstUnder. rewrite find_first.
  split; intros (before & after & E & Hk & Hb); exists before, after;
    (split; [exact E|]); split.
  - now apply String.eqb_eq.
  - intros m' Hm'. apply String.eqb_neq. now apply Hb.
  - now apply String.eqb_eq.
  - intros m' Hm'. apply String.eqb_neq. now apply Hb.
Qed.

Lemma selectedOutcomes_Offers (b : Bookmaker.t) (o : Outcome.t) :
  In o (selectedOutcomes b) <-> Offers b o.
Proof.
  rewrite selectedOutcomes_In. unfold Offers. split.
  - intros [[m [F Ho]]|[m [F Ho]]]; apply findMarket_FirstUnder in F;
      exists m; auto.
  - intros [m [[F|F] Ho]]; apply findMarket_FirstUnder in F;
      [left | right]; exists m; auto.
Qed.

Lemma attributed_Names (o : Outcome.t) (d : string) :
  attributed o = Some d <-> Names o d.
Proof.
  split; [apply attributed_truthy|].
  intros [Hd Hne]. unfold attributed. rewrite Hd.
  apply truthy_true in Hne. now rewrite Hne.
Qed.

Lemma hasPlayer_HasData (d : string) (b : Bookmaker.t) :
  hasPlayer d b = true <-> HasData d b.
Proof.
  unfold hasPlayer, HasData. rewrite existsb_eqb, playersOf_In.
  split; intros [o [Ho Hn]]; exists o.
  - split; [now apply selectedOutcomes_Offers | now apply attributed_Names].
  - split; [now apply selectedOutcomes_Offers | now apply attributed_Names].
Qed.

Lemma descriptions_Named (g : GameOdds.t) (d : string) :
  In d (descriptions g) <-> Named g d.
Proof.
  unfold descriptions, Named. rewrite in_flat_map.
  split; intros [b [Hb Hd]]; exists b; (split; [exact Hb|]).
  - apply hasPlayer_HasData. unfold hasPlayer. now apply existsb_eqb.
  - apply hasPlayer_HasData in Hd. unfold hasPlayer in Hd.
    now apply existsb_eqb in Hd.
Qed.

Lemma entries_ident (k : string) (bs : list Bookmaker.t) :
  List.map ident
    (List.map turnEntry (filter (ofPlayer k) (flat_map turnsOf bs)))
  = List.map ident (filter (hasPlayer k) bs).
Proof.
  induction bs as [|b bs IH]; simpl; [reflexivity|].
  rewrite filter_app, !map_app, IH, turnsOf_player, hasPlayer_get.
  destruct (Js.get (groupByPlayer (selectedOutcomes b)) k); reflexivity.
Qed.

Lemma same_player_same_prop (props : list PlayerProp.t)
    (p q : PlayerProp.t) :
  NoDup (List.map PlayerProp.player props) ->
  In p props -> In q props -> PlayerProp.player q = PlayerProp.player p ->
  q = p.
Proof.
  induction props as [|x props IH]; cbn [List.map]; intros Hnd Hp Hq E;
    [destruct Hp|].
  inversion Hnd as [|? ? Hnotin Hnd']; subst.
  destruct Hp as [->|Hp], Hq as [->|Hq].
  - reflexivity.
  - exfalso. apply Hnotin. rewrite <- E. now apply in_map.
  - exfalso. apply Hnotin. rewrite E. now apply in_map.
  - now apply IH.
Qed.

(** C3.  One prop per player, read off the payload.  A player is named by
    the payload when some bookmaker has, in its first market under the
    standard key or in its first market under the alternate key, an outcome
    whose [description] is that name and is not empty.  Every player so
    named has a prop, and only one; every prop is the prop of a player so
    named, and no two props have the same player; so there are as many props
    as names, however the names are listed without repetition.  An outcome
    of a prop carries the prop's player as its [description], so that an
    outcome without one is in no prop.  The entries of a prop are the
    bookmakers of the payload that have data for its player, one entry
    each, in the order of the payload: a further bookmaker with data for a
    player adds an entry to that player's prop. *)
Theorem one_prop_per_player (g : GameOdds.t) :
  let props := playerProps (Some g) in
  (forall d, Named g d ->
     exists p,
       In p props /\ PlayerProp.player p = d
       /\ forall q, In q props -> PlayerProp.player q = d -> q = p)
  /\ (forall p, In p props -> Named g (PlayerProp.player p))
  /\ NoDup (List.map PlayerProp.player props)
  /\ (forall names,
        NoDup names -> (forall d, In d names <-> Named g d) ->
        List.length props = List.length names)
  /\ (forall p e m o,
        In p props -> In e (PlayerProp.bookmakers p) ->
        In m (Bookmaker.markets e) -> In o (Market.outcomes m) ->
        Names o (PlayerProp.player p))
  /\ (forall p,
        In p props ->
        exists bs,
          Kept (HasData (PlayerProp.player p)) (GameOdds.bookmakers g) bs
          /\ List.map ident (PlayerProp.bookmakers p) = List.map ident bs).
Proof.
  cbv zeta. destruct (playerProps_ok g) as (Hnd & Hts & Hps).
  assert (Hplayers : forall d,
            In d (List.map PlayerProp.player (playerProps (Some g)))
            <-> Named g d).
  { intros d. rewrite <- descriptions_Named.
    unfold descriptions. rewrite in_flat_map. split.
    - intros Hd. apply in_map_iff in Hd. destruct Hd as [p [<- Hp]].
      destruct (Hps p Hp) as (_ & _ & _ & t & rest & Hf & _).
      assert (Ht : In t (filter (ofPlayer (PlayerProp.player p)) (turns g)))
        by (rewrite Hf; now left).
      apply filter_In in Ht. destruct Ht as [Ht Hk].
      apply String.eqb_eq in Hk. apply turns_In in Ht.
      destruct Ht as [Hb Hkv]. exists (fst t). split; [assumption|].
      destruct (groupByPlayer_ok (selectedOutcomes (fst t)))
        as (_ & Hkeys & _).
      apply Hkeys. rewrite <- Hk. unfold turnPlayer. now apply in_map.
    - intros [b [Hb Hd]].
      destruct (groupByPlayer_ok (selectedOutcomes b)) as (_ & Hkeys & _).
      apply Hkeys in Hd. apply in_map_iff in Hd.
      destruct Hd as [[k os] [Hk Hkv]]. simpl in Hk. subst k.
      apply (Hts (b, (d, os))). apply turns_In. auto. }
  split; [|split; [|split; [exact Hnd|split; [|split]]]].
  - intros d Hd. apply Hplayers in Hd. apply in_map_iff in Hd.
    destruct Hd as [p [Hpd Hp]]. exists p.
    split; [exact Hp|]. split; [exact Hpd|].
    intros q Hq Hqd. apply (same_player_same_prop _ p q Hnd Hp Hq).
    congruence.
  - intros p Hp. apply Hplayers. now apply in_map.
  - intros names Hnames Hall.
    rewrite <- (length_map PlayerProp.player).
    apply Permutation_length, NoDup_Permutation;
      [exact Hnd | exact Hnames |].
    intros d. rewrite Hall. apply Hplayers.
  - intros p e m o Hp He Hm Ho.
    destruct (prop_market g p e m Hp He Hm) as (b & os & _ & Hos & _ & ->).
    cbn [Market.outcomes] in Ho. apply sort_In in Ho.
    apply attributed_Names. now apply (group_facts _ _ _ Hos).
  - intros p Hp. destruct (Hps p Hp) as (_ & _ & Hb & _).
    exists (filter (hasPlayer (PlayerProp.player p)) (GameOdds.bookmakers g)).
    split.
    + apply Kept_filter. intros b. apply hasPlayer_HasData.
    + rewrite Hb. apply entries_ident.
Qed.

(** Conversely every attributable outcome of a bookmaker is represented in
    the prop of its player. *)
Lemma attributable_outcome_kept (g : GameOdds.t) (b : Bookmaker.t)
    (o : Outcome.t) (d : string) :
  In b (GameOdds.bookmakers g) -> In o (selectedOutcomes b) ->
  attributed o = Some d ->
  exists p,
    In p (playerProps (Some g)) /\ PlayerProp.player p = d
    /\ In (triple o) (List.map triple (outcomesOfProp p)).
Proof.
  intros Hb Ho Hd.
  destruct (playerProps_ok g) as (_ & Hts & Hps).
  destruct (groupByPlayer_ok (selectedOutcomes b)) as (_ & Hkeys & Hgroups).
  assert (Hk : In d (Js.keys (groupByPlayer (selectedOutcomes b)))).
  { apply Hkeys, playersOf_In. eauto. }
  apply in_map_iff in Hk. destruct Hk as [[k os] [Hfst Hkv]].
  simpl in Hfst. subst k.
  assert (Ht : In (b, (d, os)) (turns g)) by (apply turns_In; auto).
  specialize (Hts _ Ht). apply in_map_iff in Hts.
  destruct Hts as [p [Hplayer Hp]]. unfold turnPlayer in Hplayer.
  simpl in Hplayer. exists p. split; [exact Hp|]. split; [exact Hplayer|].
  destruct (Hps p Hp) as (_ & _ & Hbs & _).
  destruct (Hgroups d os Hkv) as (_ & _ & Hrep).
  specialize (Hrep o Ho Hd). apply in_map_iff in Hrep.
  destruct Hrep as [o' [Htr Ho']]. rewrite <- Htr.
  apply in_map. unfold outcomesOfProp. apply in_flat_map.
  exists (turnEntry (b, (d, os))). split.
  - rewrite Hbs. apply in_map. apply filter_In. split; [exact Ht|].
    unfold ofPlayer, turnPlayer. simpl. rewrite Hplayer.
    apply String.eqb_refl.
  - cbn [turnEntry entry Bookmaker.markets flat_map Market.outcomes fst snd].
    rewrite app_nil_r. now apply sort_In.
Qed.

Lemma lineOf_find (l : list Outcome.t) :
  lineOf l
  = match find isOver l with
    | Some o => Outcome.point o
    | None => 0
    end.
Proof.
  unfold lineOf. destruct (find isOver l) as [o|]; simpl; [|reflexivity].
  destruct (Z.eqb_spec (Outcome.point o) 0); congruence.
Qed.

(** In a list sorted by [point], the first outcome of a side has the least
    [point] of that side. *)
Lemma find_sorted_least (f : Outcome.t -> bool) (l : list Outcome.t)
    (o : Outcome.t) :
  StronglySorted (fun a b => Outcome.point a <= Outcome.point b) l ->
  find f l = Some o ->
  forall o', In o' l -> f o' = true -> Outcome.point o <= Outcome.point o'.
Proof.
  induction 1 as [|x l Hs IH Hall]; simpl; [discriminate|].
  destruct (f x) eqn:E.
  - intros H; injection H as <-. intros o' [<-|Ho'] _; [lia|].
    rewrite Forall_forall in Hall. now apply Hall.
  - intros H o' [<-|Ho'] Hf; [congruence | now apply IH].
Qed.

Lemma triple_name (o a : Outcome.t) :
  triple o = triple a ->
  Outcome.name o = Outcome.name a /\ Outcome.point o = Outcome.point a
  /\ Outcome.description o = Outcome.description a.
Proof. unfold triple. intros H. injection H as -> -> ->. auto. Qed.

(** C5.  A prop carries the home team of the event, and its line is that of
    the first bookmaker with data for its player: the [point] of the first
    "Over" outcome of the player's sorted outcomes there, which is the least
    [point] of the player's "Over" outcomes of that bookmaker, and 0 when
    there is none. *)
Theorem new_prop_team_and_line (g : GameOdds.t) (p : PlayerProp.t) :
  In p (playerProps (Some g)) ->
  PlayerProp.team p = GameOdds.home_team g
  /\ exists b os,
       find (hasPlayer (PlayerProp.player p)) (GameOdds.bookmakers g)
       = Some b
       /\ Js.get (groupByPlayer (selectedOutcomes b)) (PlayerProp.player p)
          = Some os
       /\ hd_error (PlayerProp.bookmakers p)
          = Some (entry b (Js.sort byPoint os))
       /\ PlayerProp.line p
          = match find isOver (Js.sort byPoint os) with
            | Some o => Outcome.point o
            | None => 0
            end
       /\ let overs :=
            filter (fun o => isOver o
                             && sameDescription (attributed o)
                                  (Some (PlayerProp.player p)))
              (selectedOutcomes b) in
          (overs = [] -> PlayerProp.line p = 0)
          /\ (overs <> [] ->
              (exists o, In o overs /\ PlayerProp.line p = Outcome.point o)
              /\ forall o, In o overs ->
                   PlayerProp.line p <= Outcome.point o).
Proof.
  intros Hp. destruct (playerProps_ok g) as (_ & _ & Hps).
  destruct (Hps p Hp) as (Ht & _ & Hb & t & rest & Hf & Hl).
  split; [exact Ht|].
  destruct (first_turn _ _ _ _ Hf) as (b & os & Hfind & Hget & ->).
  exists b, os. split; [exact Hfind|]. split; [exact Hget|].
  split; [now rewrite Hb, Hf|].
  cbn [snd] in Hl. rewrite lineOf_find in Hl. split; [exact Hl|].
  cbv zeta.
  destruct (groupByPlayer_ok (selectedOutcomes b)) as (Hnd & _ & _).
  apply (get_some _ _ _ Hnd) in Hget.
  destruct (group_facts _ _ _ Hget) as (_ & Hfrom & Hrep).
  set (k := PlayerProp.player p) in *.
  assert (Hovers : forall o,
            In o (filter (fun o => isOver o
                                   && sameDescription (attributed o) (Some k))
                    (selectedOutcomes b))
            <-> In o (selectedOutcomes b) /\ isOver o = true
                /\ attributed o = Some k).
  { intros o. rewrite filter_In, andb_true_iff, sameDescription_eq. params_tauto. }
  assert (Hsorted := sort_by_key Outcome.point byPoint os
                       (fun a b => eq_refl)).
  split.
  - intros Hnone. rewrite Hl.
    destruct (find isOver (Js.sort byPoint os)) as [o|] eqn:F;
      [|reflexivity].
    apply find_some in F. destruct F as [Ho Hover].
    apply sort_In in Ho. destruct (Hfrom o Ho) as [Hsel Hatt].
    assert (H : In o (filter (fun o => isOver o
                                && sameDescription (attributed o) (Some k))
                        (selectedOutcomes b))) by (apply Hovers; auto).
    rewrite Hnone in H. destruct H.
  - intros Hsome.
    destruct (filter (fun o => isOver o
                               && sameDescription (attributed o) (Some k))
                (selectedOutcomes b)) as [|o0 overs] eqn:E; [congruence|].
    assert (Hrepr : forall o', In o' (o0 :: overs) ->
              exists o1, In o1 (Js.sort byPoint os) /\ isOver o1 = true
                         /\ Outcome.point o1 = Outcome.point o').
    { intros o' Ho'. apply Hovers in Ho'. destruct Ho' as (Hsel & Hov & Hatt).
      apply (Hrep o' Hsel) in Hatt. apply in_map_iff in Hatt.
      destruct Hatt as [o1 [Htr Ho1]]. exists o1.
      destruct (triple_name _ _ Htr) as (Hn & Hpt & _).
      split; [now apply sort_In|]. split; [|exact Hpt].
      unfold isOver in *. now rewrite Hn. }
    destruct (find isOver (Js.sort byPoint os)) as [o|] eqn:F.
    + split.
      * exists o. split; [|exact Hl].
        apply find_some in F. destruct F as [Ho Hover].
        apply sort_In in Ho. destruct (Hfrom o Ho) as [Hsel Hatt].
        apply Hovers. auto.
      * intros o' Ho'. destruct (Hrepr o' Ho') as (o1 & Ho1 & Hov1 & Hpt).
        rewrite Hl, <- Hpt.
        exact (find_sorted_least isOver _ o Hsorted F o1 Ho1 Hov1).
    + exfalso. destruct (Hrepr o0 (or_introl eq_refl)) as (o1 & Ho1 & Hov1 & _).
      apply (find_none _ _ F) in Ho1. congruence.
Qed.

(** ** Facts about the best price of a line *)

Lemma le_refl (a : Js.Num) : Js.le a a.
Proof. destruct a; simpl; [exact I | lia]. Qed.

Lemma le_trans (a b c : Js.Num) : Js.le a b -> Js.le b c -> Js.le a c.
Proof. destruct a, b, c; simpl; try params_tauto; lia. Qed.

Lemma le_max_l (a : Js.Num) (x : Z) : Js.le a (Js.max a x).
Proof. destruct a; simpl; [exact I | lia]. Qed.

Lemma le_max_r (a : Js.Num) (x : Z) : Js.le (Js.Fin x) (Js.max a x).
Proof. destruct a; simpl; lia. Qed.

Lemma fold_max_spec (l : list Z) (a : Js.Num) :
  Js.le a (fold_left Js.max l a)
  /\ (forall x, In x l -> Js.le (Js.Fin x) (fold_left Js.max l a))
  /\ (fold_left Js.max l a = a
      \/ exists x, In x l /\ fold_left Js.max l a = Js.Fin x).
Proof.
  revert a. induction l as [|y l IH]; intros a; cbn [fold_left].
  - split; [apply le_refl|]. split; [intros x []|now left].
  - destruct (IH (Js.max a y)) as (H1 & H2 & H3). split; [|split].
    + eapply le_trans; [apply le_max_l | exact H1].
    + intros x [<-|Hx]; [|auto].
      eapply le_trans; [apply le_max_r | exact H1].
    + destruct H3 as [H3|[x [Hx H3]]].
      * rewrite H3. destruct a as [|z]; cbn [Js.max].
        -- right. exists y. split; [now left | reflexivity].
        -- destruct (Z.max_spec z y) as [[_ ->]|[_ ->]].
           ++ right. exists y. split; [now left | reflexivity].
           ++ now left.
      * right. exists x. split; [now right | exact H3].
Qed.

Lemma maximum_spec (l : list Z) : IsMaximum (maximum l) l.
Proof.
  unfold IsMaximum, maximum.
  destruct (fold_max_spec l Js.NegInfinity) as (_ & H2 & H3).
  split; [exact H2|].
  destruct H3 as [H3|H3]; [|now right].
  destruct l as [|y l]; [now left|].
  right. cbn [fold_left Js.max] in *.
  destruct (fold_max_spec l (Js.Fin y)) as (H1 & _ & _).
  rewrite H3 in H1. destruct H1.
Qed.

(** Among outcomes of one player without duplicate triples, at most one is
    of a given side at a given line: [find] sees all there is. *)
Lemma at_most_one (side : string) (line : Z) (d : option string)
    (l : list Outcome.t) :
  NoDupTriple l ->
  (forall o, In o l -> Outcome.description o = d) ->
  filter (atLine side line) l
  = match find (atLine side line) l with
    | Some o => [o]
    | None => []
    end.
Proof.
  unfold NoDupTriple.
  induction l as [|x l IH]; cbn [List.map filter find]; intros Hnd Hd;
    [reflexivity|].
  inversion Hnd as [|? ? Hnotin Hnd']; subst.
  destruct (atLine side line x) eqn:E.
  - f_equal.
    destruct (filter (atLine side line) l) as [|o' l'] eqn:F; [reflexivity|].
    exfalso. apply Hnotin.
    assert (Ho' : In o' (filter (atLine side line) l))
      by (rewrite F; now left).
    apply filter_In in Ho'. destruct Ho' as [Ho' E'].
    apply in_map_iff. exists o'. split; [|assumption].
    unfold atLine in E, E'.
    apply andb_true_iff in E, E'. destruct E as [En Ep], E' as [En' Ep'].
    apply String.eqb_eq in En, En'. apply Z.eqb_eq in Ep, Ep'.
    unfold triple.
    rewrite En, En', Ep, Ep', (Hd x (or_introl eq_refl)),
      (Hd o' (or_intror Ho')). reflexivity.
  - apply IH; [assumption | intros o Ho; apply Hd; now right].
Qed.

(** A bookmaker entry as [playerProps] builds them. *)
Lemma entry_step (line : Z) (best : BestPerLine.t) (b : Bookmaker.t)
    (d : option string) (outs : list Outcome.t) :
  NoDupTriple outs ->
  (forall o, In o outs -> Outcome.description o = d) ->
  BestPerLine.over (bestStep standardMarketKey line best (entry b outs))
  = fold_left Js.max
      (List.map Outcome.price (filter (atLine "Over" line) outs))
      (BestPerLine.over best)
  /\ BestPerLine.under (bestStep standardMarketKey line best (entry b outs))
     = fold_left Js.max
         (List.map Outcome.price (filter (atLine "Under" line) outs))
         (BestPerLine.under best).
Proof.
  intros Hnd Hd. unfold bestStep, entry, findMarket.
  cbn [Bookmaker.markets find Market.key Market.outcomes].
  rewrite String.eqb_refl.
  cbn [BestPerLine.over BestPerLine.under Market.outcomes].
  rewrite (at_most_one "Over" line d outs Hnd Hd),
    (at_most_one "Under" line d outs Hnd Hd).
  destruct (find (atLine "Over" line) outs),
    (find (atLine "Under" line) outs); split; reflexivity.
Qed.

Lemma best_fold (line : Z) (es : list Bookmaker.t) (best : BestPerLine.t) :
  (forall e, In e es ->
     exists b d outs,
       e = entry b outs /\ NoDupTriple outs
       /\ forall o, In o outs -> Outcome.description o = d) ->
  let all :=
    flat_map (fun b => flat_map Market.outcomes (Bookmaker.markets b)) es in
  let final := fold_left (bestStep standardMarketKey line) es best in
  BestPerLine.over final
  = fold_left Js.max
      (List.map Outcome.price (filter (atLine "Over" line) all))
      (BestPerLine.over best)
  /\ BestPerLine.under final
     = fold_left Js.max
         (List.map Outcome.price (filter (atLine "Under" line) all))
         (BestPerLine.under best).
Proof.
  cbv zeta. revert best.
  induction es as [|e es IH]; intros best Hes; cbn [fold_left flat_map].
  - split; reflexivity.
  - destruct (Hes e (or_introl eq_refl)) as (b & d & outs & -> & Hnd & Hd).
    destruct (IH (bestStep standardMarketKey line best (entry b outs))
                (fun e' He' => Hes e' (or_intror He'))) as [Ho Hu].
    destruct (entry_step line best b d outs Hnd Hd) as [So Su].
    rewrite Ho, Hu, So, Su.
    cbn [entry Bookmaker.markets flat_map Market.outcomes].
    rewrite app_nil_r, !filter_app, !map_app, !fold_left_app.
    split; reflexivity.
Qed.

(** C4.  For a prop of the table and a line, the best "Over" price and the
    best "Under" price are the greatest price of that side at that line over
    all bookmaker entries of the prop ([-Infinity] when no bookmaker offers
    the side at the line); no bookmaker's price for the side and line exceeds
    them. *)
Theorem best_price_is_maximum (g : GameOdds.t) (p : PlayerProp.t)
    (line : Z) :
  marketKeyOf statType = standardMarketKey ->
  In p (playerProps (Some g)) ->
  let best := bestForLine p line in
  BestPerLine.over best = maximum (pricesAt p "Over" line)
  /\ BestPerLine.under best = maximum (pricesAt p "Under" line)
  /\ IsMaximum (BestPerLine.over best) (pricesAt p "Over" line)
  /\ IsMaximum (BestPerLine.under best) (pricesAt p "Under" line)
  /\ (forall e m o,
        In e (PlayerProp.bookmakers p) -> In m (Bookmaker.markets e) ->
        In o (Market.outcomes m) -> Outcome.point o = line ->
        (Outcome.name o = "Over" ->
         Js.le (Js.Fin (Outcome.price o)) (BestPerLine.over best))
        /\ (Outcome.name o = "Under" ->
            Js.le (Js.Fin (Outcome.price o)) (BestPerLine.under best))).
Proof.
  intros Hkey Hp. cbv zeta.
  destruct (playerProps_ok g) as (_ & _ & Hps).
  destruct (Hps p Hp) as (_ & Hstat & _).
  assert (Hes : forall e, In e (PlayerProp.bookmakers p) ->
            exists b d outs,
              e = entry b outs /\ NoDupTriple outs
              /\ forall o, In o outs -> Outcome.description o = d).
  { intros e He.
    destruct (prop_entry g p e Hp He) as (b & os & _ & Hos & ->).
    destruct (group_facts _ _ _ Hos) as (Hnd & Hfrom & _).
    exists b, (Some (PlayerProp.player p)), (Js.sort byPoint os).
    split; [reflexivity|]. split; [now apply sort_NoDupTriple|].
    intros o Ho. apply sort_In in Ho.
    now apply attributed_truthy, Hfrom. }
  destruct (best_fold line (PlayerProp.bookmakers p)
              (BestPerLine.mk Js.NegInfinity Js.NegInfinity) Hes)
    as [Ho Hu].
  assert (Eo : BestPerLine.over (bestForLine p line)
               = maximum (pricesAt p "Over" line)).
  { unfold bestForLine. rewrite Hstat, Hkey. exact Ho. }
  assert (Eu : BestPerLine.under (bestForLine p line)
               = maximum (pricesAt p "Under" line)).
  { unfold bestForLine. rewrite Hstat, Hkey. exact Hu. }
  split; [exact Eo|]. split; [exact Eu|].
  rewrite Eo, Eu.
  split; [apply maximum_spec|]. split; [apply maximum_spec|].
  intros e m o He Hm Hin Hline.
  assert (Hall : In o (outcomesOfProp p)).
  { unfold outcomesOfProp. apply in_flat_map. exists e. split; [assumption|].
    apply in_flat_map. exists m. auto. }
  split; intros Hname; apply maximum_spec; unfold pricesAt;
    apply in_map, filter_In; (split; [exact Hall|]);
    unfold atLine; rewrite Hname, Hline, Z.eqb_refl; reflexivity.
Qed.

(** ** Facts about the search filter *)

Lemma includes_of_empty (sub : string) :
  sub <> "" -> Js.includes "" sub = false.
Proof. destruct sub; [congruence | reflexivity]. Qed.

(** The filter as the two tests of the lowered texts, for a host mapping
    that lowers the empty text, and no other, to the empty text. *)
Lemma matchesQuery_ci (searchQuery : string) (p : PlayerProp.t) :
  toLowerCase "" = "" -> (forall s, toLowerCase s = "" -> s = "") ->
  Js.truthy searchQuery = true ->
  matchesQuery (toLowerCase searchQuery) p
  = (ciIncludes searchQuery (PlayerProp.player p)
     || ciIncludes searchQuery (PlayerProp.team p))%bool.
Proof.
  intros Hempty Hnonempty Hq. unfold matchesQuery, ciIncludes. f_equal.
  destruct (Js.truthy (PlayerProp.team p)) eqn:E; [reflexivity|].
  apply truthy_false in E. rewrite E, Hempty. cbn [andb].
  symmetry. apply includes_of_empty.
  intros Hc. apply Hnonempty in Hc. now apply truthy_true in Hq.
Qed.

Lemma filtered_ci (props : list PlayerProp.t) (searchQuery : string) :
  toLowerCase "" = "" -> (forall s, toLowerCase s = "" -> s = "") ->
  (if Js.truthy searchQuery
   then filter (matchesQuery (toLowerCase searchQuery)) props
   else props)
  = filter (fun p => ciIncludes searchQuery (PlayerProp.player p)
                     || ciIncludes searchQuery (PlayerProp.team p))%bool
      props.
Proof.
  intros Hempty Hnonempty. destruct (Js.truthy searchQuery) eqn:E.
  - apply filter_ext. intros p. now apply matchesQuery_ci.
  - apply truthy_false in E. subst searchQuery.
    symmetry. apply forallb_filter_id. apply forallb_forall.
    intros p _. unfold ciIncludes. rewrite Hempty.
    now rewrite includes_empty.
Qed.











(** C8.  Sorting reorders the props the search keeps and does nothing else:
    in either mode the result is a permutation of them.  In the mode
    ["best-odds"] they come in descending order of their best "Over" price,
    a prop without one counting for 0; in the mode ["name"], the initial
    one, they come in the order [localeCompare] gives their players'
    names. *)
Theorem sort_modes (props : list PlayerProp.t) (searchQuery : string) :
  (forall a b, localeCompare a b <= 0 \/ localeCompare b a <= 0) ->
  let kept :=
    if Js.truthy searchQuery
    then filter (matchesQuery (toLowerCase searchQuery)) props
    else props in
  Permutation (filteredProps props searchQuery SortByBestOdds) kept
  /\ StronglySorted (fun a b => bestOverOdds a >= bestOverOdds b)
       (filteredProps props searchQuery SortByBestOdds)
  /\ (forall p,
        bestOverOdds p
        = match findBestOdds p (marketKeyOf statType) "Over" with
          | Some best => BestOdds.odds best
          | None => 0
          end)
  /\ defaultSortBy = SortByName
  /\ Permutation (filteredProps props searchQuery SortByName) kept
  /\ Sorted
       (fun a b =>
          localeCompare (PlayerProp.player a) (PlayerProp.player b) <= 0)
       (filteredProps props searchQuery SortByName)
  /\ ((forall a b c,
         localeCompare a b <= 0 -> localeCompare b c <= 0 ->
         localeCompare a c <= 0) ->
      StronglySorted
        (fun a b =>
           localeCompare (PlayerProp.player a) (PlayerProp.player b) <= 0)
        (filteredProps props searchQuery SortByName)).
Proof.
  intros Htotal. cbv zeta.
  assert (Hname : Sorted
            (fun a b =>
               localeCompare (PlayerProp.player a) (PlayerProp.player b) <= 0)
            (filteredProps props searchQuery SortByName)).
  { unfold filteredProps. cbv zeta.
    apply (sort_sorted byName). intros a b. apply Htotal. }
  split; [apply sort_perm|]. split; [|split; [|split; [reflexivity|]]].
  - unfold filteredProps. cbv zeta.
    apply (@StronglySorted_weaken _
             (fun a b => - bestOverOdds a <= - bestOverOdds b)).
    + intros a b; lia.
    + apply sort_by_key. intros a b. unfold byBestOdds. lia.
  - intros p. unfold bestOverOdds.
    destruct (findBestOdds p (marketKeyOf statType) "Over") as [best|];
      simpl; [|reflexivity].
    destruct (Z.eqb_spec (BestOdds.odds best) 0); congruence.
  - split; [apply sort_perm|]. split; [exact Hname|].
    intros Htrans. apply Sorted_StronglySorted; [|exact Hname].
    intros a b c. apply Htrans.
Qed.

(** ** Further properties of the combination of markets *)

Lemma mergeMarket_key (alternates : list Market.t) (sm : Market.t) :
  Market.key (mergeMarket alternates sm) = Market.key sm.
Proof.
  unfold mergeMarket. now destruct (findAlternate alternates sm).
Qed.

Lemma mergeMarket_standard (alternates : list Market.t) (sm : Market.t) :
  isAlternate sm = false -> isAlternate (mergeMarket alternates sm) = false.
Proof. unfold isAlternate. now rewrite mergeMarket_key. Qed.

Lemma filter_none {A : Type} (f : A -> bool) (l : list A) :
  (forall x, In x l -> f x = false) -> filter f l = [].
Proof.
  induction l as [|x l IH]; simpl; intros H; [reflexivity|].
  rewrite (H x (or_introl eq_refl)). apply IH. intros y Hy. apply H. now right.
Qed.

Lemma filter_every {A : Type} (f : A -> bool) (l : list A) :
  (forall x, In x l -> f x = true) -> filter f l = l.
Proof.
  induction l as [|x l IH]; simpl; intros H; [reflexivity|].
  rewrite (H x (or_introl eq_refl)). f_equal. apply IH.
  intros y Hy. apply H. now right.
Qed.

(** X1.  Combining twice is combining once, for a bookmaker that is not
    promoted (it has a standard market, or no alternate one): the combined
    bookmaker has standard markets only, which a second pass leaves as they
    are, without sorting again. *)
Theorem combineMarkets_idempotent (book : Bookmaker.t) :
  ~ (standardMarkets book = [] /\ alternateMarkets book <> []) ->
  combineMarkets (combineMarkets book) = combineMarkets book.
Proof.
  intros Hn.
  assert (Hm := combineMarkets_merge book Hn).
  assert (Hstd : forall m,
            In m (Bookmaker.markets (combineMarkets book)) ->
            isAlternate m = false).
  { intros m Hin. rewrite Hm in Hin. apply in_map_iff in Hin.
    destruct Hin as [sm [<- Hsm]]. apply mergeMarket_standard.
    now apply standardMarkets_In in Hsm. }
  assert (Ha : alternateMarkets (combineMarkets book) = []).
  { unfold alternateMarkets. now apply filter_none. }
  assert (Hs : standardMarkets (combineMarkets book)
               = Bookmaker.markets (combineMarkets book)).
  { unfold standardMarkets. apply filter_every. intros m Hin.
    now rewrite (Hstd m Hin). }
  unfold combineMarkets at 1. rewrite Ha, Hs. cbn [List.length Nat.ltb].
  rewrite andb_false_r.
  assert (Hid : List.map (mergeMarket [])
                  (Bookmaker.markets (combineMarkets book))
                = Bookmaker.markets (combineMarkets book)).
  { rewrite <- (map_id (Bookmaker.markets (combineMarkets book))) at 2.
    apply map_ext. reflexivity. }
  rewrite Hid. unfold combineMarkets.
  now destruct (Nat.eqb (List.length (standardMarkets book)) 0
                && Nat.ltb 0 (List.length (alternateMarkets book)))%bool.
Qed.

(** X2.  The combination keeps the teams and the bookmakers of the response,
    each with its key, title and time, in order; and a bookmaker that is not
    promoted comes out with the keys of its standard markets, in order, none
    of which is an alternate key. *)
Theorem combineResponse_shape (responseData : GameOdds.t) :
  GameOdds.home_team (combineResponse responseData)
  = GameOdds.home_team responseData
  /\ GameOdds.away_team (combineResponse responseData)
     = GameOdds.away_team responseData
  /\ List.map
       (fun b => (Bookmaker.key b, Bookmaker.title b, Bookmaker.last_update b))
       (GameOdds.bookmakers (combineResponse responseData))
     = List.map
         (fun b =>
            (Bookmaker.key b, Bookmaker.title b, Bookmaker.last_update b))
         (GameOdds.bookmakers responseData)
  /\ forall book,
       In book (GameOdds.bookmakers responseData) ->
       ~ (standardMarkets book = [] /\ alternateMarkets book <> []) ->
       List.map Market.key (Bookmaker.markets (combineMarkets book))
       = List.map Market.key (standardMarkets book)
       /\ forall m, In m (Bookmaker.markets (combineMarkets book)) ->
            isAlternate m = false.
Proof.
  split; [reflexivity|]. split; [reflexivity|]. split.
  - unfold combineResponse. cbn [GameOdds.bookmakers]. rewrite map_map.
    apply map_ext. intros b. unfold combineMarkets.
    now destruct (Nat.eqb (List.length (standardMarkets b)) 0
                  && Nat.ltb 0 (List.length (alternateMarkets b)))%bool.
  - intros book _ Hn. rewrite (combineMarkets_merge book Hn). split.
    + rewrite map_map. apply map_ext. intros sm. apply mergeMarket_key.
    + intros m Hin. apply in_map_iff in Hin. destruct Hin as [sm [<- Hsm]].
      apply mergeMarket_standard. now apply standardMarkets_In in Hsm.
Qed.

(** X3.  Where an alternate outcome has the triple of a standard outcome, the
    standard one stays and the alternate one, whatever its price, is left
    out; the merged list is no shorter than the standard list and no longer
    than both lists together. *)
Theorem mergeOutcomes_standard_wins (standard alternate : list Outcome.t) :
  (forall o,
     In o (mergeOutcomes standard alternate) ->
     In (triple o) (List.map triple standard) -> In o standard)
  /\ (forall o, In o standard -> In o (mergeOutcomes standard alternate))
  /\ (List.length standard
      <= List.length (mergeOutcomes standard alternate)
      <= List.length standard + List.length alternate)%nat.
Proof.
  destruct (mergeOutcomes_spec standard alternate)
    as (added & Hperm & Hincl & Hnew & Hnd & _).
  split; [|split].
  - intros o Ho Ht. apply (Permutation_in _ Hperm) in Ho.
    apply in_app_iff in Ho. destruct Ho as [Ho|Ho]; [exact Ho|].
    exfalso. exact (Hnew o Ho Ht).
  - intros o Ho. apply (Permutation_in _ (Permutation_sym Hperm)).
    apply in_app_iff. now left.
  - rewrite (Permutation_length Hperm), length_app.
    assert (List.length added <= List.length alternate)%nat.
    { apply NoDup_incl_length; [|exact Hincl].
      exact (NoDup_map_inv _ _ Hnd). }
    lia.
Qed.

(** ** Further properties of the props *)

Lemma players_descriptions (g : GameOdds.t) (d : string) :
  In d (List.map PlayerProp.player (playerProps (Some g)))
  <-> In d (descriptions g).
Proof.
  destruct (playerProps_ok g) as (_ & Hts & Hps).
  unfold descriptions. rewrite in_flat_map. split.
  - intros Hd. apply in_map_iff in Hd. destruct Hd as [p [<- Hp]].
    destruct (Hps p Hp) as (_ & _ & _ & t & rest & Hf & _).
    assert (Ht : In t (filter (ofPlayer (PlayerProp.player p)) (turns g)))
      by (rewrite Hf; now left).
    apply filter_In in Ht. destruct Ht as [Ht Hk].
    apply String.eqb_eq in Hk. apply turns_In in Ht.
    destruct Ht as [Hb Hkv]. exists (fst t). split; [assumption|].
    destruct (groupByPlayer_ok (selectedOutcomes (fst t)))
      as (_ & Hkeys & _).
    apply Hkeys. rewrite <- Hk. unfold turnPlayer. now apply in_map.
  - intros [b [Hb Hd]].
    destruct (groupByPlayer_ok (selectedOutcomes b)) as (_ & Hkeys & _).
    apply Hkeys in Hd. apply in_map_iff in Hd.
    destruct Hd as [[k os] [Hk Hkv]]. simpl in Hk. subst k.
    apply (Hts (b, (d, os))). apply turns_In. auto.
Qed.

Lemma group_nonempty (l : list Outcome.t) (k : string)
    (os : list Outcome.t) :
  In (k, os) (groupByPlayer l) -> os <> [].
Proof.
  intros H. destruct (groupByPlayer_ok l) as (_ & Hkeys & Hg).
  destruct (Hg k os H) as (_ & _ & Hrep).
  assert (Hk : In k (playersOf l)).
  { apply Hkeys. apply in_map_iff. now exists (k, os). }
  apply playersOf_In in Hk. destruct Hk as [o [Ho Hd]].
  specialize (Hrep o Ho Hd). intros ->. destruct Hrep.
Qed.

(** X4.  There is no prop exactly when no outcome of a selected market can
    be attributed to a player; in particular when no payload is loaded, and
    when no bookmaker carries the standard or the alternate market. *)
Theorem playerProps_empty (g : GameOdds.t) :
  (playerProps (Some g) = []
   <-> forall b o,
         In b (GameOdds.bookmakers g) -> In o (selectedOutcomes b) ->
         attributed o = None)
  /\ playerProps None = []
  /\ ((forall b, In b (GameOdds.bookmakers g) ->
         findMarket standardMarketKey (Bookmaker.markets b) = None
         /\ findMarket alternateMarketKey (Bookmaker.markets b) = None) ->
      playerProps (Some g) = []).
Proof.
  assert (Hiff : playerProps (Some g) = []
                 <-> forall b o,
                       In b (GameOdds.bookmakers g) ->
                       In o (selectedOutcomes b) -> attributed o = None).
  { split.
    - intros Hnil b o Hb Ho.
      destruct (attributed o) as [d|] eqn:E; [|reflexivity].
      exfalso.
      assert (Hd : In d (descriptions g)).
      { unfold descriptions. apply in_flat_map. exists b.
        split; [exact Hb|]. apply playersOf_In. eauto. }
      apply players_descriptions in Hd. rewrite Hnil in Hd. destruct Hd.
    - intros Hnone.
      destruct (playerProps (Some g)) as [|p ps] eqn:E; [reflexivity|].
      exfalso.
      assert (Hd : In (PlayerProp.player p)
                     (List.map PlayerProp.player (playerProps (Some g))))
        by (rewrite E; now left).
      apply players_descriptions in Hd. unfold descriptions in Hd.
      apply in_flat_map in Hd. destruct Hd as [b [Hb Hd]].
      apply playersOf_In in Hd. destruct Hd as [o [Ho Hatt]].
      rewrite (Hnone b o Hb Ho) in Hatt. discriminate. }
  split; [exact Hiff|]. split; [reflexivity|].
  intros Hno. apply Hiff. intros b o Hb Ho. exfalso.
  destruct (Hno b Hb) as [Hs Ha].
  unfold selectedOutcomes, allOutcomes in Ho. rewrite Hs, Ha in Ho.
  destruct Ho.
Qed.

(** X5.  The shape of a prop: it carries the stat type of the component, at
    least one bookmaker entry, and every entry has exactly one market, under
    the standard key, with at least one outcome. *)
Theorem prop_shape (g : GameOdds.t) (p : PlayerProp.t) :
  In p (playerProps (Some g)) ->
  PlayerProp.statType p = statType
  /\ PlayerProp.player p <> ""
  /\ PlayerProp.bookmakers p <> []
  /\ forall e, In e (PlayerProp.bookmakers p) ->
       exists outs,
         Bookmaker.markets e = [Market.mk standardMarketKey outs]
         /\ outs <> [].
Proof.
  intros Hp. destruct (playerProps_ok g) as (_ & _ & Hps).
  destruct (Hps p Hp) as (_ & Hs & Hb & t & rest & Hf & _).
  split; [exact Hs|]. split; [|split].
  - assert (Hd : In (PlayerProp.player p) (descriptions g)).
    { apply players_descriptions. now apply in_map. }
    unfold descriptions in Hd. apply in_flat_map in Hd.
    destruct Hd as [b [_ Hd]]. apply playersOf_In in Hd.
    destruct Hd as [o [_ Hatt]]. now apply attributed_truthy in Hatt.
  - rewrite Hb, Hf. discriminate.
  - intros e He.
    destruct (prop_entry g p e Hp He) as (b & os & _ & Hos & ->).
    exists (Js.sort byPoint os). split; [reflexivity|].
    intros Hc. apply (group_nonempty _ _ _ Hos).
    apply length_zero_iff_nil. rewrite <- (sort_length byPoint os), Hc.
    reflexivity.
Qed.

(** X6.  The props hold nothing that the payload does not hold: an outcome
    of the entry of a bookmaker is an outcome of a market of that bookmaker,
    the first one under the standard key or the first one under the
    alternate key, and it carries the prop's player. *)
Theorem prop_outcome_source (g : GameOdds.t) (p : PlayerProp.t)
    (e : Bookmaker.t) (m : Market.t) (o : Outcome.t) :
  In p (playerProps (Some g)) -> In e (PlayerProp.bookmakers p) ->
  In m (Bookmaker.markets e) -> In o (Market.outcomes m) ->
  Outcome.description o = Some (PlayerProp.player p)
  /\ exists b src,
       In b (GameOdds.bookmakers g)
       /\ Bookmaker.key e = Bookmaker.key b
       /\ Bookmaker.title e = Bookmaker.title b
       /\ Bookmaker.last_update e = Bookmaker.last_update b
       /\ In src (Bookmaker.markets b)
       /\ (findMarket standardMarketKey (Bookmaker.markets b) = Some src
           \/ findMarket alternateMarketKey (Bookmaker.markets b) = Some src)
       /\ In o (Market.outcomes src).
Proof.
  intros Hp He Hm Ho.
  destruct (prop_market g p e m Hp He Hm) as (b & os & Hb & Hos & -> & ->).
  cbn [Market.outcomes] in Ho. apply sort_In in Ho.
  destruct (group_facts _ _ _ Hos) as (_ & Hfrom & _).
  destruct (Hfrom o Ho) as [Hsel Hatt].
  split; [now apply attributed_truthy in Hatt|].
  apply selectedOutcomes_In in Hsel.
  destruct Hsel as [[src [Hf Hin]]|[src [Hf Hin]]];
    exists b, src; repeat (split; [first [exact Hb | reflexivity]|]).
  - split; [apply (find_some _ _ Hf)|]. split; [now left | exact Hin].
  - split; [apply (find_some _ _ Hf)|]. split; [now right | exact Hin].
Qed.

Lemma NoDup_map_filter {A B : Type} (f : A -> B) (h : A -> bool)
    (l : list A) :
  NoDup (List.map f l) -> NoDup (List.map f (filter h l)).
Proof.
  induction l as [|x l IH]; simpl; intros H; [constructor|].
  inversion H as [|? ? Hnotin Hnd]; subst.
  destruct (h x); simpl; [|auto].
  constructor; [|auto].
  intros Hc. apply Hnotin. apply in_map_iff in Hc.
  destruct Hc as [y [Hy Hin]]. apply filter_In in Hin.
  apply in_map_iff. exists y. split; [exact Hy | apply Hin].
Qed.

(** X7.  A bookmaker is attached to a prop at most once: where the
    bookmakers of the payload have distinct keys, so have the entries of
    every prop, and there are no more entries than bookmakers. *)
Theorem prop_bookmakers_distinct (g : GameOdds.t) (p : PlayerProp.t) :
  NoDup (List.map Bookmaker.key (GameOdds.bookmakers g)) ->
  In p (playerProps (Some g)) ->
  NoDup (List.map Bookmaker.key (PlayerProp.bookmakers p))
  /\ (List.length (PlayerProp.bookmakers p)
      <= List.length (GameOdds.bookmakers g))%nat.
Proof.
  intros Hnd Hp. destruct (playerProps_ok g) as (_ & _ & Hps).
  destruct (Hps p Hp) as (_ & _ & Hb & _).
  assert (E : List.map Bookmaker.key (PlayerProp.bookmakers p)
              = List.map Bookmaker.key
                  (filter (hasPlayer (PlayerProp.player p))
                     (GameOdds.bookmakers g))).
  { rewrite Hb. apply entries_keys. }
  split.
  - rewrite E. now apply NoDup_map_filter.
  - rewrite <- (length_map Bookmaker.key (PlayerProp.bookmakers p)), E,
      length_map.
    apply filter_length_le.
Qed.

(** The first occurrences, from a list of names already seen. *)
Lemma firsts_snoc (l : list string) (x : string) :
  firsts (l ++ [x])
  = if existsb (String.eqb x) (firsts l) then firsts l else firsts l ++ [x].
Proof. unfold firsts. now rewrite fold_left_app. Qed.

Lemma fold_seen_In (l acc : list string) (x : string) :
  In x (fold_left
          (fun seen y =>
             if existsb (String.eqb y) seen then seen else seen ++ [y])
          l acc)
  <-> In x acc \/ In x l.
Proof.
  revert acc. induction l as [|y l IH]; intros acc; cbn [fold_left].
  - simpl. params_tauto.
  - rewrite IH. destruct (existsb (String.eqb y) acc) eqn:E.
    + apply existsb_eqb in E. simpl. split.
      * intros [H|H]; auto.
      * intros [H|[<-|H]]; auto.
    + rewrite in_app_iff. simpl. split.
      * intros [[H|[<-|[]]]|H]; auto.
      * intros [H|[<-|H]]; auto.
Qed.

Lemma fold_seen_firsts (l acc : list string) :
  fold_left
    (fun seen y => if existsb (String.eqb y) seen then seen else seen ++ [y])
    (firsts l) acc
  = fold_left
      (fun seen y =>
         if existsb (String.eqb y) seen then seen else seen ++ [y])
      l acc.
Proof.
  induction l as [|x l IH] using rev_ind; [reflexivity|].
  rewrite firsts_snoc, fold_left_app. cbn [fold_left].
  destruct (existsb (String.eqb x) (firsts l)) eqn:E.
  - rewrite IH.
    assert (Hx : In x (fold_left
                         (fun seen y =>
                            if existsb (String.eqb y) seen then seen
                            else seen ++ [y]) l acc)).
    { apply fold_seen_In. right. apply existsb_eqb in E.
      unfold firsts in E. apply fold_seen_In in E.
      destruct E as [[]|E]. exact E. }
    apply existsb_eqb in Hx. now rewrite Hx.
  - rewrite fold_left_app, IH. reflexivity.
Qed.

Lemma fold_seen_flat_map {A : Type} (f : A -> list string) (l : list A)
    (acc : list string) :
  fold_left
    (fun seen y => if existsb (String.eqb y) seen then seen else seen ++ [y])
    (flat_map (fun a => firsts (f a)) l) acc
  = fold_left
      (fun seen y =>
         if existsb (String.eqb y) seen then seen else seen ++ [y])
      (flat_map f l) acc.
Proof.
  revert acc. induction l as [|a l IH]; intros acc; [reflexivity|].
  cbn [flat_map]. rewrite !fold_left_app, fold_seen_firsts. apply IH.
Qed.

Lemma groupOutcome_keys (m : Js.Map (list Outcome.t)) (o : Outcome.t) :
  Js.keys (groupOutcome m o)
  = fold_left
      (fun seen y =>
         if existsb (String.eqb y) seen then seen else seen ++ [y])
      (playersOf [o]) (Js.keys m).
Proof.
  unfold playersOf. cbn [flat_map]. rewrite app_nil_r.
  destruct (attributed o) as [d|] eqn:E.
  - rewrite (groupOutcome_keep m o d E). cbv zeta. apply keys_set.
  - now rewrite (groupOutcome_skip m o E).
Qed.

Lemma fold_groupOutcome_keys (l : list Outcome.t)
    (m : Js.Map (list Outcome.t)) :
  Js.keys (fold_left groupOutcome l m)
  = fold_left
      (fun seen y =>
         if existsb (String.eqb y) seen then seen else seen ++ [y])
      (playersOf l) (Js.keys m).
Proof.
  revert m. induction l as [|o l IH]; intros m; [reflexivity|].
  cbn [fold_left]. rewrite IH, groupOutcome_keys.
  change (o :: l) with ([o] ++ l).
  now rewrite playersOf_app, fold_left_app.
Qed.

Lemma groupByPlayer_keys (l : list Outcome.t) :
  Js.keys (groupByPlayer l) = firsts (playersOf l).
Proof. apply fold_groupOutcome_keys. Qed.

Lemma step_players (g : GameOdds.t) (props : list PlayerProp.t) (t : Turn) :
  List.map PlayerProp.player (step g props t)
  = if existsb (String.eqb (turnPlayer t))
         (List.map PlayerProp.player props)
    then List.map PlayerProp.player props
    else List.map PlayerProp.player props ++ [turnPlayer t].
Proof.
  unfold step, addPlayer, turnPlayer.
  destruct (find (fun p => String.eqb (PlayerProp.player p) (fst (snd t)))
              props) as [q|] eqn:F.
  - rewrite pushBookmaker_players.
    apply find_some in F. destruct F as [Hq Hk]. apply String.eqb_eq in Hk.
    assert (H : In (fst (snd t)) (List.map PlayerProp.player props)).
    { apply in_map_iff. now exists q. }
    apply existsb_eqb in H. now rewrite H.
  - rewrite map_app. cbn [List.map PlayerProp.player].
    destruct (existsb (String.eqb (fst (snd t)))
                (List.map PlayerProp.player props)) eqn:E; [|reflexivity].
    exfalso. apply existsb_eqb in E. apply in_map_iff in E.
    destruct E as [p [Hk Hp]]. apply (find_none _ _ F) in Hp.
    apply String.eqb_neq in Hp. auto.
Qed.

Lemma fold_step_players (g : GameOdds.t) (ts : list Turn)
    (props : list PlayerProp.t) :
  List.map PlayerProp.player (fold_left (step g) ts props)
  = fold_left
      (fun seen y =>
         if existsb (String.eqb y) seen then seen else seen ++ [y])
      (List.map turnPlayer ts) (List.map PlayerProp.player props).
Proof.
  revert props. induction ts as [|t ts IH]; intros props; [reflexivity|].
  cbn [fold_left List.map]. rewrite IH, step_players. reflexivity.
Qed.

Lemma turns_players (bs : list Bookmaker.t) :
  List.map turnPlayer (flat_map turnsOf bs)
  = flat_map (fun b => firsts (playersOf (selectedOutcomes b))) bs.
Proof.
  induction bs as [|b bs IH]; [reflexivity|].
  cbn [flat_map]. rewrite map_app, IH. f_equal.
  unfold turnsOf. rewrite map_map. cbn [turnPlayer snd].
  rewrite <- groupByPlayer_keys. reflexivity.
Qed.

(** X8.  The props come in the order in which their players first appear in
    the payload: bookmaker after bookmaker, and within a bookmaker the
    outcomes of the standard market before those of the alternate one. *)
Theorem playerProps_order (g : GameOdds.t) :
  List.map PlayerProp.player (playerProps (Some g))
  = firsts (descriptions g).
Proof.
  rewrite playerProps_turns, fold_step_players. unfold turns.
  rewrite turns_players. cbn [List.map]. unfold descriptions.
  apply (fold_seen_flat_map
           (fun b => playersOf (selectedOutcomes b))).
Qed.

(** ** Further properties of the search and the sort *)

Section SortMore.
Context {A : Type}.
Variable cmp : A -> A -> Z.

Lemma insert_front (x : A) (l : list A) :
  HdRel (fun a b => cmp a b <= 0) x l -> Js.insert cmp x l = x :: l.
Proof.
  intros [|y l' H]; simpl; [reflexivity|].
  apply Z.leb_le in H. now rewrite H.
Qed.

(** Sorting a sorted list changes nothing. *)
Lemma sort_sorted_id (l : list A) :
  Sorted (fun a b => cmp a b <= 0) l -> Js.sort cmp l = l.
Proof.
  induction 1 as [|x l Hs IH Hd]; simpl; [reflexivity|].
  rewrite IH. now apply insert_front.
Qed.

Lemma sort_idempotent (l : list A) :
  (forall a b, cmp a b <= 0 \/ cmp b a <= 0) ->
  Js.sort cmp (Js.sort cmp l) = Js.sort cmp l.
Proof. intros Htot. apply sort_sorted_id. now apply sort_sorted. Qed.

Lemma filter_insert (f : A -> bool) (x : A) (l : list A) :
  (forall a b c, cmp a b <= 0 -> cmp b c <= 0 -> cmp a c <= 0) ->
  StronglySorted (fun a b => cmp a b <= 0) l ->
  filter f (Js.insert cmp x l)
  = if f x then Js.insert cmp x (filter f l) else filter f l.
Proof.
  intros Htrans. induction 1 as [|y l Hs IH Hall]; cbn [Js.insert filter].
  - now destruct (f x).
  - destruct (Z.leb_spec (cmp x y) 0) as [Hle|Hgt]; cbn [filter].
    + destruct (f x); [|reflexivity].
      symmetry. apply insert_front.
      rewrite Forall_forall in Hall.
      destruct (f y).
      * now constructor.
      * destruct (filter f l) as [|z l'] eqn:E; constructor.
        assert (Hz : In z (filter f l)) by (rewrite E; now left).
        apply filter_In in Hz. apply (Htrans x y z Hle).
        apply Hall, Hz.
    + rewrite IH. destruct (f y), (f x); cbn [Js.insert]; try reflexivity.
      destruct (Z.leb_spec (cmp x y) 0); [lia | reflexivity].
Qed.

(** Filtering and sorting commute, for a total and transitive comparator. *)
Lemma sort_filter (f : A -> bool) (l : list A) :
  (forall a b, cmp a b <= 0 \/ cmp b a <= 0) ->
  (forall a b c, cmp a b <= 0 -> cmp b c <= 0 -> cmp a c <= 0) ->
  Js.sort cmp (filter f l) = filter f (Js.sort cmp l).
Proof.
  intros Htot Htrans. induction l as [|x l IH]; cbn [filter Js.sort];
    [reflexivity|].
  rewrite filter_insert; [|exact Htrans|].
  - destruct (f x); cbn [Js.sort]; now rewrite IH.
  - apply Sorted_StronglySorted; [|now apply sort_sorted].
    intros a b c. apply Htrans.
Qed.

(** The sort is stable: the elements of one key keep their order. *)
Lemma sort_stable (key : A -> Z) (k : Z) (l : list A) :
  (forall a b, cmp a b = key a - key b) ->
  filter (fun a => key a =? k) (Js.sort cmp l)
  = filter (fun a => key a =? k) l.
Proof.
  intros Hcmp.
  assert (Hins : forall x s,
            filter (fun a => key a =? k) (Js.insert cmp x s)
            = if key x =? k then x :: filter (fun a => key a =? k) s
              else filter (fun a => key a =? k) s).
  { intros x s. induction s as [|y s IH]; cbn [Js.insert filter];
      [reflexivity|].
    destruct (Z.leb_spec (cmp x y) 0) as [Hle|Hgt]; cbn [filter].
    - reflexivity.
    - rewrite IH. rewrite Hcmp in Hgt.
      destruct (Z.eqb_spec (key x) k), (Z.eqb_spec (key y) k);
        try reflexivity. lia. }
  induction l as [|x l IH]; cbn [Js.sort filter]; [reflexivity|].
  rewrite Hins, IH. reflexivity.
Qed.

End SortMore.

Lemma sorted_all_match (f : PlayerProp.t -> bool) (cmp : PlayerProp.t ->
    PlayerProp.t -> Z) (l : list PlayerProp.t) :
  filter f (Js.sort cmp (filter f l)) = Js.sort cmp (filter f l).
Proof.
  apply filter_every. intros p Hp. apply sort_In in Hp.
  now apply filter_In in Hp.
Qed.

Lemma byBestOdds_total (a b : PlayerProp.t) :
  byBestOdds a b <= 0 \/ byBestOdds b a <= 0.
Proof. unfold byBestOdds. lia. Qed.

(** X9.  Running the filter and sort again on its own result changes
    nothing, whatever the mode: the list the component has sorted in place
    comes out the same at the next rendering. *)
Theorem filteredProps_idempotent (props : list PlayerProp.t)
    (searchQuery : string) (sortBy : SortBy) :
  (forall a b, localeCompare a b <= 0 \/ localeCompare b a <= 0) ->
  filteredProps (filteredProps props searchQuery sortBy) searchQuery sortBy
  = filteredProps props searchQuery sortBy.
Proof.
  intros Htot. unfold filteredProps. cbv zeta.
  destruct (Js.truthy searchQuery), sortBy;
    rewrite ?sorted_all_match; apply sort_idempotent;
    first [ intros a b; apply Htot | apply byBestOdds_total ].
Qed.

(** X10.  Searching narrows the sorted list without reordering it: the
    result for a query is the result for the empty query with the props
    that do not match left out.  The case mapping of the host is taken to
    lower the empty text, and no other, to the empty text. *)
Theorem search_keeps_order (props : list PlayerProp.t)
    (searchQuery : string) (sortBy : SortBy) :
  toLowerCase "" = "" ->
  (forall s, toLowerCase s = "" -> s = "") ->
  (forall a b, localeCompare a b <= 0 \/ localeCompare b a <= 0) ->
  (forall a b c,
     localeCompare a b <= 0 -> localeCompare b c <= 0 ->
     localeCompare a c <= 0) ->
  filteredProps props searchQuery sortBy
  = filter (fun p => ciIncludes searchQuery (PlayerProp.player p)
                     || ciIncludes searchQuery (PlayerProp.team p))%bool
      (filteredProps props "" sortBy).
Proof.
  intros Hempty Hnonempty Htot Htrans. unfold filteredProps. cbv zeta.
  rewrite (filtered_ci _ _ Hempty Hnonempty).
  cbn [Js.truthy String.eqb negb].
  destruct sortBy; apply sort_filter.
  - intros a b. apply Htot.
  - intros a b c. apply Htrans.
  - apply byBestOdds_total.
  - unfold byBestOdds. intros a b c. lia.
Qed.

(** X11.  The sort by best odds is stable: the props of one best "Over"
    price stay in the order they had, and so do all props when no bookmaker
    prices any of them. *)
Theorem best_odds_ties_keep_order (props : list PlayerProp.t) (k : Z) :
  filter (fun p => bestOverOdds p =? k)
    (filteredProps props "" SortByBestOdds)
  = filter (fun p => bestOverOdds p =? k) props
  /\ ((forall p, In p props -> bestOverOdds p = k) ->
      filteredProps props "" SortByBestOdds = props).
Proof.
  unfold filteredProps. cbv zeta. cbn [Js.truthy String.eqb negb].
  assert (Hst : forall k' l,
            filter (fun p => - bestOverOdds p =? k') (Js.sort byBestOdds l)
            = filter (fun p => - bestOverOdds p =? k') l).
  { intros k' l. apply (sort_stable byBestOdds (fun p => - bestOverOdds p)).
    intros a b. unfold byBestOdds. lia. }
  assert (Hk : forall l,
            filter (fun p => bestOverOdds p =? k) l
            = filter (fun p => - bestOverOdds p =? - k) l).
  { intros l. apply filter_ext. intros p.
    destruct (Z.eqb_spec (bestOverOdds p) k),
      (Z.eqb_spec (- bestOverOdds p) (- k)); try reflexivity; lia. }
  split.
  - now rewrite !Hk, Hst.
  - intros Hall.
    assert (Hsame : forall l,
              (forall p, In p l -> bestOverOdds p = k) ->
              filter (fun p => bestOverOdds p =? k) l = l).
    { intros l Hl. apply filter_every. intros p Hp.
      apply Z.eqb_eq. now apply Hl. }
    rewrite <- (Hsame (Js.sort byBestOdds props)).
    + rewrite Hk, Hst, <- Hk. now apply Hsame.
    + intros p Hp. apply sort_In in Hp. now apply Hall.
Qed.

(** ** Properties of the lines and highlights of the table *)

Lemma addLine_fold (xs acc : list Z) :
  NoDup acc ->
  NoDup (fold_left addLine xs acc)
  /\ forall x, In x (fold_left addLine xs acc) <-> In x acc \/ In x xs.
Proof.
  revert acc. induction xs as [|y xs IH]; intros acc Hnd; cbn [fold_left].
  - split; [exact Hnd|]. intros x. simpl. params_tauto.
  - unfold addLine at 2 4.
    destruct (existsb (Z.eqb y) acc) eqn:E.
    + destruct (IH acc Hnd) as [H1 H2]. split; [exact H1|].
      intros x. rewrite H2. simpl. split; [intros [H|H]; auto|].
      intros [H|[<-|H]]; auto. left.
      apply existsb_exists in E. destruct E as [z [Hz Hyz]].
      apply Z.eqb_eq in Hyz. now subst.
    + assert (Hnd' : NoDup (acc ++ [y])).
      { apply NoDup_app; [exact Hnd | repeat constructor; easy |].
        intros a Ha [Heq|[]]. subst a.
        assert (Hc : existsb (Z.eqb y) acc = true).
        { apply existsb_exists. exists y. split; [exact Ha|].
          apply Z.eqb_refl. }
        congruence. }
      destruct (IH (acc ++ [y]) Hnd') as [H1 H2]. split; [exact H1|].
      intros x. rewrite H2, in_app_iff. simpl. split.
      * intros [[H|[<-|[]]]|H]; auto.
      * intros [H|[<-|H]]; auto.
Qed.

Lemma allLines_fold (k : string) (bs : list Bookmaker.t) (acc : list Z) :
  NoDup acc ->
  let lines :=
    fold_left
      (fun lines bookmaker =>
         match findMarket k (Bookmaker.markets bookmaker) with
         | Some market =>
             fold_left addLine
               (List.map Outcome.point (Market.outcomes market)) lines
         | None => lines
         end) bs acc in
  NoDup lines
  /\ forall x,
       In x lines
       <-> In x acc
           \/ exists b m o,
                In b bs /\ findMarket k (Bookmaker.markets b) = Some m
                /\ In o (Market.outcomes m) /\ Outcome.point o = x.
Proof.
  cbv zeta. revert acc. induction bs as [|b bs IH]; intros acc Hnd;
    cbn [fold_left].
  - split; [exact Hnd|]. intros x. split; [now left|].
    intros [H|(b & m & o & [] & _)]. exact H.
  - destruct (findMarket k (Bookmaker.markets b)) as [m|] eqn:F.
    + destruct (addLine_fold (List.map Outcome.point (Market.outcomes m))
                  acc Hnd) as [Hnd' Hin'].
      destruct (IH _ Hnd') as [H1 H2]. split; [exact H1|].
      intros x. rewrite H2, Hin'. split.
      * intros [[H|H]|(b' & m' & o & Hb & Hf & Ho & Hp)].
        -- now left.
        -- right. apply in_map_iff in H. destruct H as [o [Hp Ho]].
           exists b, m, o. repeat split; auto. now left.
        -- right. exists b', m', o. repeat split; auto. now right.
      * intros [H|(b' & m' & o & [<-|Hb] & Hf & Ho & Hp)].
        -- left. now left.
        -- left. right. rewrite F in Hf. injection Hf as <-.
           apply in_map_iff. now exists o.
        -- right. exists b', m', o. auto.
    + destruct (IH _ Hnd) as [H1 H2]. split; [exact H1|].
      intros x. rewrite H2. split.
      * intros [H|(b' & m' & o & Hb & Hf & Ho & Hp)]; [now left|].
        right. exists b', m', o. repeat split; auto. now right.
      * intros [H|(b' & m' & o & [<-|Hb] & Hf & Ho & Hp)]; [now left| |].
        -- congruence.
        -- right. exists b', m', o. auto.
Qed.

Lemma strictly_sorted (l : list Z) :
  StronglySorted Z.le l -> NoDup l -> StronglySorted Z.lt l.
Proof.
  induction 1 as [|x l Hs IH Hall]; intros Hnd; constructor.
  - apply IH. now inversion Hnd.
  - inversion Hnd as [|? ? Hnotin _]; subst.
    rewrite Forall_forall in *. intros y Hy.
    specialize (Hall y Hy). assert (x <> y) by (intros ->; auto). lia.
Qed.

Lemma find_on_map {B : Type} (g : Z -> B) (line : Z) (l : list Z) :
  find (fun kv => fst kv =? line) (List.map (fun x => (x, g x)) l)
  = if existsb (Z.eqb line) l then Some (line, g line) else None.
Proof.
  induction l as [|y l IH]; cbn [List.map find existsb fst]; [reflexivity|].
  rewrite (Z.eqb_sym line y).
  destruct (Z.eqb_spec y line) as [->|Hne]; [reflexivity|].
  cbn [orb]. exact IH.
Qed.

Lemma bestOddsAt_spec (prop : PlayerProp.t) (line : Z) :
  bestOddsAt prop line
  = if existsb (Z.eqb line) (sortedLines prop)
    then Some (bestForLine prop line) else None.
Proof.
  unfold bestOddsAt, bestOddsPerLine.
  rewrite (find_on_map (bestForLine prop)).
  now destruct (existsb (Z.eqb line) (sortedLines prop)).
Qed.

Lemma existsb_Zeqb (x : Z) (l : list Z) :
  existsb (Z.eqb x) l = true <-> In x l.
Proof.
  rewrite existsb_exists. split.
  - intros [y [Hy E]]. apply Z.eqb_eq in E. now subst.
  - intros H. exists x. split; [exact H | apply Z.eqb_refl].
Qed.

Lemma sortedLines_lines (prop : PlayerProp.t) :
  NoDup (allLines prop)
  /\ (forall x,
        In x (sortedLines prop)
        <-> exists b m o,
              In b (PlayerProp.bookmakers prop)
              /\ findMarket (marketKeyOf (PlayerProp.statType prop))
                   (Bookmaker.markets b) = Some m
              /\ In o (Market.outcomes m) /\ Outcome.point o = x).
Proof.
  destruct (allLines_fold (marketKeyOf (PlayerProp.statType prop))
              (PlayerProp.bookmakers prop) [] (NoDup_nil Z)) as [Hnd Hin].
  fold (allLines prop) in Hnd, Hin.
  split; [exact Hnd|].
  intros x. unfold sortedLines. rewrite sort_In, Hin.
  split; [intros [[]|H]; exact H | now right].
Qed.

(** X12.  The lines of a row of the table are the points on offer for the
    prop, each once, in strictly ascending order; and the map of best odds
    has an entry for exactly these lines. *)
Theorem sortedLines_spec (prop : PlayerProp.t) :
  StronglySorted Z.lt (sortedLines prop)
  /\ (forall x,
        In x (sortedLines prop)
        <-> exists b m o,
              In b (PlayerProp.bookmakers prop)
              /\ findMarket (marketKeyOf (PlayerProp.statType prop))
                   (Bookmaker.markets b) = Some m
              /\ In o (Market.outcomes m) /\ Outcome.point o = x)
  /\ (forall x,
        (In x (sortedLines prop) ->
         bestOddsAt prop x = Some (bestForLine prop x))
        /\ (~ In x (sortedLines prop) -> bestOddsAt prop x = None)).
Proof.
  destruct (allLines_fold (marketKeyOf (PlayerProp.statType prop))
              (PlayerProp.bookmakers prop) [] (NoDup_nil Z)) as [Hnd Hin].
  fold (allLines prop) in Hnd, Hin.
  split; [|split].
  - apply strictly_sorted.
    + apply (sort_by_key (fun x => x)). reflexivity.
    + apply (Permutation_NoDup (Permutation_sym (sort_perm Z.sub _)) Hnd).
  - intros x. unfold sortedLines. rewrite sort_In, Hin.
    split; [intros [[]|H]; exact H | now right].
  - intros x. rewrite bestOddsAt_spec.
    destruct (existsb (Z.eqb x) (sortedLines prop)) eqn:E.
    + split; [reflexivity|]. intros Hn. apply existsb_Zeqb in E.
      contradiction.
    + split; [|reflexivity]. intros H. apply existsb_Zeqb in H. congruence.
Qed.

Lemma prop_entries_wellformed (g : GameOdds.t) (p : PlayerProp.t) :
  In p (playerProps (Some g)) ->
  forall e, In e (PlayerProp.bookmakers p) ->
    exists b d outs,
      e = entry b outs /\ NoDupTriple outs
      /\ forall o, In o outs -> Outcome.description o = d.
Proof.
  intros Hp e He.
  destruct (prop_entry g p e Hp He) as (b & os & _ & Hos & ->).
  destruct (group_facts _ _ _ Hos) as (Hnd & Hfrom & _).
  exists b, (Some (PlayerProp.player p)), (Js.sort byPoint os).
  split; [reflexivity|]. split; [now apply sort_NoDupTriple|].
  intros o Ho. apply sort_In in Ho. now apply attributed_truthy, Hfrom.
Qed.

Lemma bestForLine_maximum (g : GameOdds.t) (p : PlayerProp.t) (line : Z) :
  marketKeyOf statType = standardMarketKey ->
  In p (playerProps (Some g)) ->
  BestPerLine.over (bestForLine p line) = maximum (pricesAt p "Over" line)
  /\ BestPerLine.under (bestForLine p line)
     = maximum (pricesAt p "Under" line).
Proof.
  intros Hkey Hp. destruct (playerProps_ok g) as (_ & _ & Hps).
  destruct (Hps p Hp) as (_ & Hstat & _).
  unfold bestForLine. rewrite Hstat, Hkey.
  exact (best_fold line (PlayerProp.bookmakers p)
           (BestPerLine.mk Js.NegInfinity Js.NegInfinity)
           (prop_entries_wellformed g p Hp)).
Qed.

Lemma sameNum_eq (a b : Js.Num) : sameNum a b = true <-> a = b.
Proof.
  destruct a as [|x], b as [|y]; simpl; try (split; congruence).
  rewrite Z.eqb_eq. split; congruence.
Qed.

Lemma find_by_key {A : Type} (f : A -> string) (l : list A) (e : A) :
  NoDup (List.map f l) -> In e l ->
  find (fun b => String.eqb (f b) (f e)) l = Some e.
Proof.
  induction l as [|x l IH]; simpl; intros Hnd He; [destruct He|].
  inversion Hnd as [|? ? Hnotin Hnd']; subst.
  destruct He as [->|He].
  - now rewrite String.eqb_refl.
  - destruct (String.eqb_spec (f x) (f e)) as [E|_]; [|auto].
    exfalso. apply Hnotin. rewrite E. now apply in_map.
Qed.

(** The cell of a bookmaker entry of a prop, for a side and a line. *)
Lemma cell_of_entry (g : GameOdds.t) (p : PlayerProp.t) (e : Bookmaker.t)
    (m : Market.t) (o : Outcome.t) (side : string) (line : Z) :
  marketKeyOf statType = standardMarketKey ->
  NoDup (List.map Bookmaker.key (GameOdds.bookmakers g)) ->
  In p (playerProps (Some g)) -> In e (PlayerProp.bookmakers p) ->
  In m (Bookmaker.markets e) -> In o (Market.outcomes m) ->
  atLine side line o = true ->
  cellOutcome p (Bookmaker.key e) side line = Some o.
Proof.
  intros Hkey Hnd Hp He Hm Ho Hat.
  destruct (playerProps_ok g) as (_ & _ & Hps).
  destruct (Hps p Hp) as (_ & Hstat & Hb & _).
  assert (Hkeys : NoDup (List.map Bookmaker.key (PlayerProp.bookmakers p))).
  { rewrite Hb. unfold turns. rewrite entries_keys.
    now apply NoDup_map_filter. }
  unfold cellOutcome. rewrite (find_by_key Bookmaker.key _ e Hkeys He).
  rewrite Hstat, Hkey.
  destruct (prop_entries_wellformed g p Hp e He)
    as (b & d & outs & -> & Hndt & Hd).
  destruct Hm as [<-|[]]. cbn [Market.outcomes] in Ho.
  unfold findMarket, entry.
  cbn [Bookmaker.markets find Market.key]. rewrite String.eqb_refl.
  cbn [Market.outcomes].
  assert (Hf := at_most_one side line d outs Hndt Hd).
  assert (Hin : In o (filter (atLine side line) outs))
    by (apply filter_In; auto).
  destruct (find (atLine side line) outs) as [o'|]; rewrite Hf in Hin.
  - destruct Hin as [->|[]]. reflexivity.
  - destruct Hin.
Qed.

(** X13.  The highlight of the table.  A highlighted "Over" cell shows a
    price that no bookmaker entry of the prop beats at that line; and, the
    bookmakers of the payload having distinct keys, whenever some entry
    offers "Over" at a line, the cell of at least one entry is highlighted.
    The same holds of "Under". *)
Theorem highlight_is_best (g : GameOdds.t) (p : PlayerProp.t) (line : Z) :
  marketKeyOf statType = standardMarketKey ->
  NoDup (List.map Bookmaker.key (GameOdds.bookmakers g)) ->
  In p (playerProps (Some g)) ->
  (forall bookmaker,
     isOverBest p bookmaker line = true ->
     exists o,
       cellOutcome p bookmaker "Over" line = Some o
       /\ forall x, In x (pricesAt p "Over" line) -> x <= Outcome.price o)
  /\ (forall bookmaker,
        isUnderBest p bookmaker line = true ->
        exists o,
          cellOutcome p bookmaker "Under" line = Some o
          /\ forall x, In x (pricesAt p "Under" line) ->
               x <= Outcome.price o)
  /\ (pricesAt p "Over" line <> [] ->
      exists e, In e (PlayerProp.bookmakers p)
                /\ isOverBest p (Bookmaker.key e) line = true)
  /\ (pricesAt p "Under" line <> [] ->
      exists e, In e (PlayerProp.bookmakers p)
                /\ isUnderBest p (Bookmaker.key e) line = true).
Proof.
  intros Hkey Hnd Hp.
  destruct (bestForLine_maximum g p line Hkey Hp) as [Eo Eu].
  assert (Hat : forall bestOdds,
            bestOddsAt p line = Some bestOdds ->
            bestOdds = bestForLine p line).
  { intros bestOdds H. rewrite bestOddsAt_spec in H.
    destruct (existsb (Z.eqb line) (sortedLines p)); congruence. }
  assert (Hsound : forall side best o,
            best = maximum (pricesAt p side line) ->
            Js.Fin (Outcome.price o) = best ->
            forall x, In x (pricesAt p side line) -> x <= Outcome.price o).
  { intros side best o -> Hbest x Hx.
    destruct (maximum_spec (pricesAt p side line)) as [Hle _].
    specialize (Hle x Hx). rewrite <- Hbest in Hle. exact Hle. }
  assert (Hcomplete : forall side,
            pricesAt p side line <> [] ->
            exists e o,
              In e (PlayerProp.bookmakers p)
              /\ cellOutcome p (Bookmaker.key e) side line = Some o
              /\ Js.Fin (Outcome.price o) = maximum (pricesAt p side line)
              /\ In line (sortedLines p)).
  { intros side Hne.
    destruct (maximum_spec (pricesAt p side line)) as [_ [[Hnil _]|Hex]];
      [contradiction|].
    destruct Hex as [x [Hx Hmax]]. unfold pricesAt in Hx.
    apply in_map_iff in Hx. destruct Hx as [o [Hprice Ho]].
    apply filter_In in Ho. destruct Ho as [Ho Hatl].
    unfold outcomesOfProp in Ho. apply in_flat_map in Ho.
    destruct Ho as [e [He Ho]]. apply in_flat_map in Ho.
    destruct Ho as [m [Hm Ho]].
    exists e, o. split; [exact He|]. split.
    - exact (cell_of_entry g p e m o side line Hkey Hnd Hp He Hm Ho Hatl).
    - split; [now rewrite Hprice, Hmax|].
      apply (proj2 (sortedLines_lines p) line).
      destruct (playerProps_ok g) as (_ & _ & Hps).
      destruct (Hps p Hp) as (_ & Hstat & _).
      destruct (prop_entries_wellformed g p Hp e He)
        as (b & d & outs & -> & _).
      destruct Hm as [<-|[]].
      exists (entry b outs), (Market.mk standardMarketKey outs), o.
      split; [exact He|]. split.
      + rewrite Hstat, Hkey. unfold findMarket, entry.
        cbn [Bookmaker.markets find Market.key].
        now rewrite String.eqb_refl.
      + split; [exact Ho|]. unfold atLine in Hatl.
        apply andb_true_iff in Hatl. now apply Z.eqb_eq, Hatl. }
  split; [|split; [|split]].
  - intros bookmaker H. unfold isOverBest in H.
    destruct (cellOutcome p bookmaker "Over" line) as [o|]; [|discriminate].
    destruct (bestOddsAt p line) as [bestOdds|] eqn:B; [|discriminate].
    apply sameNum_eq in H. rewrite (Hat _ eq_refl), Eo in H.
    exists o. split; [reflexivity|]. now apply (Hsound "Over" _ o eq_refl).
  - intros bookmaker H. unfold isUnderBest in H.
    destruct (cellOutcome p bookmaker "Under" line) as [o|]; [|discriminate].
    destruct (bestOddsAt p line) as [bestOdds|] eqn:B; [|discriminate].
    apply sameNum_eq in H. rewrite (Hat _ eq_refl), Eu in H.
    exists o. split; [reflexivity|]. now apply (Hsound "Under" _ o eq_refl).
  - intros Hne. destruct (Hcomplete "Over" Hne) as (e & o & He & Hc & Hm & Hl).
    exists e. split; [exact He|]. unfold isOverBest.
    rewrite Hc, bestOddsAt_spec, (proj2 (existsb_Zeqb line _) Hl), Eo.
    now apply sameNum_eq.
  - intros Hne.
    destruct (Hcomplete "Under" Hne) as (e & o & He & Hc & Hm & Hl).
    exists e. split; [exact He|]. unfold isUnderBest.
    rewrite Hc, bestOddsAt_spec, (proj2 (existsb_Zeqb line _) Hl), Eu.
    now apply sameNum_eq.
Qed.

(** ** Properties of the navigation and of the stat types *)

Lemma currentPlayer_defined (shown : list PlayerProp.t) (i : Z) :
  currentPlayer shown i <> None <-> 0 <= i < Z.of_nat (List.length shown).
Proof.
  unfold currentPlayer. destruct (Z.ltb_spec i 0) as [Hneg|Hpos].
  - split; [congruence | lia].
  - rewrite nth_error_Some. lia.
Qed.

(** X14.  The card navigation stays on the list: from an index that shows a
    player, [nextPlayer] and [prevPlayer] lead to an index that shows a
    player; they stop at the last and the first player, and elsewhere each
    undoes the other. *)
Theorem navigation_stays_in_range (shown : list PlayerProp.t) (i : Z) :
  currentPlayer shown i <> None ->
  currentPlayer shown (nextPlayer shown i) <> None
  /\ currentPlayer shown (prevPlayer i) <> None
  /\ (i = Z.of_nat (List.length shown) - 1 -> nextPlayer shown i = i)
  /\ (i = 0 -> prevPlayer i = i)
  /\ (i < Z.of_nat (List.length shown) - 1 ->
      nextPlayer shown i = i + 1 /\ prevPlayer (nextPlayer shown i) = i)
  /\ (0 < i ->
      prevPlayer i = i - 1 /\ nextPlayer shown (prevPlayer i) = i).
Proof.
  rewrite !currentPlayer_defined. unfold nextPlayer, prevPlayer.
  intros Hi.
  destruct (Z.ltb_spec i (Z.of_nat (List.length shown) - 1)),
    (Z.ltb_spec 0 i);
    repeat split; intros;
    repeat match goal with
           | |- context [?a <? ?b] => destruct (Z.ltb_spec a b)
           end; lia.
Qed.

Lemma not_both_prefixes (s : string) :
  startsWith s "batter_" = true -> startsWith s "pitcher_" = true -> False.
Proof.
  unfold startsWith. destruct s as [|c s]; [discriminate|].
  rewrite !prefix_cons, !andb_true_iff.
  intros [Hb _] [Hp _]. apply Ascii.eqb_eq in Hb, Hp. congruence.
Qed.

(** X15.  For baseball the stat types on offer are the markets of the sport
    whose API key starts with the player type, letter case apart, in the
    order of the markets; no market is offered for both player types.  For
    any other sport every market is on offer. *)
Theorem statTypes_by_player_type (playerType : PlayerType) :
  (sport <> "baseball_mlb" -> statTypes playerType = getMarketsForSport sport)
  /\ (sport = "baseball_mlb" ->
      statTypes playerType
      = filter
          (fun m =>
             startsWith (Js.toLowerCase (MarketOption.apiKey m))
               match playerType with
               | Pitcher => "pitcher_"
               | Batter => "batter_"
               end)
          (getMarketsForSport sport))
  /\ incl (statTypes playerType) (getMarketsForSport sport)
  /\ (sport = "baseball_mlb" ->
      forall m, In m (statTypes Batter) -> ~ In m (statTypes Pitcher)).
Proof.
  unfold statTypes. cbv zeta.
  destruct (String.eqb_spec sport "baseball_mlb") as [Heq|Hne].
  - split; [contradiction|]. split; [|split].
    + intros _. apply filter_ext. intros m. now destruct playerType.
    + intros m Hm. now apply filter_In in Hm.
    + intros _ m Hb Hp. apply filter_In in Hb, Hp.
      destruct Hb as [_ Hb], Hp as [_ Hp].
      exact (not_both_prefixes _ Hb Hp).
  - split; [reflexivity|]. split; [contradiction|]. split.
    + apply incl_refl.
    + contradiction.
Qed.

Lemma statTypes_incl (playerType : PlayerType) :
  incl (statTypes playerType) (getMarketsForSport sport).
Proof.
  unfold statTypes. cbv zeta.
  destruct (String.eqb sport "baseball_mlb"); [|apply incl_refl].
  intros m Hm. now apply filter_In in Hm.
Qed.

(** X16.  The effect that follows the player type, for baseball: a stat type
    that is the value of a market on offer is kept; any other gives way to
    the value of the first market on offer, and stays only when nothing is
    on offer.  So with something on offer the stat type left is the value
    of a market on offer, and [currentMarket] finds for it a market of the
    sport with that value.  For another sport the stat type is kept.
    Running the effect again changes nothing. *)
Theorem updateStatType_valid (playerType : PlayerType) (st : string) :
  let st' := updateStatType playerType st in
  let onOffer (s : string) :=
    exists m, In m (statTypes playerType) /\ MarketOption.value m = s in
  (onOffer st -> st' = st)
  /\ (sport = "baseball_mlb" -> ~ onOffer st ->
      forall first rest,
        statTypes playerType = first :: rest ->
        st' = MarketOption.value first)
  /\ (statTypes playerType = [] -> st' = st)
  /\ (sport = "baseball_mlb" -> statTypes playerType <> [] ->
      onOffer st'
      /\ exists m,
           currentMarket st' = Some m
           /\ MarketOption.value m = st'
           /\ In m (getMarketsForSport sport))
  /\ (sport <> "baseball_mlb" -> st' = st)
  /\ updateStatType playerType st' = st'.
Proof.
  cbv zeta.
  assert (Hkeep : forall s,
            (exists m, In m (statTypes playerType)
                       /\ MarketOption.value m = s) ->
            updateStatType playerType s = s).
  { intros s [m [Hm Hv]]. unfold updateStatType.
    destruct (String.eqb sport "baseball_mlb"); [|reflexivity].
    destruct (find (fun market => String.eqb (MarketOption.value market) s)
                (statTypes playerType)) eqn:F; [reflexivity|].
    apply (find_none _ _ F) in Hm. apply String.eqb_neq in Hm.
    contradiction. }
  assert (Hvalid : sport = "baseball_mlb" -> statTypes playerType <> [] ->
            exists m, In m (statTypes playerType)
                      /\ MarketOption.value m = updateStatType playerType st).
  { intros Hs Hne. unfold updateStatType.
    rewrite (proj2 (String.eqb_eq _ _) Hs).
    destruct (find (fun market => String.eqb (MarketOption.value market) st)
                (statTypes playerType)) as [m|] eqn:F.
    - apply find_some in F. destruct F as [Hm Hv].
      apply String.eqb_eq in Hv. eauto.
    - destruct (statTypes playerType) as [|first rest]; [congruence|].
      exists first. split; [now left | reflexivity]. }
  split; [apply Hkeep|]. split; [|split; [|split; [|split]]].
  - intros Hs Hno first rest E. unfold updateStatType.
    rewrite (proj2 (String.eqb_eq _ _) Hs).
    destruct (find (fun market => String.eqb (MarketOption.value market) st)
                (statTypes playerType)) as [m|] eqn:F.
    + exfalso. apply Hno. apply find_some in F. destruct F as [Hm Hv].
      apply String.eqb_eq in Hv. eauto.
    + now rewrite E.
  - intros E. unfold updateStatType. rewrite E.
    now destruct (String.eqb sport "baseball_mlb").
  - intros Hs Hne. destruct (Hvalid Hs Hne) as [m [Hm Hv]].
    split; [eauto|]. unfold currentMarket.
    destruct (find
                (fun m0 => String.eqb (MarketOption.value m0)
                             (updateStatType playerType st))
                (getMarketsForSport sport)) as [m1|] eqn:F.
    + exists m1. apply find_some in F. destruct F as [Hin Hval].
      apply String.eqb_eq in Hval. auto.
    + exfalso. apply statTypes_incl in Hm.
      apply (find_none _ _ F) in Hm. apply String.eqb_neq in Hm.
      contradiction.
  - intros Hs. unfold updateStatType.
    now rewrite (proj2 (String.eqb_neq _ _) Hs).
  - destruct (String.eqb_spec sport "baseball_mlb") as [Hs|Hs].
    + destruct (statTypes playerType) as [|first rest] eqn:E.
      * unfold updateStatType. rewrite E.
        destruct (String.eqb sport "baseball_mlb"); reflexivity.
      * apply Hkeep. apply (Hvalid Hs). discriminate.
    + unfold updateStatType.
      now rewrite (proj2 (String.eqb_neq _ _) Hs).
Qed.

(** ** The combination followed by the regrouping *)

Lemma append_assoc (a b c : string) :
  String.append (String.append a b) c = String.append a (String.append b c).
Proof. induction a; simpl; congruence. Qed.

Lemma includes_alternate_suffix (k : string) :
  Js.includes (String.append k "_alternate") "alternate" = true.
Proof.
  apply includes_iff. exists (String.append k "_"), "".
  now rewrite append_assoc.
Qed.

Lemma no_alternate_inside (k : string) :
  Js.includes k "alternate" = false -> Js.includes k "_alternate" = false.
Proof.
  intros H. apply not_true_is_false. intros Hc. apply includes_iff in Hc.
  destruct Hc as [pre [post Hk]].
  assert (Hin : Js.includes k "alternate" = true).
  { apply includes_iff. exists (String.append pre "_"), post.
    rewrite Hk, append_assoc. reflexivity. }
  congruence.
Qed.

Lemma find_hd {A : Type} (f : A -> bool) (l : list A) :
  find f l = hd_error (filter f l).
Proof.
  induction l as [|x l IH]; simpl; [reflexivity|].
  now destruct (f x).
Qed.

Lemma find_never {A : Type} (f : A -> bool) (l : list A) :
  (forall x, In x l -> f x = false) -> find f l = None.
Proof.
  induction l as [|x l IH]; simpl; intros H; [reflexivity|].
  rewrite (H x (or_introl eq_refl)). apply IH. intros y Hy. apply H.
  now right.
Qed.

Lemma find_all {A : Type} (f : A -> bool) (l : list A) :
  (forall x, In x l -> f x = true) -> find f l = hd_error l.
Proof.
  destruct l as [|x l]; simpl; intros H; [reflexivity|].
  now rewrite (H x (or_introl eq_refl)).
Qed.

Lemma playersOf_triples (l l' : list Outcome.t) (d : string) :
  (forall o, In o l -> In (triple o) (List.map triple l')) ->
  In d (playersOf l) -> In d (playersOf l').
Proof.
  intros Hsub Hd. apply playersOf_In in Hd. destruct Hd as [o [Ho Hatt]].
  apply Hsub in Ho. apply in_map_iff in Ho. destruct Ho as [o' [Ht Ho']].
  apply playersOf_In. exists o'. split; [exact Ho'|].
  destruct (triple_name _ _ Ht) as (_ & _ & Hd).
  unfold attributed in *. now rewrite Hd.
Qed.

Section TwoMarkets.

(** The vocabulary of the request: the alternate key is the standard key
    followed by ["_alternate"], and the standard key holds no
    ["alternate"]. *)
Hypothesis alternate_key :
  alternateMarketKey = String.append standardMarketKey "_alternate".
Hypothesis standard_key : Js.includes standardMarketKey "alternate" = false.

Lemma keys_differ : alternateMarketKey <> standardMarketKey.
Proof using alternate_key standard_key.
  intros Hc.
  assert (H := includes_alternate_suffix standardMarketKey).
  rewrite <- alternate_key, Hc in H. congruence.
Qed.

Lemma market_kind (m : Market.t) :
  (Market.key m = standardMarketKey -> isAlternate m = false)
  /\ (Market.key m = alternateMarketKey ->
      isAlternate m = true /\ standardKeyOf m = standardMarketKey).
Proof using alternate_key standard_key.
  unfold isAlternate, standardKeyOf. split.
  - intros ->. exact standard_key.
  - intros ->. rewrite alternate_key. split.
    + apply includes_alternate_suffix.
    + apply replace_alternate_suffix. now apply no_alternate_inside.
Qed.

Lemma standardMarkets_asked (b : Bookmaker.t) :
  AskedFor b ->
  standardMarkets b
  = filter (fun m => String.eqb (Market.key m) standardMarketKey)
      (Bookmaker.markets b)
  /\ alternateMarkets b
     = filter (fun m => String.eqb (Market.key m) alternateMarketKey)
         (Bookmaker.markets b).
Proof using alternate_key standard_key.
  intros Hb. unfold standardMarkets, alternateMarkets.
  split; apply filter_ext_in; intros m Hm;
    destruct (Hb m Hm) as [Hk|Hk];
    destruct (market_kind m) as [Hs Ha].
  - rewrite (Hs Hk), Hk, String.eqb_refl. reflexivity.
  - destruct (Ha Hk) as [-> _]. rewrite Hk.
    symmetry. apply String.eqb_neq, keys_differ.
  - rewrite (Hs Hk), Hk. symmetry. apply String.eqb_neq.
    intros Hc. now apply keys_differ.
  - destruct (Ha Hk) as [-> _]. rewrite Hk, String.eqb_refl. reflexivity.
Qed.

Lemma combined_players (b : Bookmaker.t) (d : string) :
  AskedFor b ->
  In d (playersOf (selectedOutcomes (combineMarkets b)))
  <-> In d (playersOf (selectedOutcomes b)).
Proof using alternate_key standard_key.
  intros Hb. destruct (standardMarkets_asked b Hb) as [Es Ea].
  assert (Hstd : forall m, In m (standardMarkets b) ->
            Market.key m = standardMarketKey).
  { intros m Hm. rewrite Es in Hm. apply filter_In in Hm.
    now apply String.eqb_eq, Hm. }
  assert (Halt : forall m, In m (alternateMarkets b) ->
            Market.key m = alternateMarketKey).
  { intros m Hm. rewrite Ea in Hm. apply filter_In in Hm.
    now apply String.eqb_eq, Hm. }
  assert (Hraw : selectedOutcomes b
                 = outcomesOrNone (hd_error (standardMarkets b))
                   ++ outcomesOrNone (hd_error (alternateMarkets b))).
  { unfold selectedOutcomes, allOutcomes, findMarket.
    rewrite !find_hd, <- Es, <- Ea.
    now destruct (hd_error (standardMarkets b)),
      (hd_error (alternateMarkets b)). }
  assert (Hcomb : forall ms,
            (forall m, In m ms -> Market.key m = standardMarketKey) ->
            match allOutcomes
                    (Bookmaker.mk (Bookmaker.key b) (Bookmaker.title b)
                       (Bookmaker.last_update b) ms) with
            | Some l => l
            | None => []
            end = outcomesOrNone (hd_error ms)).
  { intros ms Hms. unfold allOutcomes, findMarket.
    cbn [Bookmaker.markets].
    rewrite (find_all _ ms)
      by (intros m Hm; rewrite (Hms m Hm); apply String.eqb_refl).
    rewrite (find_never _ ms).
    - destruct (hd_error ms); cbn [outcomesOrNone]; [apply app_nil_r|].
      reflexivity.
    - intros m Hm. rewrite (Hms m Hm). apply String.eqb_neq.
      intros Hc. now apply keys_differ. }
  rewrite Hraw. unfold selectedOutcomes, combineMarkets.
  destruct (Nat.eqb (List.length (standardMarkets b)) 0
            && Nat.ltb 0 (List.length (alternateMarkets b)))%bool eqn:G.
  - (* promotion *)
    apply promotion_guard in G. destruct G as [Gs Ga].
    rewrite Hcomb, Gs.
    + destruct (alternateMarkets b) as [|a alts]; [congruence|].
      reflexivity.
    + intros m Hm. apply in_map_iff in Hm. destruct Hm as [a [<- Ha]].
      cbn [promote Market.key].
      now apply (market_kind a), Halt.
  - (* merge *)
    rewrite Hcomb.
    + destruct (standardMarkets b) as [|s stds] eqn:S.
      * destruct (alternateMarkets b) as [|a alts] eqn:A; [reflexivity|].
        exfalso. rewrite <- not_true_iff_false in G. apply G.
        rewrite <- S, <- A. apply promotion_guard.
        rewrite S, A. split; [reflexivity | discriminate].
      * cbn [List.map hd_error outcomesOrNone]. unfold mergeMarket.
        unfold findAlternate. rewrite find_all.
        -- destruct (alternateMarkets b) as [|a alts];
             cbn [hd_error outcomesOrNone Market.outcomes].
           ++ now rewrite app_nil_r.
           ++ destruct (mergeOutcomes_spec (Market.outcomes s)
                          (Market.outcomes a))
                as (added & Hperm & Hincl & _ & _ & Hall).
              split; apply playersOf_triples.
              ** intros o Ho. apply in_map.
                 apply (Permutation_in _ Hperm) in Ho.
                 apply in_app_iff in Ho. apply in_app_iff.
                 destruct Ho as [Ho|Ho]; [now left | right; auto].
              ** intros o Ho. apply in_app_iff in Ho.
                 destruct Ho as [Ho|Ho]; [|now apply Hall].
                 apply in_map.
                 apply (Permutation_in _ (Permutation_sym Hperm)).
                 apply in_app_iff. now left.
        -- intros m Hm. rewrite (Hstd s (or_introl eq_refl)).
           apply String.eqb_eq. now apply (market_kind m), Halt.
    + intros m Hm. apply in_map_iff in Hm. destruct Hm as [s [<- Hs]].
      rewrite mergeMarket_key. now apply Hstd.
Qed.

(** X22.  Combining the markets at fetch time does not change who gets a
    prop: for a response that holds the two markets asked for, the props of
    the combined payload are for the same players as the props of the
    response itself, and as many. *)
Theorem combination_keeps_players (responseData : GameOdds.t) :
  (forall b, In b (GameOdds.bookmakers responseData) -> AskedFor b) ->
  (forall d,
     In d (List.map PlayerProp.player
             (playerProps (Some (combineResponse responseData))))
     <-> In d (List.map PlayerProp.player
                 (playerProps (Some responseData))))
  /\ List.length (playerProps (Some (combineResponse responseData)))
     = List.length (playerProps (Some responseData)).
Proof using alternate_key standard_key.
  intros Hasked.
  assert (Hsame : forall d,
            In d (List.map PlayerProp.player
                    (playerProps (Some (combineResponse responseData))))
            <-> In d (List.map PlayerProp.player
                        (playerProps (Some responseData)))).
  { intros d. rewrite !players_descriptions. unfold descriptions.
    cbn [combineResponse GameOdds.bookmakers].
    rewrite !in_flat_map. split.
    - intros [b' [Hb' Hd]]. apply in_map_iff in Hb'.
      destruct Hb' as [b [<- Hb]]. exists b. split; [exact Hb|].
      now apply (combined_players b d (Hasked b Hb)).
    - intros [b [Hb Hd]]. exists (combineMarkets b).
      split; [now apply in_map|].
      now apply (combined_players b d (Hasked b Hb)). }
  split; [exact Hsame|].
  rewrite <- !(length_map PlayerProp.player).
  apply Permutation_length, NoDup_Permutation.
  - apply (playerProps_ok (combineResponse responseData)).
  - apply (playerProps_ok responseData).
  - exact Hsame.
Qed.

End TwoMarkets.

End PropComparisonTable.

(** ** The event selector *)

Lemma events_sorted (captured : option string) (data : list Event.t)
    (st : GameSelector.State) :
  GameSelector.events (GameSelector.fetchEvents captured data st)
  = Js.sort GameSelector.byCommenceTime data.
Proof.
  unfold GameSelector.fetchEvents. cbv zeta.
  destruct (Js.sort GameSelector.byCommenceTime data); [reflexivity|].
  now destruct (GameSelector.noneSelected captured).
Qed.

(** C9.  The automatic selection tests the selection of the rendering that
    started the request, not the state the events meet when they arrive.
    After a change of sport made while an event was selected, the reset has
    cleared the selection by then, and yet none of the events that arrive
    is selected: the list is the answer in ascending order of
    [commence_time], the state the answer meets has nothing selected, and
    afterwards no id is selected, no event is shown as selected, and the
    last call of [onGameSelect] is the one of the reset, with the empty
    id. *)
Theorem sport_change_selects_nothing (data : list Event.t)
    (st : GameSelector.State) :
  GameSelector.noneSelected (GameSelector.selectedEventId st) = false ->
  let st' := GameSelector.sportEffects data st in
  Permutation (GameSelector.events st') data
  /\ StronglySorted
       (fun a b => Event.commence_time a <= Event.commence_time b)
       (GameSelector.events st')
  /\ GameSelector.noneSelected
       (GameSelector.selectedEventId (GameSelector.resetSelection st)) = true
  /\ GameSelector.selectedEventId st' = None
  /\ GameSelector.selectedEvent st' = None
  /\ GameSelector.onGameSelect st' = Some "".
Proof.
  intros Hsel. cbv zeta. unfold GameSelector.sportEffects.
  split; [|split; [|split; [reflexivity|]]].
  - rewrite events_sorted. apply sort_perm.
  - rewrite events_sorted.
    apply (sort_by_key Event.commence_time). reflexivity.
  - assert (E : GameSelector.selectedEventId
                  (GameSelector.fetchEvents (GameSelector.selectedEventId st)
                     data (GameSelector.resetSelection st)) = None
                /\ GameSelector.onGameSelect
                     (GameSelector.fetchEvents
                        (GameSelector.selectedEventId st) data
                        (GameSelector.resetSelection st)) = Some "").
    { unfold GameSelector.fetchEvents. cbv zeta. rewrite Hsel.
      now destruct (Js.sort GameSelector.byCommenceTime data). }
    destruct E as [Eid Ecall]. split; [exact Eid|]. split; [|exact Ecall].
    unfold GameSelector.selectedEvent. now rewrite Eid.
Qed.

(** ** Further properties of the event selector *)

Lemma get_set {V : Type} (m : Js.Map V) (k k' : string) (v : V) :
  Js.get (Js.set m k v) k'
  = if String.eqb k k' then Some v else Js.get m k'.
Proof.
  induction m as [|[k0 v0] m IH]; simpl.
  - reflexivity.
  - destruct (String.eqb_spec k0 k) as [->|Hne]; simpl.
    + now destruct (String.eqb k k').
    + rewrite IH. destruct (String.eqb_spec k0 k') as [->|Hne'];
        [|reflexivity].
      destruct (String.eqb_spec k k'); [congruence | reflexivity].
Qed.

Section GroupingFacts.
Variable toDateString : Z -> string.

Lemma groupStep_get (groups : Js.Map (list Event.t)) (event : Event.t)
    (k : string) :
  Js.get (GameSelector.groupStep toDateString groups event) k
  = if String.eqb (toDateString (Event.commence_time event)) k
    then Some (match Js.get groups k with
               | Some es => es
               | None => []
               end ++ [event])
    else Js.get groups k.
Proof.
  unfold GameSelector.groupStep. cbv zeta.
  set (date := toDateString (Event.commence_time event)).
  destruct (Js.get groups date) as [es|] eqn:G.
  - rewrite G, get_set.
    destruct (String.eqb_spec date k) as [<-|_]; [now rewrite G|reflexivity].
  - rewrite get_set, String.eqb_refl, !get_set.
    destruct (String.eqb_spec date k) as [<-|_]; [now rewrite G|reflexivity].
Qed.

Lemma groupStep_keys (groups : Js.Map (list Event.t)) (event : Event.t) :
  Js.keys (GameSelector.groupStep toDateString groups event)
  = let date := toDateString (Event.commence_time event) in
    if existsb (String.eqb date) (Js.keys groups) then Js.keys groups
    else Js.keys groups ++ [date].
Proof.
  unfold GameSelector.groupStep. cbv zeta.
  set (date := toDateString (Event.commence_time event)).
  destruct (Js.get groups date) as [es|] eqn:G.
  - rewrite G. apply keys_set.
  - rewrite get_set, String.eqb_refl, !keys_set.
    assert (Hno : existsb (String.eqb date) (Js.keys groups) = false).
    { apply not_true_is_false. intros Hc. apply existsb_eqb in Hc.
      now apply get_none in G. }
    rewrite Hno.
    assert (Hyes : existsb (String.eqb date) (Js.keys groups ++ [date])
                   = true).
    { apply existsb_eqb, in_app_iff. right. now left. }
    now rewrite Hyes.
Qed.

Lemma groupedEvents_keys (events : list Event.t) :
  Js.keys (GameSelector.groupedEvents toDateString events)
  = firsts
      (List.map (fun e => toDateString (Event.commence_time e)) events).
Proof.
  unfold GameSelector.groupedEvents.
  induction events as [|e events IH] using rev_ind; [reflexivity|].
  rewrite fold_left_app, map_app. cbn [fold_left List.map].
  rewrite firsts_snoc, groupStep_keys. cbv zeta. now rewrite IH.
Qed.

Lemma groupedEvents_get (events : list Event.t) (k : string) :
  Js.get (GameSelector.groupedEvents toDateString events) k
  = match filter
            (fun e => String.eqb (toDateString (Event.commence_time e)) k)
            events with
    | [] => None
    | es => Some es
    end.
Proof.
  unfold GameSelector.groupedEvents.
  induction events as [|e events IH] using rev_ind; [reflexivity|].
  rewrite fold_left_app, filter_app. cbn [fold_left filter].
  rewrite groupStep_get, IH.
  destruct (String.eqb (toDateString (Event.commence_time e)) k).
  - destruct (filter
                (fun e0 =>
                   String.eqb (toDateString (Event.commence_time e0)) k)
                events); reflexivity.
  - now rewrite app_nil_r.
Qed.

Lemma firsts_NoDup (l : list string) : NoDup (firsts l).
Proof.
  induction l as [|x l IH] using rev_ind; [constructor|].
  rewrite firsts_snoc.
  destruct (existsb (String.eqb x) (firsts l)) eqn:E; [exact IH|].
  apply NoDup_app; [exact IH | repeat constructor; easy |].
  intros a Ha [Heq|[]]. subst a. apply existsb_eqb in Ha. congruence.
Qed.

(** X17.  The events are grouped by day: the keys of [groupedEvents] are the
    days of the events, each once, in the order in which they first occur;
    the group of a day holds exactly the events of that day, in the order of
    the list, so that every event is in the group of its day and in no
    other. *)
Theorem groupedEvents_by_day (events : list Event.t) :
  let groups := GameSelector.groupedEvents toDateString events in
  Js.keys groups
  = firsts (List.map (fun e => toDateString (Event.commence_time e)) events)
  /\ NoDup (Js.keys groups)
  /\ (forall k es,
        In (k, es) groups
        <-> es <> []
            /\ es = filter
                      (fun e =>
                         String.eqb (toDateString (Event.commence_time e)) k)
                      events)
  /\ (forall e, In e events ->
        exists es,
          Js.get groups (toDateString (Event.commence_time e)) = Some es
          /\ In e es).
Proof.
  cbv zeta.
  assert (Hnd : NoDup (Js.keys
                         (GameSelector.groupedEvents toDateString events))).
  { rewrite groupedEvents_keys. apply firsts_NoDup. }
  split; [apply groupedEvents_keys|]. split; [exact Hnd|]. split.
  - intros k es. rewrite <- (get_some _ k es Hnd), groupedEvents_get.
    destruct (filter
                (fun e => String.eqb (toDateString (Event.commence_time e)) k)
                events) as [|e0 l]; split.
    + discriminate.
    + intros [Hne ->]. congruence.
    + intros H. injection H as <-. split; [discriminate | reflexivity].
    + intros [_ ->]. reflexivity.
  - intros e He. rewrite groupedEvents_get.
    assert (Hin : In e (filter
                          (fun e0 =>
                             String.eqb
                               (toDateString (Event.commence_time e0))
                               (toDateString (Event.commence_time e)))
                          events)).
    { apply filter_In. split; [exact He | apply String.eqb_refl]. }
    destruct (filter
                (fun e0 =>
                   String.eqb (toDateString (Event.commence_time e0))
                     (toDateString (Event.commence_time e))) events)
      as [|e0 l]; [destruct Hin|].
    exists (e0 :: l). split; [reflexivity | exact Hin].
Qed.

End GroupingFacts.

(** X18.  What a request does to the selection.  The events are always the
    answer in ascending order of [commence_time].  A request started by a
    rendering that had an event selected, and any request answered by an
    empty list, leaves the selected id and the last call of [onGameSelect]
    as the answer finds them, whatever they are by then.  In every case the
    selected id is afterwards the one found or the id of the first event of
    the list. *)
Theorem fetchEvents_keeps_selection (captured : option string)
    (data : list Event.t) (st : GameSelector.State) :
  let st' := GameSelector.fetchEvents captured data st in
  Permutation (GameSelector.events st') data
  /\ StronglySorted
       (fun a b => Event.commence_time a <= Event.commence_time b)
       (GameSelector.events st')
  /\ (GameSelector.noneSelected captured = false \/ data = [] ->
      GameSelector.selectedEventId st' = GameSelector.selectedEventId st
      /\ GameSelector.onGameSelect st' = GameSelector.onGameSelect st)
  /\ (GameSelector.selectedEventId st' = GameSelector.selectedEventId st
      \/ exists e,
           hd_error (GameSelector.events st') = Some e
           /\ GameSelector.selectedEventId st' = Some (Event.id e)).
Proof.
  cbv zeta. rewrite !events_sorted.
  split; [apply sort_perm|].
  split; [apply (sort_by_key Event.commence_time); reflexivity|].
  unfold GameSelector.fetchEvents. cbv zeta. split.
  - intros [Hsel| ->].
    + rewrite Hsel.
      now destruct (Js.sort GameSelector.byCommenceTime data).
    + split; reflexivity.
  - destruct (Js.sort GameSelector.byCommenceTime data) as [|e rest];
      [now left|].
    destruct (GameSelector.noneSelected captured); [right|now left].
    exists e. split; reflexivity.
Qed.

(** X19.  Where the rendering that started the request had nothing selected,
    as at the mounting, and some event arrives, the first event of the
    sorted list is selected: it is an event of least [commence_time], its id
    is the selected id and the argument of [onGameSelect], and it is the
    event shown as selected, whether or not the ids are distinct. *)
Theorem selected_event_is_first (captured : option string)
    (data : list Event.t) (st : GameSelector.State) :
  GameSelector.noneSelected captured = true ->
  data <> [] ->
  let st' := GameSelector.fetchEvents captured data st in
  exists e,
    GameSelector.selectedEvent st' = Some e
    /\ hd_error (GameSelector.events st') = Some e
    /\ In e data
    /\ GameSelector.selectedEventId st' = Some (Event.id e)
    /\ GameSelector.onGameSelect st' = Some (Event.id e)
    /\ forall e', In e' data ->
         Event.commence_time e <= Event.commence_time e'.
Proof.
  intros Hnone Hdata. cbv zeta. unfold GameSelector.fetchEvents.
  assert (Hperm := sort_perm GameSelector.byCommenceTime data).
  assert (Hsorted := sort_by_key Event.commence_time
                       GameSelector.byCommenceTime data
                       (fun a b => eq_refl)).
  destruct (Js.sort GameSelector.byCommenceTime data) as [|e rest] eqn:E.
  - apply Permutation_nil in Hperm. contradiction.
  - rewrite Hnone. exists e. unfold GameSelector.selectedEvent.
    cbn [GameSelector.events GameSelector.selectedEventId
         GameSelector.onGameSelect hd_error find].
    rewrite String.eqb_refl.
    split; [reflexivity|]. split; [reflexivity|].
    split; [apply (Permutation_in _ Hperm); now left|].
    split; [reflexivity|]. split; [reflexivity|].
    intros e' He'. apply (Permutation_in _ (Permutation_sym Hperm)) in He'.
    destruct He' as [<-|He']; [lia|].
    inversion Hsorted as [|? ? _ Hall]; subst.
    rewrite Forall_forall in Hall. now apply Hall.
Qed.

(** X20.  Choosing an event of the list by hand selects it: with distinct
    ids the event shown is the chosen one, and an id of no event shows
    none.  The list itself is left as it is. *)
Theorem handleGameSelect_selects (st : GameSelector.State) :
  (forall e,
     NoDup (List.map Event.id (GameSelector.events st)) ->
     In e (GameSelector.events st) ->
     GameSelector.selectedEvent
       (GameSelector.handleGameSelect (Event.id e) st) = Some e)
  /\ (forall eventId,
        ~ In eventId (List.map Event.id (GameSelector.events st)) ->
        GameSelector.selectedEvent
          (GameSelector.handleGameSelect eventId st) = None)
  /\ (forall eventId,
        GameSelector.events (GameSelector.handleGameSelect eventId st)
        = GameSelector.events st
        /\ GameSelector.onGameSelect
             (GameSelector.handleGameSelect eventId st) = Some eventId).
Proof.
  split; [|split].
  - intros e Hnd He. unfold GameSelector.selectedEvent.
    cbn [GameSelector.handleGameSelect GameSelector.selectedEventId
         GameSelector.events].
    now apply (find_by_key Event.id).
  - intros eventId Hno. unfold GameSelector.selectedEvent.
    cbn [GameSelector.handleGameSelect GameSelector.selectedEventId
         GameSelector.events].
    destruct (find (fun e => String.eqb (Event.id e) eventId)
                (GameSelector.events st)) as [e|] eqn:F; [|reflexivity].
    exfalso. apply find_some in F. destruct F as [He Hid].
    apply String.eqb_eq in Hid. apply Hno. rewrite <- Hid.
    now apply in_map.
  - intros eventId. split; reflexivity.
Qed.

(** ** Properties of the sport layout *)

Lemma truthy_lower (s : string) :
  Js.truthy (Js.toLowerCase s) = Js.truthy s.
Proof. now destruct s. Qed.

(** X21.  The layout answers a sport by its name in lower case alone: two
    names that differ by letter case are both shown or both not found; a
    name is shown exactly when its lower case is one of the five valid
    sports, and the empty name is not found. *)
Theorem isNotFound_case_insensitive (sport : string) :
  (forall other,
     Js.toLowerCase other = Js.toLowerCase sport ->
     SportLayout.isNotFound other = SportLayout.isNotFound sport)
  /\ (SportLayout.isNotFound sport = false
      <-> In (Js.toLowerCase sport) SportLayout.validSports)
  /\ SportLayout.isNotFound "" = true.
Proof.
  split; [|split].
  - intros other Hlow. unfold SportLayout.isNotFound.
    rewrite <- (truthy_lower other), <- (truthy_lower sport), Hlow.
    reflexivity.
  - unfold SportLayout.isNotFound.
    rewrite orb_false_iff, !negb_false_iff, existsb_eqb. split.
    + intros [_ H]. exact H.
    + intros H. split; [|exact H].
      rewrite <- truthy_lower. apply truthy_true. intros Hc.
      rewrite Hc in H. simpl in H.
      repeat (destruct H as [H|H]; [discriminate|]). exact H.
  - reflexivity.
Qed.

(** ** The model at work on the sample payload *)

Example combine_bookA :
  Bookmaker.markets (combineMarkets Sample.bookA)
  = [ Market.mk "player_points"
        [ Outcome.mk "Over" 30 100 None; Sample.over 41 (-250) "X";
          Sample.over 45 (-105) "Y"; Sample.over 51 120 "X";
          Sample.under 51 (-140) "X"; Sample.over 61 300 "X" ] ].
Proof. reflexivity. Qed.

Example combine_bookC :
  Bookmaker.markets (combineMarkets Sample.bookC)
  = [ Market.mk "player_points"
        [ Sample.over 55 200 "Y"; Sample.over 47 (-120) "Y" ] ].
Proof. reflexivity. Qed.

Example props_of_response :
  playerProps Sample.getMarketApiKey Sample.sport Sample.statType
    (Some Sample.responseData)
  = [Sample.propX; Sample.propY].
Proof. reflexivity. Qed.

Example props_of_combined_response :
  playerProps Sample.getMarketApiKey Sample.sport Sample.statType
    (Some (combineResponse Sample.responseData))
  = [Sample.propX; Sample.propY].
Proof. reflexivity. Qed.

Example props_without_data :
  playerProps Sample.getMarketApiKey Sample.sport Sample.statType None = [].
Proof. reflexivity. Qed.

Example best_of_X_at_51 :
  bestForLine Sample.getMarketApiKey Sample.sport Sample.propX 51
  = BestPerLine.mk (Js.Fin 120) (Js.Fin (-110)).
Proof. reflexivity. Qed.

Example best_of_X_at_61 :
  bestForLine Sample.getMarketApiKey Sample.sport Sample.propX 61
  = BestPerLine.mk (Js.Fin 300) Js.NegInfinity.
Proof. reflexivity. Qed.

Example lines_of_X :
  sortedLines Sample.getMarketApiKey Sample.sport Sample.propX = [41; 51; 61].
Proof. reflexivity. Qed.

Example search_by_team :
  filteredProps Sample.getMarketApiKey Sample.localeCompare
    Sample.toLowerCase Sample.findBestOdds Sample.sport Sample.statType
    [Sample.propY; Sample.propX] "LAKE" SortByName
  = [Sample.propX; Sample.propY].
Proof. reflexivity. Qed.

Example search_without_match :
  filteredProps Sample.getMarketApiKey Sample.localeCompare
    Sample.toLowerCase Sample.findBestOdds Sample.sport Sample.statType
    [Sample.propX; Sample.propY] "zz" SortByName
  = [].
Proof. reflexivity. Qed.

Example sort_by_best_odds :
  filteredProps Sample.getMarketApiKey Sample.localeCompare
    Sample.toLowerCase Sample.findBestOdds Sample.sport Sample.statType
    [Sample.propX; Sample.propY] "" SortByBestOdds
  = [Sample.propY; Sample.propX].
Proof. reflexivity. Qed.

Example players_named_by_response :
  Named Sample.getMarketApiKey Sample.sport Sample.statType
    Sample.responseData "Y"
  /\ ~ Named Sample.getMarketApiKey Sample.sport Sample.statType
        Sample.responseData "".
Proof.
  split.
  - exists Sample.bookC. split; [right; right; now left|].
    exists (Sample.over 55 200 "Y"). split; [|split; [reflexivity|easy]].
    exists (Market.mk "player_points_alternate"
              [ Sample.over 55 200 "Y"; Sample.over 47 (-120) "Y" ]).
    split; [|now left]. right. exists [], [].
    repeat split. intros m' [].
  - intros (b & _ & o & _ & _ & Hne). now apply Hne.
Qed.

Example pitcher_replaces_batter_stat :
  updateStatType Sample.getMarketsForSport "baseball_mlb" Pitcher "hits"
  = "strikeouts"
  /\ updateStatType Sample.getMarketsForSport "baseball_mlb" Batter
       "home_runs" = "home_runs"
  /\ updateStatType Sample.getMarketsForSport "baseball_mlb" Batter
       "strikeouts" = "hits".
Proof. repeat split. Qed.

Example search_is_not_case_sensitive :
  filteredProps Sample.getMarketApiKey Sample.localeCompare
    Sample.toLowerCase Sample.findBestOdds Sample.sport Sample.statType
    [Sample.propY; Sample.propX] "x" SortByName
  = [Sample.propX].
Proof. reflexivity. Qed.

Example best_over_of_two_books :
  Sample.findBestOdds
    (PlayerProp.mk "X" "Lakers" "player_points" 51
       [ Bookmaker.mk "booka" "Book A" ""
           [ Market.mk "player_points" [ Sample.over 51 120 "X" ] ];
         Bookmaker.mk "bookb" "Book B" ""
           [ Market.mk "player_points" [ Sample.over 51 (-110) "X" ] ] ])
    "player_points" "Over"
  = Some (BestOdds.mk "booka" 51 120).
Proof. reflexivity. Qed.

Example events_loaded :
  GameSelector.sportEffects Sample.events GameSelector.mounted
  = GameSelector.mkState
      [ Event.mk "e1" "Heat" "Bulls" 1740787200000;
        Event.mk "e3" "Suns" "Nets" 1740787200000;
        Event.mk "e2" "Lakers" "Celtics" 1740873600000 ]
      (Some "e1") (Some "e1").
Proof. reflexivity. Qed.

Example events_of_next_sport :
  GameSelector.sportEffects Sample.nextEvents
    (GameSelector.sportEffects Sample.events GameSelector.mounted)
  = GameSelector.mkState
      [ Event.mk "f1" "Mets" "Cubs" 1740790800000;
        Event.mk "f2" "Reds" "Rays" 1740877200000 ]
      None (Some "").
Proof. reflexivity. Qed.

Example promoted_key :
  Js.replace "player_points_alternate" "_alternate" "" = "player_points".
Proof. reflexivity. Qed.

(** ** Instances at the sample payload *)

Lemma sample_collation_total (a b : string) :
  Sample.localeCompare a b <= 0 \/ Sample.localeCompare b a <= 0.
Proof.
  unfold Sample.localeCompare. rewrite (String.compare_antisym a b).
  destruct (String.compare b a); simpl; lia.
Qed.

Lemma no_duplicate_triples_witness :
  (forall m,
     In m (Bookmaker.markets (combineMarkets Sample.bookA)) ->
     NoDupTriple (Market.outcomes m))
  /\ (forall p e m,
        In p (playerProps Sample.getMarketApiKey Sample.sport
                Sample.statType (Some Sample.responseData)) ->
        In e (PlayerProp.bookmakers p) ->
        In m (Bookmaker.markets e) -> NoDupTriple (Market.outcomes m)).
Proof.
  apply (no_duplicate_triples Sample.getMarketApiKey Sample.sport
           Sample.statType Sample.bookA (Some Sample.responseData)).
  intros m [<-|[<-|[<-|[]]]]; unfold NoDupTriple; simpl;
    repeat (constructor; [simpl; intuition discriminate|]); constructor.
Defined.

Lemma best_price_is_maximum_witness :
  let best :=
    bestForLine Sample.getMarketApiKey Sample.sport Sample.propX 51 in
  BestPerLine.over best = maximum (pricesAt Sample.propX "Over" 51)
  /\ BestPerLine.under best = maximum (pricesAt Sample.propX "Under" 51)
  /\ IsMaximum (BestPerLine.over best) (pricesAt Sample.propX "Over" 51)
  /\ IsMaximum (BestPerLine.under best) (pricesAt Sample.propX "Under" 51)
  /\ (forall e m o,
        In e (PlayerProp.bookmakers Sample.propX) ->
        In m (Bookmaker.markets e) ->
        In o (Market.outcomes m) -> Outcome.point o = 51 ->
        (Outcome.name o = "Over" ->
         Js.le (Js.Fin (Outcome.price o)) (BestPerLine.over best))
        /\ (Outcome.name o = "Under" ->
            Js.le (Js.Fin (Outcome.price o)) (BestPerLine.under best))).
Proof.
  apply (best_price_is_maximum Sample.getMarketApiKey Sample.sport
           Sample.statType Sample.responseData Sample.propX 51).
  - reflexivity.
  - vm_compute. left. reflexivity.
Defined.

Lemma new_prop_team_and_line_witness :
  PlayerProp.team Sample.propX = GameOdds.home_team Sample.responseData
  /\ PlayerProp.line Sample.propX = 41.
Proof.
  destruct (new_prop_team_and_line Sample.getMarketApiKey Sample.sport
              Sample.statType Sample.responseData Sample.propX)
    as [Hteam _].
  - vm_compute. left. reflexivity.
  - split; [exact Hteam | reflexivity].
Defined.


Lemma sort_modes_witness :
  Permutation
    (filteredProps Sample.getMarketApiKey Sample.localeCompare
       Sample.toLowerCase Sample.findBestOdds Sample.sport Sample.statType
       [Sample.propX; Sample.propY] "" SortByBestOdds)
    [Sample.propX; Sample.propY]
  /\ StronglySorted
       (fun a b =>
          bestOverOdds Sample.getMarketApiKey Sample.findBestOdds
            Sample.sport Sample.statType a
          >= bestOverOdds Sample.getMarketApiKey Sample.findBestOdds
               Sample.sport Sample.statType b)
       (filteredProps Sample.getMarketApiKey Sample.localeCompare
          Sample.toLowerCase Sample.findBestOdds Sample.sport Sample.statType
          [Sample.propX; Sample.propY] "" SortByBestOdds).
Proof.
  destruct (sort_modes Sample.getMarketApiKey Sample.localeCompare
              Sample.toLowerCase Sample.findBestOdds Sample.sport
              Sample.statType
              [Sample.propX; Sample.propY] "" sample_collation_total)
    as (Hperm & Hsorted & _).
  split; [exact Hperm | exact Hsorted].
Defined.

Lemma sport_change_selects_nothing_witness :
  let st :=
    GameSelector.sportEffects Sample.events GameSelector.mounted in
  let st' := GameSelector.sportEffects Sample.nextEvents st in
  GameSelector.selectedEventId st = Some "e1"
  /\ GameSelector.events st' <> []
  /\ GameSelector.selectedEventId st' = None
  /\ GameSelector.selectedEvent st' = None.
Proof.
  destruct (sport_change_selects_nothing Sample.nextEvents
              (GameSelector.sportEffects Sample.events GameSelector.mounted))
    as (_ & _ & _ & Hid & Hshown & _).
  - reflexivity.
  - cbv zeta. split; [reflexivity|]. split; [discriminate|].
    split; [exact Hid | exact Hshown].
Defined.

(** The promotion does not remove the suffix of a key that holds
    ["_alternate"] before its end, and of two alternate markets of one key
    only the first is merged. *)
Lemma combine_markets_counterexample :
  ((forall m, In m (Bookmaker.markets Sample.oddBook) -> Alternate m)
   /\ ~ PromotedBySuffix Sample.oddBook)
  /\ ((exists m, In m (Bookmaker.markets Sample.twinBook) /\ ~ Alternate m)
      /\ ~ EveryAlternateMerged Sample.twinBook).
Proof.
  split; split.
  - intros m [<-|[]]. exists "h1_", "_points_alternate". reflexivity.
  - intros H.
    specialize (H Sample.oddMarket "h1_alternate_points" (or_introl eq_refl)
                  eq_refl).
    vm_compute in H. destruct H as [H|[]]. discriminate.
  - exists (Market.mk "player_points" [ Sample.over 51 120 "X" ]).
    split; [now left|]. unfold Alternate. rewrite Holds_includes.
    discriminate.
  - intros H.
    destruct (H (Market.mk "player_points" [ Sample.over 51 120 "X" ])
                (Market.mk "player_points_alternate"
                   [ Sample.over 71 500 "X" ])
                (Sample.over 71 500 "X"))
      as (cm & Hcm & _ & Ho).
    + now left.
    + unfold Alternate. rewrite Holds_includes. discriminate.
    + right. right. now left.
    + reflexivity.
    + now left.
    + vm_compute in Hcm. destruct Hcm as [<-|[]].
      vm_compute in Ho. destruct Ho as [Ho|[Ho|[]]]; discriminate.
Qed.

Lemma unmatched_alternate_discarded_witness :
  combineMarkets Sample.bookA
  = combineMarkets
      (Bookmaker.mk "booka" "Book A" "2025-03-01T00:00:00Z"
         (firstn 2 (Bookmaker.markets Sample.bookA)))
  /\ forall m o,
       In m (Bookmaker.markets (combineMarkets Sample.bookA)) ->
       In o (Market.outcomes m) ->
       exists src,
         In src (firstn 2 (Bookmaker.markets Sample.bookA))
         /\ In o (Market.outcomes src).
Proof.
  apply (unmatched_alternate_discarded "booka" "Book A"
           "2025-03-01T00:00:00Z"
           (firstn 2 (Bookmaker.markets Sample.bookA)) []
           (Market.mk "player_assists_alternate" [Sample.over 9 150 "X"])).
  - reflexivity.
  - exists (Market.mk "player_points"
              [ Sample.over 51 120 "X"; Sample.under 51 (-140) "X";
                Sample.over 45 (-105) "Y"; Outcome.mk "Over" 30 100 None ]).
    split; [now left | reflexivity].
  - intros sm [<-|[<-|[]]]; vm_compute; intros; discriminate.
Defined.

Lemma compare_not_greater_trans (a b c : string) :
  String.compare a b <> Gt -> String.compare b c <> Gt ->
  String.compare a c <> Gt.
Proof.
  revert b c. induction a as [|x a IH]; intros [|y b] [|z c]; simpl;
    try congruence.
  unfold Ascii.compare.
  destruct (N.compare_spec (N_of_ascii x) (N_of_ascii y)),
    (N.compare_spec (N_of_ascii y) (N_of_ascii z)),
    (N.compare_spec (N_of_ascii x) (N_of_ascii z));
    try congruence; try lia; apply IH.
Qed.

Lemma sample_collation_trans (a b c : string) :
  Sample.localeCompare a b <= 0 -> Sample.localeCompare b c <= 0 ->
  Sample.localeCompare a c <= 0.
Proof.
  unfold Sample.localeCompare. intros Hab Hbc.
  assert (H := compare_not_greater_trans a b c).
  destruct (String.compare a b), (String.compare b c),
    (String.compare a c); try lia; exfalso; apply H; congruence.
Qed.

Lemma combineMarkets_idempotent_witness :
  combineMarkets (combineMarkets Sample.bookA) = combineMarkets Sample.bookA.
Proof.
  apply (combineMarkets_idempotent Sample.bookA).
  intros [H _]. vm_compute in H. discriminate.
Defined.

Lemma sample_propX_built :
  In Sample.propX
    (playerProps Sample.getMarketApiKey Sample.sport Sample.statType
       (Some Sample.responseData)).
Proof. vm_compute. left. reflexivity. Qed.

Lemma sample_keys_distinct :
  NoDup (List.map Bookmaker.key (GameOdds.bookmakers Sample.responseData)).
Proof.
  simpl. repeat (constructor; [simpl; intuition discriminate|]).
  constructor.
Qed.

Lemma prop_shape_witness :
  PlayerProp.statType Sample.propX = Sample.statType
  /\ PlayerProp.player Sample.propX <> ""
  /\ PlayerProp.bookmakers Sample.propX <> []
  /\ forall e, In e (PlayerProp.bookmakers Sample.propX) ->
       exists outs,
         Bookmaker.markets e
         = [Market.mk
              (standardMarketKey Sample.getMarketApiKey Sample.sport
                 Sample.statType) outs]
         /\ outs <> [].
Proof.
  exact (prop_shape Sample.getMarketApiKey Sample.sport Sample.statType
           Sample.responseData Sample.propX sample_propX_built).
Defined.

Lemma prop_outcome_source_witness :
  Outcome.description (Sample.over 61 300 "X")
  = Some (PlayerProp.player Sample.propX)
  /\ exists b src,
       In b (GameOdds.bookmakers Sample.responseData)
       /\ Bookmaker.key b = "booka"
       /\ In src (Bookmaker.markets b)
       /\ In (Sample.over 61 300 "X") (Market.outcomes src).
Proof.
  destruct (prop_outcome_source Sample.getMarketApiKey Sample.sport
              Sample.statType Sample.responseData Sample.propX
              (Bookmaker.mk "booka" "Book A" "2025-03-01T00:00:00Z"
                 [ Market.mk "player_points"
                     [ Sample.over 41 (-250) "X"; Sample.over 51 120 "X";
                       Sample.under 51 (-140) "X"; Sample.over 61 300 "X" ] ])
              (Market.mk "player_points"
                 [ Sample.over 41 (-250) "X"; Sample.over 51 120 "X";
                   Sample.under 51 (-140) "X"; Sample.over 61 300 "X" ])
              (Sample.over 61 300 "X"))
    as (Hd & b & src & Hb & Hk & _ & _ & Hsrc & _ & Ho).
  - exact sample_propX_built.
  - now left.
  - now left.
  - simpl. auto.
  - split; [exact Hd|]. exists b, src. simpl in Hk. auto.
Defined.

Lemma prop_bookmakers_distinct_witness :
  NoDup (List.map Bookmaker.key (PlayerProp.bookmakers Sample.propX))
  /\ (List.length (PlayerProp.bookmakers Sample.propX)
      <= List.length (GameOdds.bookmakers Sample.responseData))%nat.
Proof.
  exact (prop_bookmakers_distinct Sample.getMarketApiKey Sample.sport
           Sample.statType Sample.responseData Sample.propX
           sample_keys_distinct sample_propX_built).
Defined.

Lemma filteredProps_idempotent_witness :
  filteredProps Sample.getMarketApiKey Sample.localeCompare
    Sample.toLowerCase Sample.findBestOdds Sample.sport Sample.statType
    (filteredProps Sample.getMarketApiKey Sample.localeCompare
       Sample.toLowerCase Sample.findBestOdds Sample.sport Sample.statType
       [Sample.propY; Sample.propX] "" SortByName)
    "" SortByName
  = filteredProps Sample.getMarketApiKey Sample.localeCompare
      Sample.toLowerCase Sample.findBestOdds Sample.sport Sample.statType
      [Sample.propY; Sample.propX] "" SortByName.
Proof.
  exact (filteredProps_idempotent Sample.getMarketApiKey Sample.localeCompare
           Sample.toLowerCase Sample.findBestOdds Sample.sport Sample.statType
           [Sample.propY; Sample.propX] "" SortByName
           sample_collation_total).
Defined.

Lemma sample_lower_nonempty (s : string) :
  Sample.toLowerCase s = "" -> s = "".
Proof. now destruct s. Qed.

Lemma search_keeps_order_witness :
  filteredProps Sample.getMarketApiKey Sample.localeCompare
    Sample.toLowerCase Sample.findBestOdds Sample.sport Sample.statType
    [Sample.propY; Sample.propX] "y" SortByName
  = filter
      (fun p => ciIncludes Sample.toLowerCase "y" (PlayerProp.player p)
                || ciIncludes Sample.toLowerCase "y" (PlayerProp.team p))%bool
      (filteredProps Sample.getMarketApiKey Sample.localeCompare
         Sample.toLowerCase Sample.findBestOdds Sample.sport Sample.statType
         [Sample.propY; Sample.propX] "" SortByName).
Proof.
  exact (search_keeps_order Sample.getMarketApiKey Sample.localeCompare
           Sample.toLowerCase Sample.findBestOdds Sample.sport Sample.statType
           [Sample.propY; Sample.propX] "y" SortByName eq_refl
           sample_lower_nonempty
           sample_collation_total sample_collation_trans).
Defined.

Lemma highlight_is_best_witness :
  exists e,
    In e (PlayerProp.bookmakers Sample.propX)
    /\ isOverBest Sample.getMarketApiKey Sample.sport Sample.propX
         (Bookmaker.key e) 51 = true.
Proof.
  apply (highlight_is_best Sample.getMarketApiKey Sample.sport
           Sample.statType Sample.responseData Sample.propX 51 eq_refl
           sample_keys_distinct sample_propX_built).
  vm_compute. discriminate.
Defined.

Lemma navigation_stays_in_range_witness :
  currentPlayer [Sample.propX; Sample.propY]
    (nextPlayer [Sample.propX; Sample.propY] 1) <> None
  /\ currentPlayer [Sample.propX; Sample.propY] (prevPlayer 1) <> None.
Proof.
  destruct (navigation_stays_in_range [Sample.propX; Sample.propY] 1)
    as (Hn & Hp & _).
  - vm_compute. discriminate.
  - split; assumption.
Defined.

Lemma selected_event_is_first_witness :
  exists e,
    GameSelector.selectedEvent
      (GameSelector.sportEffects Sample.events GameSelector.mounted) = Some e
    /\ Event.id e = "e1"
    /\ forall e', In e' Sample.events ->
         Event.commence_time e <= Event.commence_time e'.
Proof.
  destruct (selected_event_is_first None Sample.events
              (GameSelector.resetSelection GameSelector.mounted))
    as (e & Hshown & _ & _ & Hid & _ & Hleast).
  - reflexivity.
  - discriminate.
  - exists e. split; [exact Hshown|]. split; [|exact Hleast].
    vm_compute in Hid. now injection Hid.
Defined.

(** ** The further properties at work *)

Example layout_accepts_upper_case : SportLayout.isNotFound "NBA" = false.
Proof. reflexivity. Qed.

Example layout_rejects_unknown : SportLayout.isNotFound "soccer" = true.
Proof. reflexivity. Qed.

Example over_51_highlighted_for_A :
  isOverBest Sample.getMarketApiKey Sample.sport Sample.propX "booka" 51
  = true
  /\ isOverBest Sample.getMarketApiKey Sample.sport Sample.propX "bookb" 51
     = false
  /\ isUnderBest Sample.getMarketApiKey Sample.sport Sample.propX "bookb" 51
     = true.
Proof. repeat split. Qed.

Example days_of_events :
  GameSelector.groupedEvents
    (fun t => if t <? 1740800000000 then "Fri Feb 28 2025"
              else "Sat Mar 01 2025")
    (GameSelector.events
       (GameSelector.sportEffects Sample.events GameSelector.mounted))
  = [ ("Fri Feb 28 2025",
       [ Event.mk "e1" "Heat" "Bulls" 1740787200000;
         Event.mk "e3" "Suns" "Nets" 1740787200000 ]);
      ("Sat Mar 01 2025",
       [ Event.mk "e2" "Lakers" "Celtics" 1740873600000 ]) ].
Proof. reflexivity. Qed.

Lemma combination_keeps_players_witness :
  List.length
    (playerProps Sample.getMarketApiKey Sample.sport Sample.statType
       (Some (combineResponse
                (GameOdds.mk "Lakers" "Celtics"
                   [ Bookmaker.mk "booka" "Book A" "2025-03-01T00:00:00Z"
                       (firstn 2 (Bookmaker.markets Sample.bookA));
                     Sample.bookB; Sample.bookC ]))))
  = List.length
      (playerProps Sample.getMarketApiKey Sample.sport Sample.statType
         (Some (GameOdds.mk "Lakers" "Celtics"
                  [ Bookmaker.mk "booka" "Book A" "2025-03-01T00:00:00Z"
                      (firstn 2 (Bookmaker.markets Sample.bookA));
                    Sample.bookB; Sample.bookC ]))).
Proof.
  apply (combination_keeps_players Sample.getMarketApiKey Sample.sport
           Sample.statType eq_refl eq_refl
           (GameOdds.mk "Lakers" "Celtics"
              [ Bookmaker.mk "booka" "Book A" "2025-03-01T00:00:00Z"
                  (firstn 2 (Bookmaker.markets Sample.bookA));
                Sample.bookB; Sample.bookC ])).
  intros b [<-|[<-|[<-|[]]]] m Hm; simpl in Hm;
    repeat (destruct Hm as [<-|Hm]; [vm_compute; auto|]); destruct Hm.
Defined.
